(** * Pong: the game-state reducer and its physics (src/pong.ts)

    A shallow embedding of the simulation core of [pong.ts]: the body
    generators, the paddle and ball physics, the AI controller and the
    callback that [scan] folds over the merged stream of timer ticks and
    key actions.

    Conventions of the embedding.
    - A JavaScript [number] that holds a position, a velocity or a size is a
      rational [Q]; arithmetic is exact (the rounding of IEEE doubles is not
      modelled).  Counters (energy, scores) are integers [Z].
    - [Math.random()] reads the next element of a sequence
      [random : nat -> Q]; the index of the next draw is threaded through
      the code in the monad [M].
    - Reading a property of [undefined] raises a [TypeError]; this is the
      failure [None] of the monad [M].
    - The key observers are embedded as what they emit for one keyboard
      event, and the view as the drawing functions over the list of the
      elements of the document; there the conversion of a number to its
      string and [gameOver] are parameters. *)

From Stdlib Require Import ZArith QArith Qabs Qround Lqa Lia Bool.
From Stdlib Require Import String Ascii List.
From Stdlib Require Import Decimal DecimalString DecimalPos.
Import ListNotations.

Open Scope string_scope.
Open Scope Q_scope.

(** ** Comparisons of numbers, as booleans *)

Definition Qltb (x y : Q) : bool :=
  (Qnum x * QDen y <? Qnum y * QDen x)%Z.

Notation "x <? y" := (Qltb x y) : Q_scope.
Notation "x <=? y" := (Qle_bool x y) : Q_scope.
Notation "x >? y" := (Qltb y x) : Q_scope.
Notation "x >=? y" := (Qle_bool y x) : Q_scope.

(** [Math.round]: the nearest integer, halves rounded up. *)
Definition Math_round (x : Q) : Q := inject_Z (Qfloor (x + (1 # 2))).

(** ** Strings of numbers *)

(** [num.toString()] on an integer. *)
Definition toString (z : Z) : string := NilZero.string_of_int (Z.to_int z).

Definition digitValue (a : ascii) : option Z :=
  let n := nat_of_ascii a in
  if (48 <=? n)%nat && (n <=? 57)%nat then Some (Z.of_nat (n - 48)) else None.

(** The longest prefix of decimal digits; [None] when there is none. *)
Fixpoint parseDigits (s : string) (acc : option Z) : option Z :=
  match s with
  | EmptyString => acc
  | String a s' =>
      match digitValue a with
      | Some d =>
          parseDigits s' (Some (10 * match acc with Some n => n | None => 0 end + d)%Z)
      | None => acc
      end
  end.

(** [parseInt] in radix ten: an optional sign, then digits; [None] is
    [NaN].  (Leading blanks and the [0x] prefix do not occur in the
    contents built by [genericText].) *)
Definition parseInt (s : string) : option Z :=
  match s with
  | String "-" s' => option_map Z.opp (parseDigits s' None)
  | String "+" s' => parseDigits s' None
  | _ => parseDigits s None
  end.

(** [parseInt(content) === k] *)
Definition parsesTo (s : string) (k : Z) : bool :=
  match parseInt s with
  | Some n => (n =? k)%Z
  | None => false
  end.

(** ** Game constants *)

Module Constants.
Definition winningScore : Z := 7.
Definition uiColour : string := "rgb(230,230,230)".
Definition topBound : Q := 10.
Definition bottomBound : Q := 10.
Definition sideBound : Q := 10.
Definition paddleXWidth : Q := 20.
Definition paddleYWidth : Q := 90.
Definition ballRadius : Q := 10.
Definition ballBaseXSpeed : Q := 5.
Definition ballBaseYSpeed : Q := 8.
Definition paddleSpeed : Q := 5.
Definition cpuCheating : Q := 2.
Definition startingEnergy : Z := 4.
Definition paddleGrowthAbility : Q := 30.
Definition paddleShrinkAbility : Q := 15.
Definition rageColourProgression : list string :=
  [uiColour; uiColour; uiColour;
   "rgb(240,220,220)"; "rgb(255,210,210)"; "rgb(255,190,190)";
   "rgb(255,150,150)"; "rgb(255,120,120)"; "rgb(255,100,100)";
   "rgb(255, 50, 50)"; "rgb(255, 20, 20)"; "rgb(255,  0,  0)"].
Definition canvasRight : Q := 900.
Definition canvasBottom : Q := 600.
End Constants.

(** ** Bodies *)

(** [scoreUpdateTracker = null | "p" | "c"] *)
Inductive Side : Type := side_p | side_c.
Definition scoreUpdateTracker : Type := option Side.

Module Rect.
Record Body : Type := mk {
  id : string;
  xPos : Q;
  yPos : Q;
  xVel : Q;
  yVel : Q;
  xSize : Q;
  ySize : Q;
  energy : Z;
  colour : string
}.
End Rect.
Definition RectBody : Type := Rect.Body.

Module Circle.
Record Body : Type := mk {
  id : string;
  xPos : Q;
  yPos : Q;
  xVel : Q;
  yVel : Q;
  radius : Q;
  colourOveride : string;
  scoreUpdate : scoreUpdateTracker
}.
End Circle.
Definition CircleBody : Type := Circle.Body.

Module Text.
Record Body : Type := mk {
  id : string;
  xPos : Q;
  yPos : Q;
  size : Q;
  numeric : Z;
  content : string;
  colour : string
}.
End Text.
Definition TextBody : Type := Text.Body.

(** [rageColourProgression[level]], the last colour from its length on;
    an index below zero reads [undefined]. *)
Definition getRageColour (level : Z) : string :=
  let len := Z.of_nat (List.length Constants.rageColourProgression) in
  if (level >=? len)%Z
  then nth (Z.to_nat (len - 1)) Constants.rageColourProgression "undefined"
  else if (level <? 0)%Z then "undefined"
  else nth (Z.to_nat level) Constants.rageColourProgression "undefined".

(** ** Body generators *)

Definition paddleGenerator : Type := Q -> Q -> Z -> Q -> RectBody.

Definition genericPaddle (name : string) (xPosition : Q)
  (colouring : Z -> string) (width : Q) : paddleGenerator :=
  fun position velocity energy_ length =>
  {| Rect.id := name;
     Rect.xPos := xPosition;
     Rect.yPos := position;
     Rect.xVel := 0;
     Rect.yVel := velocity;
     Rect.xSize := width;
     Rect.ySize := length;
     Rect.energy := energy_;
     Rect.colour := colouring energy_ |}.

Definition playerPaddle : paddleGenerator :=
  genericPaddle "PaddlePlayer" (Constants.sideBound + 20) getRageColour
    Constants.paddleXWidth.

Definition aiPaddle : paddleGenerator :=
  genericPaddle "PaddleAI"
    (Constants.canvasRight - Constants.paddleXWidth - 20 - Constants.sideBound)
    (fun _ => Constants.uiColour) Constants.paddleXWidth.

(** [ball]; the colour and the radius keep their defaults at every call. *)
Definition ball (xPos yPos xVel yVel : Q) (score : scoreUpdateTracker) : CircleBody :=
  {| Circle.id := "ball";
     Circle.xPos := xPos;
     Circle.yPos := yPos;
     Circle.xVel := xVel;
     Circle.yVel := yVel;
     Circle.radius := Constants.ballRadius;
     Circle.colourOveride := Constants.uiColour;
     Circle.scoreUpdate := score |}.

(** [genericText], at a defined number (only the prompt and the victory
    labels of the view pass [undefined]). *)
Definition genericText (name : string) (xpos ypos size_ : Q) (extra : string)
  (colourGen : Z -> string) (num : Z) : TextBody :=
  {| Text.id := name;
     Text.xPos := xpos;
     Text.yPos := ypos;
     Text.size := size_;
     Text.numeric := num;
     Text.content := extra ++ toString num;
     Text.colour := colourGen num |}.

Definition scoreGenerator : Type := Z -> TextBody.

Definition playerScore : scoreGenerator :=
  genericText "ScorePlayer" (Constants.canvasRight / 4) (Constants.topBound + 64)
    64 "" (fun _ => Constants.uiColour).

Definition aiScore : scoreGenerator :=
  genericText "ScoreAI" (Constants.canvasRight * 3 / 4 - 64)
    (Constants.topBound + 64) 64 "" (fun _ => Constants.uiColour).

Definition playerEnergy : Z -> TextBody :=
  genericText "playerEnergy" (Constants.canvasRight / 4)
    (Constants.canvasBottom - Constants.bottomBound - 32) 32 "Rage: "
    getRageColour.

(** ** Actions and events *)

Inductive Actions : Type :=
| Movement (y x : Q)
| PaddleGrowth (size : Q)
| Teleport
| PaddleShrink (size : Q)
| Drain.

(** What [scan] receives: a number of the ticker [interval(10)], or an
    action mapped from a key. *)
Inductive Event : Type :=
| Tick (n : nat)
| Key (a : Actions).

Definition instanceofPaddleGrowth (s : Event) : bool :=
  match s with Key (PaddleGrowth _) => true | _ => false end.
Definition instanceofTeleport (s : Event) : bool :=
  match s with Key Teleport => true | _ => false end.
Definition instanceofPaddleShrink (s : Event) : bool :=
  match s with Key (PaddleShrink _) => true | _ => false end.
(** The actions of the key observers. *)
Definition keyUpArrow : Event := Key (Movement (-1 * Constants.paddleSpeed) 0).
Definition keyDownArrow : Event := Key (Movement (1 * Constants.paddleSpeed) 0).
Definition keyE : Event := Key (PaddleGrowth Constants.paddleGrowthAbility).
Definition keyQ : Event := Key (PaddleShrink Constants.paddleShrinkAbility).
Definition keyR : Event := Key Teleport.
Definition keyRelease : Event := Key (Movement 0 0).

(** The events of [ticker.pipe(merge(keyPress))]. *)
Inductive mapped : Event -> Prop :=
| mapped_tick : forall n, mapped (Tick n)
| mapped_up : mapped keyUpArrow
| mapped_down : mapped keyDownArrow
| mapped_grow : mapped keyE
| mapped_shrink : mapped keyQ
| mapped_teleport : mapped keyR
| mapped_release : mapped keyRelease.

(** ** State *)

Module St.
Record State : Type := mk {
  paddleOne : RectBody;
  paddleTwo : RectBody;
  ball : CircleBody;
  scoreOne : TextBody;
  scoreTwo : TextBody;
  playerEnergy : TextBody;
  winnerIs : scoreUpdateTracker
}.
End St.
Definition State : Type := St.State.

Definition changeScore (target : scoreGenerator) (curren : TextBody) : TextBody :=
  target (Text.numeric curren + 1)%Z.
Definition changePlayerScore : TextBody -> TextBody := changeScore playerScore.
Definition changeCpuScore : TextBody -> TextBody := changeScore aiScore.

Definition createState (player cpu : RectBody) (b : CircleBody)
  (sc1 sc2 energy : TextBody) (winner : scoreUpdateTracker) : State :=
  {| St.paddleOne := player;
     St.paddleTwo := cpu;
     St.ball := b;
     St.scoreOne := sc1;
     St.scoreTwo := sc2;
     St.playerEnergy := energy;
     St.winnerIs := winner |}.

(** ** The monad of the code: random draws and [TypeError] *)

Definition M (A : Type) : Type := nat -> option (A * nat).

Definition ret {A : Type} (a : A) : M A := fun i => Some (a, i).

Definition bind {A B : Type} (m : M A) (k : A -> M B) : M B :=
  fun i => match m i with
           | Some (a, j) => k a j
           | None => None
           end.

Definition throwTypeError {A : Type} : M A := fun _ => None.

Notation "x <- m ;; k" := (bind m (fun x => k))
  (at level 61, m at next level, right associativity).

Section Game.

(** The values that successive calls of [Math.random()] return. *)
Variable random : nat -> Q.

Definition Math_random : M Q := fun i => Some (random i, S i).

(** ** Defaults *)

Definition halfway : Q :=
  Constants.topBound
  + (Constants.canvasBottom - Constants.bottomBound - Constants.topBound) / 2.

Definition createDefaultPaddleState (paddle : paddleGenerator) : RectBody :=
  paddle (halfway - Constants.paddleYWidth / 2) 0 Constants.startingEnergy
    Constants.paddleYWidth.

Definition defaultPlayerPaddleState : RectBody := createDefaultPaddleState playerPaddle.
Definition defaultAiPaddleState : RectBody := createDefaultPaddleState aiPaddle.

(** [genericDefaultBall(multiplierX, multiplierY)()], with the default
    speeds and the centre of the canvas. *)
Definition genericDefaultBall (multiplierX multiplierY : Q) : M CircleBody :=
  let xSpeed := Constants.ballBaseXSpeed in
  let ySpeed := Constants.ballBaseYSpeed in
  let hMid := Constants.canvasRight / 2 in
  let vMid := Constants.canvasBottom / 2 in
  r1 <- Math_random ;;
  r2 <- Math_random ;;
  let yVelocity :=
    Math_round (if r1 >? (1 # 2) then ySpeed * r2 / 2 else - ySpeed * r2 / 3) in
  ret (ball hMid vMid (multiplierX * xSpeed) (multiplierY * yVelocity) None).

(** Towards the player. *)
Definition defaultBallState1 : M CircleBody := genericDefaultBall (-1) 1.
(** Towards the CPU. *)
Definition defaultBallState2 : M CircleBody := genericDefaultBall 1 1.
(** Stationary. *)
Definition defaultStillBall : M CircleBody := genericDefaultBall 0 0.

Definition createDefaultScoreState (person : scoreGenerator) : TextBody := person 0%Z.
Definition defaultPlayerScoreState : TextBody := createDefaultScoreState playerScore.
Definition defaultCPUScoreState : TextBody := createDefaultScoreState aiScore.
Definition defaultPlayerEnergyState : TextBody := playerEnergy Constants.startingEnergy.

Definition defaultEverythingState : M State :=
  b <- defaultBallState2 ;;
  ret {| St.paddleOne := defaultPlayerPaddleState;
         St.paddleTwo := defaultAiPaddleState;
         St.ball := b;
         St.scoreOne := defaultPlayerScoreState;
         St.scoreTwo := defaultCPUScoreState;
         St.playerEnergy := defaultPlayerEnergyState;
         St.winnerIs := None |}.

(** ** Paddle physics *)

Definition movingPaddleState (person : paddleGenerator) (paddle : RectBody)
  (vel : Q) : RectBody :=
  let top := Constants.topBound in
  let bottomWall := Constants.canvasBottom - Constants.bottomBound in
  let yPosition := Rect.yPos paddle in
  let bottom := bottomWall - Rect.ySize paddle in
  let newYPos := yPosition + vel in
  if ((yPosition >? top) && (yPosition <? bottom))
     || ((yPosition <=? top) && (vel >=? 0))
     || ((yPosition >=? bottom) && (vel <=? 0))
  then
    if (newYPos <? top) && (vel <? 0)
    then person top 0 (Rect.energy paddle) (Rect.ySize paddle)
    else if (newYPos >? bottom) && (vel >? 0)
    then person bottom 0 (Rect.energy paddle) (Rect.ySize paddle)
    else person (yPosition + vel) vel (Rect.energy paddle) (Rect.ySize paddle)
  else person yPosition 0 (Rect.energy paddle) (Rect.ySize paddle).

(** [makePaddleState(person)(prev, paddle, ball?)].  [paddle] is whatever
    the stream delivered: a tick is an instance of no class, and an
    ability that finds [prev.energy > 0] false falls through the remaining
    tests to the last alternative. *)
Definition makePaddleState (person : paddleGenerator) (prev : RectBody)
  (paddle : Event) (ball : option CircleBody) : M RectBody :=
  let otherwise := ret (movingPaddleState person prev (Rect.yVel prev)) in
  match paddle with
  | Key (Movement y _) => ret (movingPaddleState person prev y)
  | Key (PaddleGrowth size) =>
      if (Rect.energy prev >? 0)%Z
      then ret (person (Rect.yPos prev) (Rect.yVel prev) (Rect.energy prev - 1)%Z
                  (size + Rect.ySize prev))
      else otherwise
  | Key Teleport =>
      if (Rect.energy prev >? 0)%Z
      then match ball with
           | Some b =>
               ret (person (Circle.yPos b) (Circle.yVel b) (Rect.energy prev - 1)%Z
                      (Rect.ySize prev))
           | None => throwTypeError
           end
      else otherwise
  | Key Drain =>
      if (Rect.energy prev >? 0)%Z
      then ret (person (Rect.yPos prev) (Rect.yVel prev) (Rect.energy prev - 1)%Z
                  (Rect.ySize prev))
      else otherwise
  | Key (PaddleShrink size) =>
      ret (person (Rect.yPos prev) (Rect.yVel prev) (Rect.energy prev)
             (Rect.ySize prev - size))
  | Tick _ => otherwise
  end.

(** ** AI controller *)

Definition followBall (paddle : RectBody) (b : CircleBody) : Actions :=
  let speed := Constants.paddleSpeed + Constants.cpuCheating in
  let paddleLoc := Rect.yPos paddle + Rect.ySize paddle / 2 in
  let ballLoc := Circle.yPos b in
  if paddleLoc <? ballLoc then Movement speed 0
  else if paddleLoc >? ballLoc then Movement (-1 * speed) 0
  else Movement 0 0.

(** ** Ball physics *)

Definition calculateBallVel (ymin ymax impactZone : Q) : M Q :=
  let speed := Constants.ballBaseYSpeed in
  let center := (ymax + ymin) / 2 in
  let distVector := impactZone - center in
  let distance := if distVector <? 0 then -1 * distVector else distVector in
  r <- Math_random ;;
  ret (speed * r + distance / 8).

Definition movingBallState (b : CircleBody) (player cpu : RectBody) : M CircleBody :=
  let canvasWidth := Constants.canvasRight in
  let canvasHeight := Constants.canvasBottom in
  let sideWallSize := Constants.sideBound in
  let topWallSize := Constants.topBound in
  let botWallSize := Constants.bottomBound in
  let playerXleft := Rect.xPos player in
  let playerYtop := Rect.yPos player in
  let playerXright := playerXleft + Rect.xSize player in
  let playerYbottom := playerYtop + Rect.ySize player in
  let cpuXleft := Rect.xPos cpu in
  let cpuYtop := Rect.yPos cpu in
  let cpuXright := cpuXleft + Rect.xSize cpu in
  let cpuYbottom := cpuYtop + Rect.ySize cpu in
  let yPos := Circle.yPos b in
  let xPos := Circle.xPos b in
  let xBounds0 := Circle.xPos b - Circle.radius b in
  let xBounds1 := Circle.xPos b + Circle.radius b in
  let yBounds0 := Circle.yPos b - Circle.radius b in
  let yBounds1 := Circle.yPos b + Circle.radius b in
  let makeBall := fun velX velY score => ball xPos yPos velX velY score in
  if xBounds0 <=? sideWallSize then ret (makeBall 0 0 (Some side_c))
  else if xBounds1 >=? canvasWidth - sideWallSize then ret (ball xPos yPos 0 0 (Some side_p))
  else if ((yBounds0 <=? topWallSize) && (Circle.yVel b <? 0))
          || ((yBounds1 >=? canvasHeight - botWallSize) && (Circle.yVel b >? 0))
  then ret (ball (xPos + Circle.xVel b) (yPos - Circle.yVel b) (Circle.xVel b)
              (-1 * Circle.yVel b) None)
  else if ((playerXleft <=? xBounds0) && (xBounds0 <=? playerXright))
          && (((playerYtop <=? yBounds0) && (yBounds0 <=? playerYbottom))
              || ((playerYtop <=? yBounds1) && (yBounds1 <=? playerYbottom)))
          && (canvasWidth >? xPos)
          && (Circle.xVel b <? 0)
  then
    dy <- calculateBallVel playerYtop playerYbottom yPos ;;
    vy <- calculateBallVel playerYtop playerYbottom yPos ;;
    ret (ball (xPos - Circle.xVel b) (yPos + dy) (-1 * Circle.xVel b) vy None)
  else if ((cpuXleft <=? xBounds1) && (xBounds1 <=? cpuXright))
          && (((cpuYtop <=? yBounds0) && (yBounds0 <=? cpuYbottom))
              || ((cpuYtop <=? yBounds1) && (yBounds1 <=? cpuYbottom)))
          && (canvasWidth / 2 <? xPos)
          && (Circle.xVel b >? 0)
  then
    dy <- calculateBallVel cpuYtop cpuYbottom yPos ;;
    vy <- calculateBallVel cpuYtop cpuYbottom yPos ;;
    ret (ball (xPos - Circle.xVel b) (yPos + dy) (-1 * Circle.xVel b) vy None)
  else ret (ball (xPos + Circle.xVel b) (yPos + Circle.yVel b) (Circle.xVel b)
              (Circle.yVel b) None).

(** ** The reducer *)

Definition createEndState (acc : State) (s : Event) (whoWon : scoreUpdateTracker) : M State :=
  b <- defaultStillBall ;;
  ret (createState
         (playerPaddle (Rect.yPos defaultPlayerPaddleState)
            (Rect.yVel defaultPlayerPaddleState)
            (Text.numeric (St.playerEnergy acc))
            (Rect.ySize defaultPlayerPaddleState))
         (aiPaddle (Rect.yPos defaultAiPaddleState) (Rect.yVel defaultAiPaddleState)
            (Rect.energy (St.paddleTwo acc)) (Rect.ySize defaultAiPaddleState))
         b (St.scoreOne acc) (St.scoreTwo acc) (St.playerEnergy acc) whoWon).

Definition createStandardParseState (acc : State) (s : Event) (energyDrain : Z) : M State :=
  p1 <- makePaddleState playerPaddle (St.paddleOne acc) s (Some (St.ball acc)) ;;
  p2 <- makePaddleState aiPaddle (St.paddleTwo acc)
          (Key (followBall (St.paddleTwo acc) (St.ball acc))) None ;;
  b <- movingBallState (St.ball acc) (St.paddleOne acc) (St.paddleTwo acc) ;;
  ret (createState p1 p2 b (St.scoreOne acc) (St.scoreTwo acc)
         (playerEnergy (Text.numeric (St.playerEnergy acc) - energyDrain)%Z) None).

Definition isSide (t : scoreUpdateTracker) (w : Side) : bool :=
  match t, w with
  | Some side_p, side_p => true
  | Some side_c, side_c => true
  | _, _ => false
  end.

(** The callback of [scan] in [gameObserver]. *)
Definition gameObserver (acc : State) (s : Event) : M State :=
  if (instanceofPaddleGrowth s || instanceofTeleport s)
     && (Text.numeric (St.playerEnergy acc) >? 0)%Z
  then createStandardParseState acc s 1
  else if instanceofPaddleShrink s then
    if (Text.numeric (St.playerEnergy acc) >? 0)%Z then
      p1 <- makePaddleState playerPaddle (St.paddleOne acc) (Key Drain) None ;;
      p2 <- makePaddleState aiPaddle (St.paddleTwo acc) s None ;;
      b <- movingBallState (St.ball acc) (St.paddleOne acc) (St.paddleTwo acc) ;;
      ret (createState p1 p2 b (St.scoreOne acc) (St.scoreTwo acc)
             (playerEnergy (Text.numeric (St.playerEnergy acc) - 1)%Z) None)
    else createStandardParseState acc (Key (Movement 0 0)) 0
  else if isSide (Circle.scoreUpdate (St.ball acc)) side_p then
    b <- defaultBallState1 ;;
    ret (createState
           (playerPaddle (Rect.yPos defaultPlayerPaddleState)
              (Rect.yVel defaultPlayerPaddleState)
              (Text.numeric (St.playerEnergy acc))
              (Rect.ySize defaultPlayerPaddleState))
           (aiPaddle (Rect.yPos defaultAiPaddleState) (Rect.yVel defaultAiPaddleState)
              (Rect.energy (St.paddleTwo acc)) (Rect.ySize defaultAiPaddleState))
           b (changePlayerScore (St.scoreOne acc)) (St.scoreTwo acc)
           (playerEnergy (Text.numeric (St.playerEnergy acc))) None)
  else if isSide (Circle.scoreUpdate (St.ball acc)) side_c then
    b <- defaultBallState2 ;;
    ret (createState
           (playerPaddle (Rect.yPos defaultPlayerPaddleState)
              (Rect.yVel defaultPlayerPaddleState)
              (Text.numeric (St.playerEnergy acc) + 1)%Z
              (Rect.ySize defaultPlayerPaddleState))
           (aiPaddle (Rect.yPos defaultAiPaddleState) (Rect.yVel defaultAiPaddleState)
              (Rect.energy (St.paddleTwo acc)) (Rect.ySize defaultAiPaddleState))
           b (St.scoreOne acc) (changeCpuScore (St.scoreTwo acc))
           (playerEnergy (Text.numeric (St.playerEnergy acc) + 1)%Z) None)
  else if parsesTo (Text.content (St.scoreOne acc)) Constants.winningScore then
    createEndState acc s (Some side_p)
  else if parsesTo (Text.content (St.scoreTwo acc)) Constants.winningScore then
    createEndState acc s (Some side_c)
  else createStandardParseState acc s 0.

(** ** The game loop *)

(** [scan] over the events delivered so far: the last accumulator. *)
Fixpoint scan (acc : State) (evs : list Event) : M State :=
  match evs with
  | [] => ret acc
  | s :: evs' => acc' <- gameObserver acc s ;; scan acc' evs'
  end.

(** The subscription [game]: [updateView] calls [gameOver] on the first
    state that names a winner, and [gameOver] unsubscribes, so the
    remaining events are never folded. *)
Fixpoint game (acc : State) (evs : list Event) : M State :=
  match evs with
  | [] => ret acc
  | s :: evs' =>
      acc' <- gameObserver acc s ;;
      match St.winnerIs acc' with
      | Some _ => ret acc'
      | None => game acc' evs'
      end
  end.

(** [runGame]: the seed is [defaultEverythingState], built once when the
    page loads. *)
Definition runGame (evs : list Event) : M State :=
  s0 <- defaultEverythingState ;;
  game s0 evs.

(** ** Predicates of the specification *)

(** A paddle lies between the walls: [topBound <= yPos] and its lower edge
    is not below the top of the bottom wall. *)
Definition inBounds (r : RectBody) : Prop :=
  Constants.topBound <= Rect.yPos r /\
  Rect.yPos r <= Constants.canvasBottom - Constants.bottomBound - Rect.ySize r.

(** The first test of the reducer: a grow or a teleport that finds energy. *)
Definition abilityFunded (acc : State) (s : Event) : bool :=
  (instanceofPaddleGrowth s || instanceofTeleport s)
  && (Text.numeric (St.playerEnergy acc) >? 0)%Z.

(** The computation [m], started at draw [i], returns a value that
    satisfies [post]. *)
Definition returns {A : Type} (m : M A) (i : nat) (post : A -> Prop) : Prop :=
  exists a j, m i = Some (a, j) /\ post a.

(** The states the running game can hold: the seed, and the outputs of the
    reducer on the mapped events, as long as no winner has been shown (the
    subscription ends there).  The index of the next draw is left free. *)
Inductive reachable : State -> Prop :=
| reachable_seed : forall i s0 j,
    defaultEverythingState i = Some (s0, j) -> reachable s0
| reachable_step : forall acc s i acc' j,
    reachable acc -> St.winnerIs acc = None -> mapped s ->
    gameObserver acc s i = Some (acc', j) -> reachable acc'.

(** What the reducer maintains: the energy label is not negative and
    agrees with the energy of the player's paddle, the AI paddle lies
    between the walls, and the score boards are those of the generators. *)
Definition stateInv (st : State) : Prop :=
  (0 <= Text.numeric (St.playerEnergy st))%Z /\
  Rect.energy (St.paddleOne st) = Text.numeric (St.playerEnergy st) /\
  inBounds (St.paddleTwo st) /\
  St.scoreOne st = playerScore (Text.numeric (St.scoreOne st)) /\
  St.scoreTwo st = aiScore (Text.numeric (St.scoreTwo st)).

(** The ball rests at the centre of the canvas. *)
Definition frozenAtCentre (b : CircleBody) : Prop :=
  Circle.xVel b = 0 /\ Circle.yVel b = 0 /\
  Circle.xPos b == 450 /\ Circle.yPos b == 300.

(** The output [acc'] of a step on [acc] names [w] the winner: the ball
    rests at the centre, the score boards and the energy label are those
    of [acc]. *)
Definition wonBy (acc : State) (w : Side) (acc' : State) : Prop :=
  St.winnerIs acc' = Some w /\
  frozenAtCentre (St.ball acc') /\
  Circle.scoreUpdate (St.ball acc') = None /\
  St.scoreOne acc' = St.scoreOne acc /\
  St.scoreTwo acc' = St.scoreTwo acc /\
  St.playerEnergy acc' = St.playerEnergy acc.

Definition instanceofAbility (s : Event) : bool :=
  instanceofPaddleGrowth s || instanceofTeleport s || instanceofPaddleShrink s.

(** A source of draws for the concrete runs: [Math.random()] returns 0. *)
Definition zeroDraws : nat -> Q := fun _ => 0.

(** A state with both paddles at their default place, for the concrete
    checks. *)
Definition sampleState (b : CircleBody) (score1 score2 energy_ : Z) : State :=
  createState (playerPaddle 255 0 energy_ 90) (aiPaddle 255 0 4%Z 90) b
    (playerScore score1) (aiScore score2) (playerEnergy energy_) None.

(** A rally the player gives away: the down key, then 243 ticks.  The
    paddle leaves for the bottom wall, the ball comes back from the CPU's
    paddle along y = 300, passes, touches the left wall, and the last tick
    counts the point. *)
Definition lostRally : list Event := keyDownArrow :: repeat (Tick 0) 243.

Definition lostRallies (n : nat) : list Event := concat (repeat lostRally n).

End Game.

(** ** The outputs of the reducer, named for the proofs *)

(** The state built by the scoring and the winning branches. *)
Definition resetState (acc : State) (energy_ : Z) (b : CircleBody)
  (sc1 sc2 : TextBody) (label : TextBody) (winner : scoreUpdateTracker) : State :=
  createState
    (playerPaddle (Rect.yPos defaultPlayerPaddleState)
       (Rect.yVel defaultPlayerPaddleState) energy_
       (Rect.ySize defaultPlayerPaddleState))
    (aiPaddle (Rect.yPos defaultAiPaddleState) (Rect.yVel defaultAiPaddleState)
       (Rect.energy (St.paddleTwo acc)) (Rect.ySize defaultAiPaddleState))
    b sc1 sc2 label winner.

(** The ball built by [genericDefaultBall] from the draws [i] and [i+1]. *)
Definition freshBall (random : nat -> Q) (mx my : Q) (i : nat) : CircleBody :=
  ball (Constants.canvasRight / 2) (Constants.canvasBottom / 2)
    (mx * Constants.ballBaseXSpeed)
    (my * Math_round
            (if random i >? (1 # 2)
             then Constants.ballBaseYSpeed * random (S i) / 2
             else - Constants.ballBaseYSpeed * random (S i) / 3))
    None.

(** Exactly one branch of the decision chain produces the output. *)
Inductive branch (random : nat -> Q) (acc : State) (s : Event) (i : nat)
  (acc' : State) (j : nat) : Prop :=
| branch_ability :
    abilityFunded acc s = true ->
    createStandardParseState random acc s 1 i = Some (acc', j) ->
    branch random acc s i acc' j
| branch_shrink : forall size p1 b,
    abilityFunded acc s = false -> s = Key (PaddleShrink size) ->
    (Text.numeric (St.playerEnergy acc) > 0)%Z ->
    makePaddleState playerPaddle (St.paddleOne acc) (Key Drain) None i = Some (p1, i) ->
    movingBallState random (St.ball acc) (St.paddleOne acc) (St.paddleTwo acc) i
    = Some (b, j) ->
    acc' = createState p1
             (aiPaddle (Rect.yPos (St.paddleTwo acc)) (Rect.yVel (St.paddleTwo acc))
                (Rect.energy (St.paddleTwo acc)) (Rect.ySize (St.paddleTwo acc) - size))
             b (St.scoreOne acc) (St.scoreTwo acc)
             (playerEnergy (Text.numeric (St.playerEnergy acc) - 1)%Z) None ->
    branch random acc s i acc' j
| branch_shrink_unfunded : forall size,
    abilityFunded acc s = false -> s = Key (PaddleShrink size) ->
    (Text.numeric (St.playerEnergy acc) <= 0)%Z ->
    createStandardParseState random acc (Key (Movement 0 0)) 0 i = Some (acc', j) ->
    branch random acc s i acc' j
| branch_player_scored :
    abilityFunded acc s = false -> instanceofPaddleShrink s = false ->
    Circle.scoreUpdate (St.ball acc) = Some side_p ->
    acc' = resetState acc (Text.numeric (St.playerEnergy acc))
             (freshBall random (-1) 1 i)
             (changePlayerScore (St.scoreOne acc)) (St.scoreTwo acc)
             (playerEnergy (Text.numeric (St.playerEnergy acc))) None ->
    j = S (S i) ->
    branch random acc s i acc' j
| branch_cpu_scored :
    abilityFunded acc s = false -> instanceofPaddleShrink s = false ->
    Circle.scoreUpdate (St.ball acc) = Some side_c ->
    acc' = resetState acc (Text.numeric (St.playerEnergy acc) + 1)%Z
             (freshBall random 1 1 i)
             (St.scoreOne acc) (changeCpuScore (St.scoreTwo acc))
             (playerEnergy (Text.numeric (St.playerEnergy acc) + 1)%Z) None ->
    j = S (S i) ->
    branch random acc s i acc' j
| branch_player_won :
    abilityFunded acc s = false -> instanceofPaddleShrink s = false ->
    Circle.scoreUpdate (St.ball acc) = None ->
    parsesTo (Text.content (St.scoreOne acc)) Constants.winningScore = true ->
    acc' = resetState acc (Text.numeric (St.playerEnergy acc))
             (freshBall random 0 0 i) (St.scoreOne acc) (St.scoreTwo acc)
             (St.playerEnergy acc) (Some side_p) ->
    j = S (S i) ->
    branch random acc s i acc' j
| branch_cpu_won :
    abilityFunded acc s = false -> instanceofPaddleShrink s = false ->
    Circle.scoreUpdate (St.ball acc) = None ->
    parsesTo (Text.content (St.scoreOne acc)) Constants.winningScore = false ->
    parsesTo (Text.content (St.scoreTwo acc)) Constants.winningScore = true ->
    acc' = resetState acc (Text.numeric (St.playerEnergy acc))
             (freshBall random 0 0 i) (St.scoreOne acc) (St.scoreTwo acc)
             (St.playerEnergy acc) (Some side_c) ->
    j = S (S i) ->
    branch random acc s i acc' j
| branch_play :
    abilityFunded acc s = false -> instanceofPaddleShrink s = false ->
    Circle.scoreUpdate (St.ball acc) = None ->
    parsesTo (Text.content (St.scoreOne acc)) Constants.winningScore = false ->
    parsesTo (Text.content (St.scoreTwo acc)) Constants.winningScore = false ->
    createStandardParseState random acc s 0 i = Some (acc', j) ->
    branch random acc s i acc' j.

(** ** Further predicates *)

(** [Math.random()] returns a number in [0, 1). *)
Definition validDraws (random : nat -> Q) : Prop :=
  forall n, 0 <= random n /\ random n < 1.

(** The integers that a [number] holds exactly and writes with all their
    digits ([Number.MAX_SAFE_INTEGER] is 2^53 - 1); outside this range
    [toString] and the increment of a counter are not those of the code. *)
Definition safeInteger (n : Z) : Prop :=
  (- 9007199254740991 <= n <= 9007199254740991)%Z.

(** The vertical centre of a paddle, as [followBall] computes it. *)
Definition paddleCentre (r : RectBody) : Q := Rect.yPos r + Rect.ySize r / 2.

(** The lowest position of a paddle: the top of the bottom wall less its
    height. *)
Definition lowest (r : RectBody) : Q :=
  Constants.canvasBottom - Constants.bottomBound - Rect.ySize r.

(** An event that takes one unit of energy: an ability that finds the
    energy label positive. *)
Definition usesEnergy (acc : State) (s : Event) : bool :=
  instanceofAbility s && (Text.numeric (St.playerEnergy acc) >? 0)%Z.

(** An event for which the reducer counts the point of side [w]: no
    ability branch is taken and the ball carries the marker of [w]. *)
Definition countsPoint (acc : State) (s : Event) (w : Side) : bool :=
  negb (abilityFunded acc s) && negb (instanceofPaddleShrink s)
  && isSide (Circle.scoreUpdate (St.ball acc)) w.

(** Every body of the state is one its generator builds; the energy and
    the scores are not negative, the player's paddle is at least, and the
    AI's at most, as tall as the default, and the AI's energy is the
    starting energy. *)
Definition builtState (st : State) : Prop :=
  exists y1 v1 h1 y2 v2 h2 n1 n2 e,
    St.paddleOne st = playerPaddle y1 v1 e h1 /\
    St.paddleTwo st = aiPaddle y2 v2 Constants.startingEnergy h2 /\
    St.scoreOne st = playerScore n1 /\
    St.scoreTwo st = aiScore n2 /\
    St.playerEnergy st = playerEnergy e /\
    (0 <= e)%Z /\ (0 <= n1)%Z /\ (0 <= n2)%Z /\
    Constants.paddleYWidth <= h1 /\ h2 <= Constants.paddleYWidth.

(** A ball in play: of the standard radius, its centre on the grid of the
    horizontal speed and between the two scoring positions; marked, it is
    at rest on its wall, unmarked it moves at the horizontal speed. *)
Definition courtBall (b : CircleBody) : Prop :=
  Circle.radius b = Constants.ballRadius /\
  (exists k : Z, Circle.xPos b == inject_Z (5 * k)) /\
  20 <= Circle.xPos b /\ Circle.xPos b <= 880 /\
  match Circle.scoreUpdate b with
  | Some side_c =>
      Circle.xPos b <= 20
      /\ b = ball (Circle.xPos b) (Circle.yPos b) 0 0 (Some side_c)
  | Some side_p =>
      880 <= Circle.xPos b
      /\ b = ball (Circle.xPos b) (Circle.yPos b) 0 0 (Some side_p)
  | None => Circle.xVel b == 5 \/ Circle.xVel b == -5
  end.

(** The ball of a state: in play while no winner is named, at rest at the
    centre once one is. *)
Definition ballInv (st : State) : Prop :=
  match St.winnerIs st with
  | None => courtBall (St.ball st)
  | Some _ =>
      frozenAtCentre (St.ball st) /\ Circle.scoreUpdate (St.ball st) = None
      /\ Circle.radius (St.ball st) = Constants.ballRadius
  end.

(** ** The input mapper *)

(** [type Event = "keydown" | "keyup"], and what the key observers read of
    a [KeyboardEvent]. *)
Module Kbd.
Inductive EventName : Type := keydown | keyup.
Record KeyboardEvent : Type := mk { type : EventName; code : string }.
End Kbd.

(** The key codes of [Constants]. *)
Module Keys.
Definition upKey : string := "KeyW".
Definition downKey : string := "KeyS".
Definition specialKey_SizeUp : string := "KeyE".
Definition specialKey_Teleport : string := "KeyR".
Definition specialKey_ShrinkRay : string := "KeyQ".
End Keys.

(** The observers, as what each emits for one event of the document. *)
Module Input.

(** [fromEvent(document, event)] delivers the events of that name. *)
Definition fromEvent (event : Kbd.EventName) (e : Kbd.KeyboardEvent)
  : option Kbd.KeyboardEvent :=
  match event, Kbd.type e with
  | Kbd.keydown, Kbd.keydown => Some e
  | Kbd.keyup, Kbd.keyup => Some e
  | _, _ => None
  end.

Definition keyCheck (event : Kbd.EventName) (key : string) (action : Actions)
  (e : Kbd.KeyboardEvent) : option Event :=
  match fromEvent event e with
  | Some e' => if String.eqb (Kbd.code e') key then Some (Key action) else None
  | None => None
  end.

Definition movekeyCheck (key : string) (multiplier : Q)
  : Kbd.KeyboardEvent -> option Event :=
  keyCheck Kbd.keydown key (Movement (multiplier * Constants.paddleSpeed) 0).

Definition keyUpArrow := movekeyCheck Keys.upKey (-1).
Definition keyDownArrow := movekeyCheck Keys.downKey 1.
Definition keyE :=
  keyCheck Kbd.keydown Keys.specialKey_SizeUp
    (PaddleGrowth Constants.paddleGrowthAbility).
Definition keyQ :=
  keyCheck Kbd.keydown Keys.specialKey_ShrinkRay
    (PaddleShrink Constants.paddleShrinkAbility).
Definition keyR := keyCheck Kbd.keydown Keys.specialKey_Teleport Teleport.

Definition keyRelease (e : Kbd.KeyboardEvent) : option Event :=
  match fromEvent Kbd.keyup e with
  | Some e' =>
      match Kbd.type e' with
      | Kbd.keyup => Some (Key (Movement 0 0))
      | Kbd.keydown => None
      end
  | None => None
  end.

Definition emitted (o : option Event) : list Event :=
  match o with Some s => [s] | None => [] end.

(** [merge(keyUpArrow, keyDownArrow, keyE, keyR, keyQ, keyRelease)]: what
    the merged observers emit for one event, in the order of the merge. *)
Definition keyPress (e : Kbd.KeyboardEvent) : list Event :=
  (emitted (keyUpArrow e) ++ emitted (keyDownArrow e) ++ emitted (keyE e)
   ++ emitted (keyR e) ++ emitted (keyQ e) ++ emitted (keyRelease e))%list.

End Input.

(** What the host delivers: a firing of the ticker or a keyboard event. *)
Inductive HostEvent : Type :=
| Timer (n : nat)
| Keyboard (e : Kbd.KeyboardEvent).

(** [ticker.pipe(merge(keyPress))]: the events the reducer receives, in the
    order of arrival. *)
Definition mergedStream (hs : list HostEvent) : list Event :=
  flat_map (fun h => match h with
                     | Timer n => [Tick n]
                     | Keyboard e => Input.keyPress e
                     end) hs.

(** ** The view *)

(** The part of the DOM that the drawing functions use.  An element has a
    tag, its attributes in the order they were first set, and a text.  The
    document is the list of its elements in tree order, split after the
    last child of the canvas: [svg.appendChild] adds there, and
    [document.getElementById] searches the whole list.  A reference to an
    element is its index in the list. *)
Module Dom.

Record Element : Type := mkElement {
  tagName : string;
  attributes : list (string * string);
  textContent : string
}.

Fixpoint setAttr (name value : string) (attrs : list (string * string))
  : list (string * string) :=
  match attrs with
  | [] => [(name, value)]
  | (n, v) :: rest =>
      if String.eqb n name then (n, value) :: rest
      else (n, v) :: setAttr name value rest
  end.

Fixpoint getAttr (name : string) (attrs : list (string * string))
  : option string :=
  match attrs with
  | [] => None
  | (n, v) :: rest => if String.eqb n name then Some v else getAttr name rest
  end.

Definition setAttribute (name value : string) (el : Element) : Element :=
  mkElement (tagName el) (setAttr name value (attributes el)) (textContent el).

Definition getAttribute (name : string) (el : Element) : option string :=
  getAttr name (attributes el).

Definition setTextContent (t : string) (el : Element) : Element :=
  mkElement (tagName el) (attributes el) t.

Definition createElementNS (tag : string) : Element := mkElement tag [] "".

Record Document : Type := mkDocument {
  upToCanvas : list Element;
  afterCanvas : list Element
}.

Definition elements (d : Document) : list Element :=
  (upToCanvas d ++ afterCanvas d)%list.

Definition hasId (id : string) (el : Element) : bool :=
  match getAttribute "id" el with
  | Some v => String.eqb v id
  | None => false
  end.

Fixpoint indexOfId (id : string) (l : list Element) : option nat :=
  match l with
  | [] => None
  | el :: rest =>
      if hasId id el then Some 0%nat else option_map S (indexOfId id rest)
  end.

(** The first element in tree order with this id; no element for the
    empty id. *)
Definition getElementById (id : string) (d : Document) : option nat :=
  if String.eqb id "" then None else indexOfId id (elements d).

(** The new last child of the canvas, and the reference to it. *)
Definition appendChild (el : Element) (d : Document) : Document * nat :=
  (mkDocument (upToCanvas d ++ [el])%list (afterCanvas d),
   length (upToCanvas d)).

Fixpoint modifyAt (n : nat) (f : Element -> Element) (l : list Element)
  : list Element :=
  match l, n with
  | [], _ => []
  | el :: rest, O => f el :: rest
  | el :: rest, S n' => el :: modifyAt n' f rest
  end.

(** A mutation through a reference. *)
Definition mutate (n : nat) (f : Element -> Element) (d : Document) : Document :=
  if (n <? length (upToCanvas d))%nat
  then mkDocument (modifyAt n f (upToCanvas d)) (afterCanvas d)
  else mkDocument (upToCanvas d)
         (modifyAt (n - length (upToCanvas d)) f (afterCanvas d)).

(** The element that [getElementById] refers to. *)
Definition getElement (id : string) (d : Document) : option Element :=
  match getElementById id d with
  | Some n => nth_error (elements d) n
  | None => None
  end.

End Dom.

(** A property value handed to [changeAttributes]: a number or a string. *)
Inductive Property : Type :=
| Num (q : Q)
| Str (s : string).

Section Render.

(** [String(x)] on a number. *)
Variable numberToString : Q -> string.

(** What [gameOver] does to the document. *)
Variable gameOver : Side -> Dom.Document -> Dom.Document.

Definition String_ (v : Property) : string :=
  match v with
  | Num q => numberToString q
  | Str s => s
  end.

(** [for (const i in properties) elem.setAttribute(i, String(properties[i]))],
    the properties in the order they are written. *)
Definition changeAttributes (elem : Dom.Element)
  (properties : list (string * Property)) : Dom.Element :=
  fold_left (fun el kv => Dom.setAttribute (fst kv) (String_ (snd kv)) el)
    properties elem.

Definition drawRectangle (b : RectBody) (d : Dom.Document) : Dom.Document :=
  let create (d : Dom.Document) : Dom.Document * nat :=
    let elem := Dom.createElementNS "rect" in
    let elem :=
      changeAttributes elem
        [("id", Str (Rect.id b));
         ("x", Num (Rect.xPos b));
         ("y", Num (Rect.yPos b));
         ("width", Num (Rect.xSize b));
         ("height", Num (Rect.ySize b));
         ("fill", Str (Rect.colour b))] in
    Dom.appendChild elem d in
  let '(d, elem) :=
    match Dom.getElementById (Rect.id b) d with
    | Some n => (d, n)
    | None => create d
    end in
  Dom.mutate elem
    (fun el =>
       changeAttributes el
         [("x", Num (Rect.xPos b));
          ("y", Num (Rect.yPos b));
          ("width", Num (Rect.xSize b));
          ("height", Num (Rect.ySize b));
          ("fill", Str (Rect.colour b))]) d.

Definition drawCircle (b : CircleBody) (d : Dom.Document) : Dom.Document :=
  let create (d : Dom.Document) : Dom.Document * nat :=
    let elem := Dom.createElementNS "circle" in
    let elem :=
      changeAttributes elem
        [("id", Str (Circle.id b));
         ("cx", Num (Circle.xPos b));
         ("cy", Num (Circle.yPos b));
         ("r", Num (Circle.radius b));
         ("fill", Str (Circle.colourOveride b))] in
    Dom.appendChild elem d in
  let '(d, elem) :=
    match Dom.getElementById (Circle.id b) d with
    | Some n => (d, n)
    | None => create d
    end in
  Dom.mutate elem
    (fun el =>
       changeAttributes el
         [("cx", Num (Circle.xPos b));
          ("cy", Num (Circle.yPos b));
          ("r", Num (Circle.radius b));
          ("fill", Str (Circle.colourOveride b))]) d.

Definition drawText (b : TextBody) (d : Dom.Document) : Dom.Document :=
  let create (d : Dom.Document) : Dom.Document * nat :=
    let elem := Dom.createElementNS "text" in
    let elem :=
      changeAttributes elem
        [("id", Str (Text.id b));
         ("x", Num (Text.xPos b));
         ("y", Num (Text.yPos b));
         ("font-size", Num (Text.size b));
         ("fill", Str (Text.colour b))] in
    let elem := Dom.setTextContent (Text.content b) elem in
    Dom.appendChild elem d in
  let '(d, elem) :=
    match Dom.getElementById (Text.id b) d with
    | Some n => (d, n)
    | None => create d
    end in
  Dom.mutate elem
    (fun el =>
       Dom.setTextContent (Text.content b)
         (changeAttributes el
            [("x", Num (Text.xPos b));
             ("y", Num (Text.yPos b));
             ("font-size", Num (Text.size b));
             ("fill", Str (Text.colour b))])) d.

Definition updateView (s : State) (d : Dom.Document) : Dom.Document :=
  let d := drawRectangle (St.paddleOne s) d in
  let d := drawRectangle (St.paddleTwo s) d in
  let d := drawCircle (St.ball s) d in
  let d := drawText (St.scoreOne s) d in
  let d := drawText (St.scoreTwo s) d in
  let d := drawText (St.playerEnergy s) d in
  match St.winnerIs s with
  | Some w => gameOver w d
  | None => d
  end.

(** An element shows a body when its attributes are the strings of the
    body's values. *)
Definition showsRect (b : RectBody) (el : Dom.Element) : Prop :=
  Dom.getAttribute "x" el = Some (numberToString (Rect.xPos b)) /\
  Dom.getAttribute "y" el = Some (numberToString (Rect.yPos b)) /\
  Dom.getAttribute "width" el = Some (numberToString (Rect.xSize b)) /\
  Dom.getAttribute "height" el = Some (numberToString (Rect.ySize b)) /\
  Dom.getAttribute "fill" el = Some (Rect.colour b).

Definition showsCircle (b : CircleBody) (el : Dom.Element) : Prop :=
  Dom.getAttribute "cx" el = Some (numberToString (Circle.xPos b)) /\
  Dom.getAttribute "cy" el = Some (numberToString (Circle.yPos b)) /\
  Dom.getAttribute "r" el = Some (numberToString (Circle.radius b)) /\
  Dom.getAttribute "fill" el = Some (Circle.colourOveride b).

Definition showsText (b : TextBody) (el : Dom.Element) : Prop :=
  Dom.getAttribute "x" el = Some (numberToString (Text.xPos b)) /\
  Dom.getAttribute "y" el = Some (numberToString (Text.yPos b)) /\
  Dom.getAttribute "font-size" el = Some (numberToString (Text.size b)) /\
  Dom.getAttribute "fill" el = Some (Text.colour b) /\
  Dom.textContent el = Text.content b.

Definition viewShows (s : State) (d : Dom.Document) : Prop :=
  (exists el, Dom.getElement (Rect.id (St.paddleOne s)) d = Some el
              /\ showsRect (St.paddleOne s) el) /\
  (exists el, Dom.getElement (Rect.id (St.paddleTwo s)) d = Some el
              /\ showsRect (St.paddleTwo s) el) /\
  (exists el, Dom.getElement (Circle.id (St.ball s)) d = Some el
              /\ showsCircle (St.ball s) el) /\
  (exists el, Dom.getElement (Text.id (St.scoreOne s)) d = Some el
              /\ showsText (St.scoreOne s) el) /\
  (exists el, Dom.getElement (Text.id (St.scoreTwo s)) d = Some el
              /\ showsText (St.scoreTwo s) el) /\
  (exists el, Dom.getElement (Text.id (St.playerEnergy s)) d = Some el
              /\ showsText (St.playerEnergy s) el).

End Render.

(** The ids under which a state is drawn. *)
Definition drawnIds (s : State) : list string :=
  [Rect.id (St.paddleOne s); Rect.id (St.paddleTwo s); Circle.id (St.ball s);
   Text.id (St.scoreOne s); Text.id (St.scoreTwo s);
   Text.id (St.playerEnergy s)].

Fixpoint distinct (l : list string) : bool :=
  match l with
  | [] => true
  | x :: rest => negb (existsb (String.eqb x) rest) && distinct rest
  end.

(** The six ids differ from one another and none is empty. *)
Definition distinctIds (s : State) : bool :=
  distinct (drawnIds s) && negb (existsb (String.eqb "") (drawnIds s)).

(** *** The drawing functions in closed form *)

(** The first element with the id. *)
Fixpoint findId (id : string) (l : list Dom.Element) : option Dom.Element :=
  match l with
  | [] => None
  | el :: rest => if Dom.hasId id el then Some el else findId id rest
  end.

(** [f] on the first element with the id. *)
Fixpoint upd (id : string) (f : Dom.Element -> Dom.Element)
  (l : list Dom.Element) : list Dom.Element :=
  match l with
  | [] => []
  | el :: rest => if Dom.hasId id el then f el :: rest else el :: upd id f rest
  end.

Definition updDoc (id : string) (f : Dom.Element -> Dom.Element)
  (d : Dom.Document) : Dom.Document :=
  match findId id (Dom.upToCanvas d) with
  | Some _ => Dom.mkDocument (upd id f (Dom.upToCanvas d)) (Dom.afterCanvas d)
  | None => Dom.mkDocument (Dom.upToCanvas d) (upd id f (Dom.afterCanvas d))
  end.

Definition setAll (ps : list (string * string)) (attrs : list (string * string))
  : list (string * string) :=
  fold_left (fun a kv => Dom.setAttr (fst kv) (snd kv) a) ps attrs.

(** The attributes [ps] set in turn, then the text if one is given. *)
Definition applyProps (ps : list (string * string)) (t : option string)
  (el : Dom.Element) : Dom.Element :=
  Dom.mkElement (Dom.tagName el) (setAll ps (Dom.attributes el))
    (match t with Some t' => t' | None => Dom.textContent el end).

(** Update the element with the id by [ps] and [t], or add the element
    [tag] with the id and [ps] and [t]. *)
Definition drawWith (tag id : string) (ps : list (string * string))
  (t : option string) (d : Dom.Document) : Dom.Document :=
  match (if String.eqb id "" then None else findId id (Dom.elements d)) with
  | Some _ => updDoc id (applyProps ps t) d
  | None =>
      Dom.mkDocument
        (Dom.upToCanvas d
         ++ [applyProps ps t
               (applyProps (("id", id) :: ps) t (Dom.createElementNS tag))])%list
        (Dom.afterCanvas d)
  end.

Definition rectProps (numberToString : Q -> string) (b : RectBody)
  : list (string * string) :=
  [("x", numberToString (Rect.xPos b)); ("y", numberToString (Rect.yPos b));
   ("width", numberToString (Rect.xSize b));
   ("height", numberToString (Rect.ySize b)); ("fill", Rect.colour b)].

Definition circleProps (numberToString : Q -> string) (b : CircleBody)
  : list (string * string) :=
  [("cx", numberToString (Circle.xPos b)); ("cy", numberToString (Circle.yPos b));
   ("r", numberToString (Circle.radius b)); ("fill", Circle.colourOveride b)].

Definition textProps (numberToString : Q -> string) (b : TextBody)
  : list (string * string) :=
  [("x", numberToString (Text.xPos b)); ("y", numberToString (Text.yPos b));
   ("font-size", numberToString (Text.size b)); ("fill", Text.colour b)].

(** The update list of a drawing function: the keys are distinct and none
    is the id. *)
Definition goodProps (ps : list (string * string)) : Prop :=
  NoDup (map fst ps) /\ ~ In "id" (map fst ps).

(** One call of a drawing function: the tag, the id, the update list and
    the text. *)
Record Draw : Type := mkDraw {
  dTag : string;
  dId : string;
  dProps : list (string * string);
  dText : option string
}.

Definition runDraw (op : Draw) (d : Dom.Document) : Dom.Document :=
  drawWith (dTag op) (dId op) (dProps op) (dText op) d.

Definition runDraws (ops : list Draw) (d : Dom.Document) : Dom.Document :=
  fold_left (fun d' op => runDraw op d') ops d.

Definition rectDraw (numberToString : Q -> string) (b : RectBody) : Draw :=
  mkDraw "rect" (Rect.id b) (rectProps numberToString b) None.

Definition circleDraw (numberToString : Q -> string) (b : CircleBody) : Draw :=
  mkDraw "circle" (Circle.id b) (circleProps numberToString b) None.

Definition textDraw (numberToString : Q -> string) (b : TextBody) : Draw :=
  mkDraw "text" (Text.id b) (textProps numberToString b) (Some (Text.content b)).

Definition stateDraws (numberToString : Q -> string) (s : State) : list Draw :=
  [rectDraw numberToString (St.paddleOne s);
   rectDraw numberToString (St.paddleTwo s);
   circleDraw numberToString (St.ball s);
   textDraw numberToString (St.scoreOne s);
   textDraw numberToString (St.scoreTwo s);
   textDraw numberToString (St.playerEnergy s)].

(** A mutation that leaves the id of an element as it is. *)
Definition keepsIds (f : Dom.Element -> Dom.Element) : Prop :=
  forall i el, Dom.hasId i (f el) = Dom.hasId i el.

(** The element that a drawing function adds when none has the id. *)
Definition created (op : Draw) : Dom.Element :=
  applyProps (dProps op) (dText op)
    (applyProps (("id", dId op) :: dProps op) (dText op)
       (Dom.createElementNS (dTag op))).

Definition goodDraw (op : Draw) : Prop :=
  goodProps (dProps op) /\ dId op <> "".

(** * Properties *)

(** ** Boolean comparisons *)

Lemma Qltb_true (x y : Q) : (x <? y) = true <-> x < y.
Proof. unfold Qltb, Qlt. apply Z.ltb_lt. Qed.

Lemma Qltb_false (x y : Q) : (x <? y) = false <-> y <= x.
Proof. unfold Qltb, Qle. now rewrite Z.ltb_ge. Qed.

Lemma Qleb_true (x y : Q) : (x <=? y) = true <-> x <= y.
Proof. apply Qle_bool_iff. Qed.

Lemma Qleb_false (x y : Q) : (x <=? y) = false <-> y < x.
Proof. unfold Qle_bool, Qlt. now rewrite Z.leb_gt. Qed.

(** Split on the first comparison the goal branches on. *)
Ltac split_cmp :=
  match goal with
  | |- context [Qltb ?a ?b] =>
      let E := fresh "E" in
      destruct (Qltb a b) eqn:E;
      [apply Qltb_true in E | apply Qltb_false in E]
  | |- context [Qle_bool ?a ?b] =>
      let E := fresh "E" in
      destruct (Qle_bool a b) eqn:E;
      [apply Qleb_true in E | apply Qleb_false in E]
  end.

Ltac unfold_constants :=
  unfold Constants.topBound, Constants.bottomBound, Constants.sideBound,
    Constants.canvasBottom, Constants.canvasRight, Constants.paddleXWidth,
    Constants.paddleYWidth, Constants.ballRadius, Constants.ballBaseXSpeed,
    Constants.ballBaseYSpeed, Constants.paddleSpeed, Constants.cpuCheating,
    Constants.paddleGrowthAbility, Constants.paddleShrinkAbility in *.

(** ** Scores are read back from their text *)

Example toString_10 : toString 10 = "10".
Proof. reflexivity. Qed.

Example parseInt_7 : parseInt "7" = Some 7%Z.
Proof. reflexivity. Qed.

Example parseInt_prefix : parseInt "12px" = Some 12%Z.
Proof. reflexivity. Qed.

Example parseInt_NaN : parseInt "Rage: 4" = None.
Proof. reflexivity. Qed.

Example Math_round_half_up : Math_round (5 # 2) = 3 /\ Math_round (- (5 # 2)) = -2.
Proof. split; reflexivity. Qed.

Lemma parseDigits_acc (d : Decimal.uint) (acc : positive) :
  parseDigits (NilEmpty.string_of_uint d) (Some (Zpos acc))
  = Some (Zpos (Pos.of_uint_acc d acc)).
Proof.
  revert acc. induction d; intros acc;
    cbn [NilEmpty.string_of_uint parseDigits Pos.of_uint_acc];
    try reflexivity;
    match goal with
    | |- context [digitValue ?ch] =>
        let v := eval vm_compute in (digitValue ch) in
        change (digitValue ch) with v
    end; cbv iota;
    rewrite <- IHd; repeat f_equal; lia.
Qed.

Lemma parseDigits_zero (d : Decimal.uint) :
  parseDigits (NilEmpty.string_of_uint d) (Some 0%Z)
  = Some (Z.of_N (Pos.of_uint d)).
Proof.
  induction d; cbn [NilEmpty.string_of_uint parseDigits Pos.of_uint];
    try reflexivity;
    match goal with
    | |- context [digitValue ?ch] =>
        let v := eval vm_compute in (digitValue ch) in
        change (digitValue ch) with v
    end; cbv iota; try exact IHd;
    match goal with
    | |- parseDigits _ (Some ?z) = _ =>
        let v := eval vm_compute in z in change z with v
    end; apply parseDigits_acc.
Qed.

Lemma parseDigits_none (d : Decimal.uint) :
  d <> Decimal.Nil ->
  parseDigits (NilEmpty.string_of_uint d) None
  = parseDigits (NilEmpty.string_of_uint d) (Some 0%Z).
Proof. destruct d; [congruence | reflexivity ..]. Qed.

Lemma parseInt_unsigned (d : Decimal.uint) :
  d <> Decimal.Nil ->
  parseInt (NilEmpty.string_of_uint d) = Some (Z.of_N (Pos.of_uint d)).
Proof.
  intros Hd. rewrite <- parseDigits_zero, <- parseDigits_none by assumption.
  destruct d; [congruence | reflexivity ..].
Qed.

(** [parseInt(n.toString())] is [n]. *)
Lemma parseInt_toString (z : Z) : parseInt (toString z) = Some z.
Proof.
  destruct z as [|q|q]; [reflexivity | |].
  - unfold toString. cbn [Z.to_int NilZero.string_of_int].
    pose proof (DecimalPos.Unsigned.to_uint_nonnil q) as Hn.
    assert (NilZero.string_of_uint (Pos.to_uint q)
            = NilEmpty.string_of_uint (Pos.to_uint q)) as ->
      by (destruct (Pos.to_uint q); [congruence | reflexivity ..]).
    rewrite parseInt_unsigned by assumption.
    now rewrite DecimalPos.Unsigned.of_to.
  - unfold toString. cbn [Z.to_int NilZero.string_of_int].
    pose proof (DecimalPos.Unsigned.to_uint_nonnil q) as Hn.
    assert (NilZero.string_of_uint (Pos.to_uint q)
            = NilEmpty.string_of_uint (Pos.to_uint q)) as ->
      by (destruct (Pos.to_uint q); [congruence | reflexivity ..]).
    unfold parseInt.
    rewrite parseDigits_none, parseDigits_zero by assumption.
    now rewrite DecimalPos.Unsigned.of_to.
Qed.

Lemma parsesTo_toString (n k : Z) :
  parsesTo (toString n) k = (n =? k)%Z.
Proof. unfold parsesTo. now rewrite parseInt_toString. Qed.

(** ** Paddle physics *)

Section Paddle.

Variables (name : string) (xPosition : Q) (colouring : Z -> string) (width : Q).

Lemma movingPaddleState_energy (paddle : RectBody) (vel : Q) :
  Rect.energy (movingPaddleState (genericPaddle name xPosition colouring width) paddle vel) = Rect.energy paddle.
Proof.
  unfold movingPaddleState.
  repeat match goal with |- context [if ?b then _ else _] => destruct b end;
    reflexivity.
Qed.

Example paddle_on_top_wall_stays :
  movingPaddleState playerPaddle (playerPaddle 10 0 4%Z 90) (-5)
  = playerPaddle 10 0 4%Z 90.
Proof. reflexivity. Qed.

Example paddle_moves_freely :
  Rect.yPos (movingPaddleState playerPaddle (playerPaddle 255 0 4%Z 90) 5) == 260.
Proof. reflexivity. Qed.

(** A move keeps a paddle that lies between the walls between the walls. *)
Lemma movingPaddleState_inBounds (paddle : RectBody) (vel : Q) :
  inBounds paddle -> inBounds (movingPaddleState (genericPaddle name xPosition colouring width) paddle vel).
Proof.
  unfold inBounds, movingPaddleState. intros [Ht Hb].
  repeat split_cmp; cbn [andb orb negb]; cbn; unfold_constants; split; lra.
Qed.




End Paddle.

(** ** The computations return *)

Ltac split_if :=
  match goal with
  | |- context [if ?b then _ else _] => destruct b eqn:?
  end.

Lemma makePaddleState_with_ball (person : paddleGenerator) (prev : RectBody)
  (s : Event) (b : CircleBody) (i : nat) :
  exists r, makePaddleState person prev s (Some b) i = Some (r, i).
Proof.
  destruct s as [n|[y x|size| |size|]]; unfold makePaddleState;
    try split_if; eexists; reflexivity.
Qed.

Lemma followBall_moves (paddle : RectBody) (b : CircleBody) :
  exists vel, followBall paddle b = Movement vel 0.
Proof.
  unfold followBall. repeat split_if; eexists; reflexivity.
Qed.

Lemma movingBallState_total (random : nat -> Q) (b : CircleBody)
  (player cpu : RectBody) (i : nat) :
  exists b' j, movingBallState random b player cpu i = Some (b', j).
Proof.
  unfold movingBallState. repeat split_if; eexists; eexists; reflexivity.
Qed.

Lemma genericDefaultBall_returns (random : nat -> Q) (mx my : Q) (i : nat) :
  genericDefaultBall random mx my i
  = Some (ball (Constants.canvasRight / 2) (Constants.canvasBottom / 2)
            (mx * Constants.ballBaseXSpeed)
            (my * Math_round
                    (if random i >? (1 # 2)
                     then Constants.ballBaseYSpeed * random (S i) / 2
                     else - Constants.ballBaseYSpeed * random (S i) / 3))
            None,
          S (S i)).
Proof. reflexivity. Qed.

(** The step that moves everything: what it is made of. *)
Lemma createStandardParseState_returns (random : nat -> Q) (acc : State)
  (s : Event) (energyDrain : Z) (i : nat) :
  exists p1 vel b j,
    makePaddleState playerPaddle (St.paddleOne acc) s (Some (St.ball acc)) i
    = Some (p1, i) /\
    followBall (St.paddleTwo acc) (St.ball acc) = Movement vel 0 /\
    movingBallState random (St.ball acc) (St.paddleOne acc) (St.paddleTwo acc) i
    = Some (b, j) /\
    createStandardParseState random acc s energyDrain i
    = Some (createState p1 (movingPaddleState aiPaddle (St.paddleTwo acc) vel) b
              (St.scoreOne acc) (St.scoreTwo acc)
              (playerEnergy (Text.numeric (St.playerEnergy acc) - energyDrain)%Z)
              None, j).
Proof.
  destruct (makePaddleState_with_ball playerPaddle (St.paddleOne acc) s (St.ball acc) i)
    as [p1 Hp1].
  destruct (followBall_moves (St.paddleTwo acc) (St.ball acc)) as [vel Hvel].
  destruct (movingBallState_total random (St.ball acc) (St.paddleOne acc)
              (St.paddleTwo acc) i) as [b [j Hb]].
  exists p1, vel, b, j. repeat split; try assumption.
  unfold createStandardParseState, bind. rewrite Hp1, Hvel.
  unfold makePaddleState, ret. now rewrite Hb.
Qed.

(** The shrink that finds energy: what it is made of. *)
Lemma shrink_step_returns (random : nat -> Q) (acc : State) (size : Q) (i : nat) :
  (Text.numeric (St.playerEnergy acc) >? 0)%Z = true ->
  exists p1 b j,
    makePaddleState playerPaddle (St.paddleOne acc) (Key Drain) None i = Some (p1, i) /\
    movingBallState random (St.ball acc) (St.paddleOne acc) (St.paddleTwo acc) i
    = Some (b, j) /\
    gameObserver random acc (Key (PaddleShrink size)) i
    = Some (createState p1
              (aiPaddle (Rect.yPos (St.paddleTwo acc)) (Rect.yVel (St.paddleTwo acc))
                 (Rect.energy (St.paddleTwo acc)) (Rect.ySize (St.paddleTwo acc) - size))
              b (St.scoreOne acc) (St.scoreTwo acc)
              (playerEnergy (Text.numeric (St.playerEnergy acc) - 1)%Z) None, j).
Proof.
  intros He.
  destruct (movingBallState_total random (St.ball acc) (St.paddleOne acc)
              (St.paddleTwo acc) i) as [b [j Hb]].
  assert (exists p1, makePaddleState playerPaddle (St.paddleOne acc) (Key Drain) None i
                     = Some (p1, i)) as [p1 Hp1]
    by (unfold makePaddleState; split_if; eexists; reflexivity).
  exists p1, b, j. repeat split; try assumption.
  unfold gameObserver. cbn [instanceofPaddleGrowth instanceofTeleport
                            instanceofPaddleShrink orb andb].
  rewrite He. unfold bind at 1. rewrite Hp1.
  unfold bind at 1. unfold makePaddleState at 1. unfold ret at 1.
  unfold bind. now rewrite Hb.
Qed.

(** The reducer returns a state on every state and every event: no
    property of [undefined] is read. *)
Lemma gameObserver_total (random : nat -> Q) (acc : State) (s : Event) (i : nat) :
  exists acc' j, gameObserver random acc s i = Some (acc', j).
Proof.
  unfold gameObserver.
  destruct (abilityFunded acc s) eqn:Ha; unfold abilityFunded in Ha; rewrite Ha.
  { destruct (createStandardParseState_returns random acc s 1 i)
      as (p1 & vel & b & j & _ & _ & _ & H). eauto. }
  destruct (instanceofPaddleShrink s) eqn:Hs.
  { destruct s as [n|[y x|size| |size|]]; try discriminate Hs.
    destruct (Text.numeric (St.playerEnergy acc) >? 0)%Z eqn:He.
    - destruct (shrink_step_returns random acc size i He)
        as (p1 & b & j & _ & _ & H).
      unfold gameObserver in H. cbn [instanceofPaddleGrowth instanceofTeleport
                            instanceofPaddleShrink orb andb] in H.
      rewrite He in H. eauto.
    - destruct (createStandardParseState_returns random acc (Key (Movement 0 0)) 0 i)
        as (p1 & vel & b & j & _ & _ & _ & H). eauto. }
  repeat split_if;
    try (unfold createEndState, defaultBallState1, defaultBallState2,
           defaultStillBall, bind;
         rewrite genericDefaultBall_returns; eexists; eexists; reflexivity).
  destruct (createStandardParseState_returns random acc s 0 i)
    as (p1 & vel & b & j & _ & _ & _ & H). eauto.
Qed.

(** ** The paddle under the actions *)



(** C10: a teleport that finds energy returns a paddle whose vertical
    position is the ball's vertical position, whose vertical velocity is the
    ball's vertical velocity, whose energy is one unit less and whose height
    is the previous height; the reducer applies it to the player's paddle,
    with the ball of the incoming state, and takes one unit from the energy
    label. *)
Theorem teleport_takes_ball_position_and_velocity (random : nat -> Q)
  (name : string) (xPosition : Q) (colouring : Z -> string) (width : Q)
  (prev : RectBody) (b : CircleBody) (acc : State) (i : nat) :
  (Rect.energy prev > 0)%Z ->
  (Text.numeric (St.playerEnergy acc) > 0)%Z ->
  (Rect.energy (St.paddleOne acc) > 0)%Z ->
  returns (makePaddleState (genericPaddle name xPosition colouring width) prev
             (Key Teleport) (Some b)) i
    (fun r =>
       Rect.yPos r = Circle.yPos b /\
       Rect.yVel r = Circle.yVel b /\
       Rect.energy r = (Rect.energy prev - 1)%Z /\
       Rect.ySize r = Rect.ySize prev)
  /\
  returns (gameObserver random acc keyR) i
    (fun acc' =>
       Rect.yPos (St.paddleOne acc') = Circle.yPos (St.ball acc) /\
       Rect.yVel (St.paddleOne acc') = Circle.yVel (St.ball acc) /\
       Rect.energy (St.paddleOne acc') = (Rect.energy (St.paddleOne acc) - 1)%Z /\
       Rect.ySize (St.paddleOne acc') = Rect.ySize (St.paddleOne acc) /\
       Text.numeric (St.playerEnergy acc')
       = (Text.numeric (St.playerEnergy acc) - 1)%Z).
Proof.
  intros Hprev Hn He. split.
  - unfold returns, makePaddleState.
    apply Z.gt_lt, Z.gtb_lt in Hprev. rewrite Hprev.
    eexists; eexists; split; [reflexivity|].
    cbn. repeat split.
  - apply Z.gt_lt, Z.gtb_lt in Hn. apply Z.gt_lt, Z.gtb_lt in He.
    unfold returns, gameObserver, keyR.
    cbn [instanceofPaddleGrowth instanceofTeleport orb andb].
    rewrite Hn.
    destruct (createStandardParseState_returns random acc (Key Teleport) 1 i)
      as (p1 & vel & b0 & j & Hp1 & _ & _ & H).
    rewrite H. eexists; eexists; split; [reflexivity|].
    unfold makePaddleState in Hp1. rewrite He in Hp1.
    injection Hp1 as <-. cbn. repeat split.
Qed.

(** ** The ball *)

(** C6: a ball that touches the top wall while moving up, or the bottom
    wall while moving down, and touches no side wall, is returned with its
    vertical velocity negated, its vertical position moved back by the
    current vertical velocity ([yPos - yVel]), and its horizontal velocity
    unchanged; its horizontal position advances by the horizontal velocity
    and no score is marked. *)
Theorem wall_bounce_reflects (random : nat -> Q) (b : CircleBody)
  (player cpu : RectBody) (i : nat) :
  Constants.sideBound < Circle.xPos b - Circle.radius b ->
  Circle.xPos b + Circle.radius b < Constants.canvasRight - Constants.sideBound ->
  (Circle.yPos b - Circle.radius b <= Constants.topBound /\ Circle.yVel b < 0)
  \/ (Circle.yPos b + Circle.radius b >= Constants.canvasBottom - Constants.bottomBound
      /\ Circle.yVel b > 0) ->
  returns (movingBallState random b player cpu) i
    (fun b' =>
       Circle.yVel b' == - Circle.yVel b /\
       Circle.yPos b' = Circle.yPos b - Circle.yVel b /\
       Circle.xVel b' = Circle.xVel b /\
       Circle.xPos b' = Circle.xPos b + Circle.xVel b /\
       Circle.scoreUpdate b' = None).
Proof.
  intros Hl Hr Hw.
  apply Qleb_false in Hl. apply Qleb_false in Hr.
  assert (((Circle.yPos b - Circle.radius b <=? Constants.topBound)
           && (Circle.yVel b <? 0))
          || ((Circle.yPos b + Circle.radius b
               >=? Constants.canvasBottom - Constants.bottomBound)
              && (Circle.yVel b >? 0)) = true) as Hb.
  { apply orb_true_iff.
    destruct Hw as [[H1 H2]|[H1 H2]]; [left|right]; apply andb_true_iff;
      (split; [now apply Qleb_true | now apply Qltb_true]). }
  unfold returns, movingBallState. rewrite Hl, Hr, Hb.
  eexists; eexists; split; [reflexivity|]. cbn.
  repeat split; try reflexivity; try ring.
Qed.

(** The deflection off a paddle: both draws are made, the second one is
    the new vertical velocity. *)
Lemma calculateBallVel_value (random : nat -> Q) (ymin ymax impactZone : Q) (i : nat) :
  returns (calculateBallVel random ymin ymax impactZone) i
    (fun v => v == Constants.ballBaseYSpeed * random i
                   + Qabs (impactZone - (ymax + ymin) / 2) / 8)
  /\ exists v, calculateBallVel random ymin ymax impactZone i = Some (v, S i).
Proof.
  split; [|eexists; reflexivity].
  eexists; eexists; split; [reflexivity|].
  split_cmp.
  - rewrite Qabs_neg by lra. unfold Qdiv. ring.
  - rewrite Qabs_pos by lra. reflexivity.
Qed.

(** C7, as the code has it: a ball whose left edge lies within the
    horizontal span of the player's paddle and whose vertical span meets
    the paddle's, moving left, touching no side wall and not moving into
    the top or bottom wall, is returned with its horizontal velocity
    negated and the vertical velocity
    [ballBaseYSpeed * r + |yPos - paddle centre| / 8], [r] the second of the
    two draws made.  (The ball at (60,300) with velocity (-5,0) before the
    paddle spanning y[255,345] comes back with horizontal velocity +5; the
    ball at the centre (450,300) does not touch the paddle.) *)
Theorem player_paddle_bounce (random : nat -> Q) (b : CircleBody)
  (player cpu : RectBody) (i : nat) :
  Constants.sideBound < Circle.xPos b - Circle.radius b ->
  Circle.xPos b + Circle.radius b < Constants.canvasRight - Constants.sideBound ->
  (Constants.topBound < Circle.yPos b - Circle.radius b \/ 0 <= Circle.yVel b) ->
  (Circle.yPos b + Circle.radius b < Constants.canvasBottom - Constants.bottomBound
   \/ Circle.yVel b <= 0) ->
  Rect.xPos player <= Circle.xPos b - Circle.radius b ->
  Circle.xPos b - Circle.radius b <= Rect.xPos player + Rect.xSize player ->
  (Rect.yPos player <= Circle.yPos b - Circle.radius b
   /\ Circle.yPos b - Circle.radius b <= Rect.yPos player + Rect.ySize player)
  \/ (Rect.yPos player <= Circle.yPos b + Circle.radius b
      /\ Circle.yPos b + Circle.radius b <= Rect.yPos player + Rect.ySize player) ->
  Circle.xPos b < Constants.canvasRight ->
  Circle.xVel b < 0 ->
  returns (movingBallState random b player cpu) i
    (fun b' =>
       Circle.xVel b' == - Circle.xVel b /\
       Circle.yVel b'
       == Constants.ballBaseYSpeed * random (S i)
          + Qabs (Circle.yPos b - (Rect.yPos player + Rect.ySize player
                                   + Rect.yPos player) / 2) / 8).
Proof.
  intros Hl Hr Ht Hb Hx1 Hx2 Hy Hhalf Hxv.
  apply Qleb_false in Hl. apply Qleb_false in Hr.
  assert (((Circle.yPos b - Circle.radius b <=? Constants.topBound)
           && (Circle.yVel b <? 0))
          || ((Circle.yPos b + Circle.radius b
               >=? Constants.canvasBottom - Constants.bottomBound)
              && (Circle.yVel b >? 0)) = false) as Hw.
  { apply orb_false_iff; split; apply andb_false_iff.
    - destruct Ht as [H|H]; [left; now apply Qleb_false | right; now apply Qltb_false].
    - destruct Hb as [H|H]; [left; now apply Qleb_false | right; now apply Qltb_false]. }
  assert (((Rect.xPos player <=? Circle.xPos b - Circle.radius b)
           && (Circle.xPos b - Circle.radius b <=? Rect.xPos player + Rect.xSize player))
          && (((Rect.yPos player <=? Circle.yPos b - Circle.radius b)
               && (Circle.yPos b - Circle.radius b
                   <=? Rect.yPos player + Rect.ySize player))
              || ((Rect.yPos player <=? Circle.yPos b + Circle.radius b)
                  && (Circle.yPos b + Circle.radius b
                      <=? Rect.yPos player + Rect.ySize player)))
          && (Constants.canvasRight >? Circle.xPos b)
          && (Circle.xVel b <? 0) = true) as Hp.
  { repeat (apply andb_true_iff; split);
      try (now apply Qleb_true); try (now apply Qltb_true).
    apply orb_true_iff.
    destruct Hy as [[H1 H2]|[H1 H2]]; [left|right]; apply andb_true_iff;
      split; now apply Qleb_true. }
  unfold returns, movingBallState. rewrite Hl, Hr, Hw, Hp.
  destruct (calculateBallVel_value random (Rect.yPos player)
              (Rect.yPos player + Rect.ySize player) (Circle.yPos b) i)
    as [_ [dy Hdy]].
  destruct (calculateBallVel_value random (Rect.yPos player)
              (Rect.yPos player + Rect.ySize player) (Circle.yPos b) (S i))
    as [(vy & j & Hvy & Hval) _].
  unfold bind. rewrite Hdy, Hvy.
  eexists; eexists; split; [reflexivity|]. cbn.
  split; [ring | exact Hval].
Qed.

(** ** The reducer, branch by branch *)

Lemma isSide_true (t : scoreUpdateTracker) (w : Side) :
  isSide t w = true <-> t = Some w.
Proof.
  destruct t as [[|]|], w; cbn; split; congruence.
Qed.

Lemma createEndState_returns (random : nat -> Q) (acc : State) (s : Event)
  (whoWon : scoreUpdateTracker) (i : nat) :
  createEndState random acc s whoWon i
  = Some (resetState acc (Text.numeric (St.playerEnergy acc))
            (freshBall random 0 0 i) (St.scoreOne acc) (St.scoreTwo acc)
            (St.playerEnergy acc) whoWon, S (S i)).
Proof. reflexivity. Qed.

Lemma gameObserver_branch (random : nat -> Q) (acc : State) (s : Event)
  (i : nat) (acc' : State) (j : nat) :
  gameObserver random acc s i = Some (acc', j) -> branch random acc s i acc' j.
Proof.
  intros H. unfold gameObserver in H.
  destruct (abilityFunded acc s) eqn:Ha; pose proof Ha as Ha';
    unfold abilityFunded in Ha'; rewrite Ha' in H.
  { now apply branch_ability. }
  destruct (instanceofPaddleShrink s) eqn:Hs.
  { destruct s as [n|[y x|size| |size|]]; try discriminate Hs.
    destruct (Text.numeric (St.playerEnergy acc) >? 0)%Z eqn:He.
    - destruct (shrink_step_returns random acc size i He)
        as (p1 & b & j' & Hp1 & Hb & Hg).
      unfold gameObserver in Hg.
      cbn [instanceofPaddleGrowth instanceofTeleport instanceofPaddleShrink
           orb andb] in Hg.
      rewrite He in Hg. rewrite Hg in H. injection H as <- <-.
      eapply branch_shrink; eauto. now apply Z.lt_gt, Z.gtb_lt.
    - eapply branch_shrink_unfunded; eauto.
      rewrite Z.gtb_ltb in He. now apply Z.ltb_ge in He. }
  destruct (isSide (Circle.scoreUpdate (St.ball acc)) side_p) eqn:Hp.
  { apply isSide_true in Hp. injection H as <- <-.
    now apply branch_player_scored. }
  destruct (isSide (Circle.scoreUpdate (St.ball acc)) side_c) eqn:Hc.
  { apply isSide_true in Hc. injection H as <- <-.
    now apply branch_cpu_scored. }
  assert (Circle.scoreUpdate (St.ball acc) = None) as Hn.
  { destruct (Circle.scoreUpdate (St.ball acc)) as [[|]|];
      cbn in Hp, Hc; congruence. }
  destruct (parsesTo (Text.content (St.scoreOne acc)) Constants.winningScore) eqn:H1.
  { rewrite createEndState_returns in H. injection H as <- <-.
    now apply branch_player_won. }
  destruct (parsesTo (Text.content (St.scoreTwo acc)) Constants.winningScore) eqn:H2.
  { rewrite createEndState_returns in H. injection H as <- <-.
    now apply branch_cpu_won. }
  now apply branch_play.
Qed.

(** ** What every step maintains *)

Lemma default_player_inBounds (energy_ : Z) :
  inBounds (playerPaddle (Rect.yPos defaultPlayerPaddleState)
              (Rect.yVel defaultPlayerPaddleState) energy_
              (Rect.ySize defaultPlayerPaddleState)).
Proof. unfold inBounds; cbn; split; discriminate. Qed.

Lemma default_ai_inBounds (energy_ : Z) :
  inBounds (aiPaddle (Rect.yPos defaultAiPaddleState)
              (Rect.yVel defaultAiPaddleState) energy_
              (Rect.ySize defaultAiPaddleState)).
Proof. unfold inBounds; cbn; split; discriminate. Qed.

Lemma player_step_energy (prev : RectBody) (s : Event) (b : CircleBody)
  (i : nat) (p1 : RectBody) :
  mapped s ->
  makePaddleState playerPaddle prev s (Some b) i = Some (p1, i) ->
  Rect.energy p1
  = if (instanceofPaddleGrowth s || instanceofTeleport s) && (Rect.energy prev >? 0)%Z
    then (Rect.energy prev - 1)%Z else Rect.energy prev.
Proof.
  intros Hm H. unfold playerPaddle in *.
  destruct Hm; cbn in H |- *; try destruct (Rect.energy prev >? 0)%Z;
    injection H as <-; try reflexivity; apply movingPaddleState_energy.
Qed.

Lemma player_step_inBounds (prev : RectBody) (s : Event) (b : CircleBody)
  (i : nat) (p1 : RectBody) :
  mapped s ->
  (instanceofPaddleGrowth s || instanceofTeleport s) && (Rect.energy prev >? 0)%Z = false ->
  instanceofPaddleShrink s = false ->
  inBounds prev ->
  makePaddleState playerPaddle prev s (Some b) i = Some (p1, i) ->
  inBounds p1.
Proof.
  intros Hm Ha Hs Hin H. unfold playerPaddle in *.
  destruct Hm; cbn in H, Ha, Hs; try discriminate Hs; try rewrite Ha in H;
    injection H as <-; now apply movingPaddleState_inBounds.
Qed.

Lemma playerEnergy_numeric (n : Z) : Text.numeric (playerEnergy n) = n.
Proof. reflexivity. Qed.

Lemma standard_step_inv (random : nat -> Q) (acc : State) (s : Event)
  (energyDrain : Z) (i : nat) (acc' : State) (j : nat) :
  stateInv acc -> mapped s -> instanceofPaddleShrink s = false ->
  energyDrain = (if abilityFunded acc s then 1 else 0)%Z ->
  createStandardParseState random acc s energyDrain i = Some (acc', j) ->
  stateInv acc'
  /\ (inBounds (St.paddleOne acc) -> abilityFunded acc s = false ->
      inBounds (St.paddleOne acc')).
Proof.
  intros (He & Hsync & Hai & Hs1 & Hs2) Hm Hs Hd H.
  destruct (createStandardParseState_returns random acc s energyDrain i)
    as (p1 & vel & b & j' & Hp1 & _ & _ & Heq).
  rewrite Heq in H. injection H as <- <-.
  pose proof (player_step_energy _ _ _ _ _ Hm Hp1) as Hen.
  rewrite Hsync in Hen. fold (abilityFunded acc s) in Hen.
  unfold stateInv. cbn [createState St.playerEnergy St.paddleOne St.paddleTwo
                        St.scoreOne St.scoreTwo].
  rewrite playerEnergy_numeric, Hen, Hd.
  refine (conj (conj _ (conj _ (conj _ (conj Hs1 Hs2)))) _).
  - destruct (abilityFunded acc s) eqn:Ha; [|lia].
    unfold abilityFunded in Ha. apply andb_true_iff in Ha as [_ Ha].
    apply Z.gtb_lt in Ha. lia.
  - destruct (abilityFunded acc s); [reflexivity | now rewrite Z.sub_0_r].
  - unfold aiPaddle. now apply movingPaddleState_inBounds.
  - intros Hin Ha. eapply player_step_inBounds; eauto.
    now rewrite Hsync.
Qed.

(** One step of the reducer keeps the invariant, and keeps the player's
    paddle between the walls unless a grow or a teleport is applied. *)
Lemma gameObserver_inv (random : nat -> Q) (acc : State) (s : Event) (i : nat)
  (acc' : State) (j : nat) :
  stateInv acc -> mapped s ->
  gameObserver random acc s i = Some (acc', j) ->
  stateInv acc'
  /\ (inBounds (St.paddleOne acc) -> abilityFunded acc s = false ->
      inBounds (St.paddleOne acc')).
Proof.
  intros Hinv Hm H. pose proof Hinv as (He & Hsync & Hai & Hs1 & Hs2).
  apply gameObserver_branch in H.
  destruct H as [Ha H | size p1 b Ha -> Hpos Hp1 Hb -> | size Ha -> Hle H
                 | Ha Hs Hp -> -> | Ha Hs Hc -> -> | Ha Hs Hn H1 -> ->
                 | Ha Hs Hn H1 H2 -> -> | Ha Hs Hn H1 H2 H].
  - eapply standard_step_inv in H; eauto.
    + destruct s as [n|[y x|size| |size|]]; try reflexivity.
      unfold abilityFunded in Ha. discriminate Ha.
    + now rewrite Ha.
  - unfold makePaddleState in Hp1. rewrite Hsync in Hp1.
    apply Z.gt_lt in Hpos. pose proof Hpos as Hpos'. apply Z.gtb_lt in Hpos'.
    rewrite Hpos' in Hp1. injection Hp1 as <-.
    unfold stateInv, inBounds in *.
    cbn [createState St.playerEnergy St.paddleOne St.paddleTwo St.scoreOne
         St.scoreTwo playerPaddle aiPaddle genericPaddle Rect.yPos Rect.ySize
         Rect.energy].
    rewrite playerEnergy_numeric.
    refine (conj (conj _ (conj eq_refl (conj _ (conj Hs1 Hs2)))) _);
      [lia | | tauto].
    inversion Hm. subst. unfold_constants. split; lra.
  - assert (stateInv acc' /\
            (inBounds (St.paddleOne acc) ->
             abilityFunded acc (Key (Movement 0 0)) = false ->
             inBounds (St.paddleOne acc'))) as [Hi Hb].
    { eapply standard_step_inv; eauto using mapped_release. }
    split; [assumption|]. intros Hin _. now apply Hb.
  - unfold stateInv, resetState. cbn [createState St.playerEnergy St.paddleOne
      St.paddleTwo St.scoreOne St.scoreTwo].
    refine (conj (conj He (conj eq_refl (conj _ (conj eq_refl Hs2)))) _);
      intros;
      first [apply default_player_inBounds | apply default_ai_inBounds].
  - unfold stateInv, resetState. cbn [createState St.playerEnergy St.paddleOne
      St.paddleTwo St.scoreOne St.scoreTwo].
    rewrite playerEnergy_numeric.
    refine (conj (conj _ (conj eq_refl (conj _ (conj Hs1 eq_refl)))) _);
      [lia | |]; intros;
      first [apply default_player_inBounds | apply default_ai_inBounds].
  - unfold stateInv, resetState. cbn [createState St.playerEnergy St.paddleOne
      St.paddleTwo St.scoreOne St.scoreTwo].
    refine (conj (conj He (conj eq_refl (conj _ (conj Hs1 Hs2)))) _);
      intros;
      first [apply default_player_inBounds | apply default_ai_inBounds].
  - unfold stateInv, resetState. cbn [createState St.playerEnergy St.paddleOne
      St.paddleTwo St.scoreOne St.scoreTwo].
    refine (conj (conj He (conj eq_refl (conj _ (conj Hs1 Hs2)))) _);
      intros;
      first [apply default_player_inBounds | apply default_ai_inBounds].
  - eapply standard_step_inv in H; eauto. now rewrite Ha.
Qed.

Lemma seed_inv (random : nat -> Q) (i : nat) (s0 : State) (j : nat) :
  defaultEverythingState random i = Some (s0, j) ->
  stateInv s0 /\ inBounds (St.paddleOne s0).
Proof.
  unfold defaultEverythingState, defaultBallState2, bind.
  rewrite genericDefaultBall_returns. intros [= <- <-].
  unfold stateInv. cbn [St.playerEnergy St.paddleOne St.paddleTwo St.scoreOne
                        St.scoreTwo].
  refine (conj (conj _ (conj eq_refl (conj _ (conj eq_refl eq_refl)))) _);
    first [apply (default_player_inBounds 4) | apply (default_ai_inBounds 4)
          | discriminate].
Qed.

Lemma reachable_inv (random : nat -> Q) (st : State) :
  reachable random st -> stateInv st.
Proof.
  induction 1 as [i s0 j H | acc s i acc' j _ IH _ Hm H].
  - now apply seed_inv in H.
  - now apply gameObserver_inv in H.
Qed.

(** ** Runs of the game *)

Lemma game_reachable (random : nat -> Q) (evs : list Event) :
  Forall mapped evs ->
  forall acc i st j,
    reachable random acc -> St.winnerIs acc = None ->
    game random acc evs i = Some (st, j) -> reachable random st.
Proof.
  induction 1 as [|s evs Hs _ IH]; intros acc i st j Hr Hw H.
  - now injection H as <- _.
  - cbn [game] in H. unfold bind in H.
    destruct (gameObserver random acc s i) as [[acc' k]|] eqn:Hstep;
      [|discriminate H].
    assert (reachable random acc') as Hr' by (eapply reachable_step; eauto).
    destruct (St.winnerIs acc') eqn:Hw'.
    + now injection H as <- _.
    + eapply IH; eauto.
Qed.

Lemma runGame_reachable (random : nat -> Q) (evs : list Event) (st : State)
  (j : nat) :
  Forall mapped evs -> runGame random evs 0%nat = Some (st, j) ->
  reachable random st.
Proof.
  intros Hm H. unfold runGame, bind in H.
  destruct (defaultEverythingState random 0%nat) as [[s0 i]|] eqn:H0;
    [|discriminate H].
  eapply game_reachable; eauto.
  - eapply reachable_seed; eauto.
  - unfold defaultEverythingState, defaultBallState2, bind in H0.
    rewrite genericDefaultBall_returns in H0. now injection H0 as <- _.
Qed.

(** As long as no winner is named, the subscription has seen what [scan]
    produces. *)
Lemma game_is_scan_until_winner (random : nat -> Q) (evs : list Event) :
  forall acc i st j,
    game random acc evs i = Some (st, j) -> St.winnerIs st = None ->
    scan random acc evs i = Some (st, j).
Proof.
  induction evs as [|s evs IH]; intros acc i st j H Hw; [exact H|].
  cbn [game scan] in *. unfold bind in *.
  destruct (gameObserver random acc s i) as [[acc' k]|]; [|discriminate H].
  destruct (St.winnerIs acc') eqn:Hw'.
  - injection H as <- <-. congruence.
  - now apply IH.
Qed.

Lemma Forall_mapped_repeat (s : Event) (n : nat) :
  mapped s -> Forall mapped (repeat s n).
Proof. intros H. induction n; cbn; auto. Qed.

Lemma Forall_mapped_lostRallies (n : nat) : Forall mapped (lostRallies n).
Proof.
  unfold lostRallies. induction n; cbn [repeat concat]; [constructor|].
  apply Forall_app. split; [|assumption].
  constructor; [apply mapped_down | apply Forall_mapped_repeat, mapped_tick].
Qed.

(** ** The claims on the reducer *)

(** C1, as the code has it: in every output of the reducer on a reachable
    state the AI paddle lies within [topBound, bottom wall - height]; the
    player's paddle lies within its bounds when it did in the incoming
    state and the event is not a grow or a teleport that finds energy
    (neither of the two clamps the paddle). *)
Theorem paddles_between_walls (random : nat -> Q) (acc : State) (s : Event)
  (i : nat) :
  reachable random acc -> mapped s ->
  returns (gameObserver random acc s) i
    (fun acc' =>
       inBounds (St.paddleTwo acc')
       /\ (inBounds (St.paddleOne acc) -> abilityFunded acc s = false ->
           inBounds (St.paddleOne acc'))).
Proof.
  intros Hr Hm. apply reachable_inv in Hr.
  destruct (gameObserver_total random acc s i) as (acc' & j & H).
  exists acc', j. split; [assumption|].
  destruct (gameObserver_inv random acc s i acc' j Hr Hm H) as [Hinv Hp].
  split; [apply Hinv | exact Hp].
Qed.

(** C1 fails as stated: after the down key and 43 ticks the player's paddle
    is at 475 with height 90, between the walls; the grow that follows
    leaves it at 475 with height 120, below the bound 590 - 120 = 470. *)
Lemma grow_leaves_the_walls :
  exists acc i acc' j,
    runGame zeroDraws (keyDownArrow :: repeat (Tick 0) 43) 0%nat = Some (acc, i) /\
    reachable zeroDraws acc /\
    inBounds (St.paddleOne acc) /\
    gameObserver zeroDraws acc keyE i = Some (acc', j) /\
    Rect.yPos (St.paddleOne acc') == 475 /\
    Rect.ySize (St.paddleOne acc') == 120 /\
    ~ inBounds (St.paddleOne acc').
Proof.
  eexists; eexists; eexists; eexists.
  split; [vm_compute; reflexivity|].
  split.
  { eapply (runGame_reachable zeroDraws (keyDownArrow :: repeat (Tick 0) 43)).
    - constructor; [apply mapped_down | apply Forall_mapped_repeat, mapped_tick].
    - vm_compute. reflexivity. }
  split; [unfold inBounds; vm_compute; split; discriminate|].
  split; [vm_compute; reflexivity|].
  split; [vm_compute; reflexivity|].
  split; [vm_compute; reflexivity|].
  unfold inBounds. intros [_ H]. vm_compute in H. apply H. reflexivity.
Qed.


(** A branch whose guard contradicts the hypotheses. *)
Ltac absurd_branch :=
  subst;
  match goal with
  | H1 : ?x = true, H2 : ?x = false |- _ => rewrite H1 in H2; discriminate H2
  | H1 : ?x = Some _, H2 : ?x = None |- _ => rewrite H1 in H2; discriminate H2
  | H1 : ?x = Some side_p, H2 : ?x = Some side_c |- _ =>
      rewrite H1 in H2; discriminate H2
  | H : instanceofPaddleShrink (Key (PaddleShrink _)) = false |- _ =>
      discriminate H
  end.

(** Run the reducer and look at the branch taken. *)
Ltac step_cases random acc s i acc' j H :=
  destruct (gameObserver_total random acc s i) as (acc' & j & H);
  exists acc', j; split; [exact H|];
  apply gameObserver_branch in H;
  destruct H; try absurd_branch; subst.

(** C5: when the ball carries the "cpu-scored" marker and no ability branch
    applies, the CPU's score grows by exactly 1, the player's energy (label
    and paddle) becomes the previous energy plus 1, and the energy of the
    CPU paddle is the one of the previous CPU paddle. *)
Theorem cpu_scored_step (random : nat -> Q) (acc : State) (s : Event) (i : nat) :
  abilityFunded acc s = false -> instanceofPaddleShrink s = false ->
  Circle.scoreUpdate (St.ball acc) = Some side_c ->
  returns (gameObserver random acc s) i
    (fun acc' =>
       Text.numeric (St.scoreTwo acc') = (Text.numeric (St.scoreTwo acc) + 1)%Z /\
       St.scoreOne acc' = St.scoreOne acc /\
       Text.numeric (St.playerEnergy acc')
       = (Text.numeric (St.playerEnergy acc) + 1)%Z /\
       Rect.energy (St.paddleOne acc') = (Text.numeric (St.playerEnergy acc) + 1)%Z /\
       Rect.energy (St.paddleTwo acc') = Rect.energy (St.paddleTwo acc)).
Proof.
  intros Ha Hs Hc. step_cases random acc s i acc' j H.
  repeat split; reflexivity.
Qed.

(** C4, as the code has it: when the ball carries the "player-scored"
    marker and no ability branch applies, both paddles are rebuilt at the
    default position and size, the player's with the energy of the label
    (its own energy, when the two agree) and the CPU's with its own; the
    ball is put at the centre moving towards the player (horizontal
    velocity -5, the player's paddle being on the left) with the rounded
    random vertical velocity; the player's score grows by exactly 1 and the
    energy label keeps its number. *)
Theorem player_scored_step (random : nat -> Q) (acc : State) (s : Event) (i : nat) :
  abilityFunded acc s = false -> instanceofPaddleShrink s = false ->
  Circle.scoreUpdate (St.ball acc) = Some side_p ->
  returns (gameObserver random acc s) i
    (fun acc' =>
       St.paddleOne acc'
       = playerPaddle (Rect.yPos defaultPlayerPaddleState) 0
           (Text.numeric (St.playerEnergy acc)) Constants.paddleYWidth /\
       (Rect.energy (St.paddleOne acc) = Text.numeric (St.playerEnergy acc) ->
        Rect.energy (St.paddleOne acc') = Rect.energy (St.paddleOne acc)) /\
       St.paddleTwo acc'
       = aiPaddle (Rect.yPos defaultAiPaddleState) 0
           (Rect.energy (St.paddleTwo acc)) Constants.paddleYWidth /\
       Circle.xPos (St.ball acc') == 450 /\
       Circle.yPos (St.ball acc') == 300 /\
       Circle.xVel (St.ball acc') == - Constants.ballBaseXSpeed /\
       Rect.xPos (St.paddleOne acc') < Circle.xPos (St.ball acc') /\
       Circle.yVel (St.ball acc')
       == Math_round (if random i >? (1 # 2)
                      then Constants.ballBaseYSpeed * random (S i) / 2
                      else - Constants.ballBaseYSpeed * random (S i) / 3) /\
       Circle.scoreUpdate (St.ball acc') = None /\
       St.scoreOne acc' = playerScore (Text.numeric (St.scoreOne acc) + 1)%Z /\
       St.scoreTwo acc' = St.scoreTwo acc /\
       Text.numeric (St.playerEnergy acc') = Text.numeric (St.playerEnergy acc) /\
       St.winnerIs acc' = None).
Proof.
  intros Ha Hs Hp. step_cases random acc s i acc' j H.
  unfold resetState, freshBall.
  cbn [createState St.paddleOne St.paddleTwo St.ball St.scoreOne St.scoreTwo
       St.playerEnergy St.winnerIs ball Circle.xPos Circle.yPos Circle.xVel
       Circle.yVel Circle.scoreUpdate].
  repeat split; try reflexivity.
  - intros Hsync. now rewrite Hsync.
  - apply Qmult_1_l.
Qed.

(** The step that finds a reached threshold. *)
Lemma win_step (random : nat -> Q) (acc : State) (s : Event) (i : nat) (w : Side) :
  abilityFunded acc s = false -> instanceofPaddleShrink s = false ->
  Circle.scoreUpdate (St.ball acc) = None ->
  (if parsesTo (Text.content (St.scoreOne acc)) Constants.winningScore
   then w = side_p
   else parsesTo (Text.content (St.scoreTwo acc)) Constants.winningScore = true
        /\ w = side_c) ->
  exists acc' j, gameObserver random acc s i = Some (acc', j) /\ wonBy acc w acc'.
Proof.
  intros Ha Hs Hn Hw.
  destruct (gameObserver_total random acc s i) as (acc' & j & H).
  exists acc', j. split; [exact H|].
  apply gameObserver_branch in H.
  destruct H as [ | | | | | ? ? ? H1 | ? ? ? H1 H2 | ? ? ? H1 H2 ];
    try absurd_branch; subst; rewrite H1 in Hw.
  - subst w. unfold wonBy, frozenAtCentre. cbn. repeat split; reflexivity.
  - destruct Hw as [_ ->]. unfold wonBy, frozenAtCentre. cbn.
    repeat split; reflexivity.
  - destruct Hw as [Hw _]. rewrite H2 in Hw. discriminate Hw.
Qed.

(** C3, as the code has it: on a state whose player (or, failing that,
    CPU) score is the winning threshold 7, every event that reaches the
    win test (no grow or teleport that finds energy, no shrink, no scoring
    marker on the ball) yields a state that names that side the winner,
    with the ball at rest (velocity (0,0)) at the centre (450,300) and the
    scores and the energy label kept; the same holds again on that output,
    and the subscription returns that state whatever events follow. *)
Theorem winner_marked_at_threshold (random : nat -> Q) (acc : State) (s : Event)
  (i : nat) (w : Side) (n : Z) :
  abilityFunded acc s = false -> instanceofPaddleShrink s = false ->
  Circle.scoreUpdate (St.ball acc) = None ->
  (w = side_p /\ St.scoreOne acc = playerScore Constants.winningScore)
  \/ (w = side_c /\ St.scoreOne acc = playerScore n /\ n <> Constants.winningScore
      /\ St.scoreTwo acc = aiScore Constants.winningScore) ->
  exists acc' j,
    gameObserver random acc s i = Some (acc', j) /\
    wonBy acc w acc' /\
    (forall s' i',
        abilityFunded acc' s' = false -> instanceofPaddleShrink s' = false ->
        returns (gameObserver random acc' s') i' (wonBy acc' w)) /\
    (forall evs, game random acc (s :: evs) i = Some (acc', j)).
Proof.
  intros Ha Hs Hn Hw.
  assert (if parsesTo (Text.content (St.scoreOne acc)) Constants.winningScore
          then w = side_p
          else parsesTo (Text.content (St.scoreTwo acc)) Constants.winningScore
               = true /\ w = side_c) as Hsel.
  { destruct Hw as [[-> H1] | (-> & H1 & Hne & H2)]; rewrite H1.
    - reflexivity.
    - cbn [playerScore genericText Text.content append].
      rewrite parsesTo_toString.
      destruct (n =? Constants.winningScore)%Z eqn:E;
        [apply Z.eqb_eq in E; contradiction|].
      rewrite H2. split; reflexivity. }
  destruct (win_step random acc s i w Ha Hs Hn Hsel) as (acc' & j & H & Hwon).
  exists acc', j. split; [exact H|]. split; [exact Hwon|].
  destruct Hwon as (Hwin & Hfz & Hmark & Hs1 & Hs2 & Hen). split.
  - intros s' i' Ha' Hs'. unfold returns.
    apply win_step; try assumption. now rewrite Hs1, Hs2.
  - intros evs. cbn [game]. unfold bind. now rewrite H, Hwin.
Qed.

(** C3 fails as stated: seven rallies lost by the player bring the CPU's
    score to 7 with no winner named yet; on the shrink key the reducer
    returns a state without winner and with the ball in motion; and on the
    state that names the CPU the winner, the reducer applied to the shrink
    key returns a state without winner. *)
Lemma shrink_key_skips_the_win_test :
  exists acc i acc' j won k after l,
    runGame zeroDraws (lostRallies 7) 0%nat = Some (acc, i) /\
    reachable zeroDraws acc /\
    St.scoreTwo acc = aiScore 7%Z /\
    Text.numeric (St.playerEnergy acc) = 11%Z /\
    Circle.scoreUpdate (St.ball acc) = None /\
    St.winnerIs acc = None /\
    gameObserver zeroDraws acc keyQ i = Some (acc', j) /\
    St.winnerIs acc' = None /\
    Circle.xVel (St.ball acc') == 5 /\
    gameObserver zeroDraws acc (Tick 0) i = Some (won, k) /\
    St.winnerIs won = Some side_c /\
    gameObserver zeroDraws won keyQ k = Some (after, l) /\
    St.winnerIs after = None.
Proof.
  do 8 eexists.
  split; [vm_compute; reflexivity|].
  split; [eapply (runGame_reachable zeroDraws (lostRallies 7));
          [apply Forall_mapped_lostRallies | vm_compute; reflexivity]|].
  repeat (split; [vm_compute; reflexivity|]).
  vm_compute; reflexivity.
Qed.

(** A grow or a teleport that finds no energy is handled as a tick is. *)
Lemma unfunded_ability_is_tick (random : nat -> Q) (acc : State) (s : Event)
  (n i : nat) :
  Text.numeric (St.playerEnergy acc) = 0%Z ->
  Rect.energy (St.paddleOne acc) = 0%Z ->
  instanceofPaddleGrowth s || instanceofTeleport s = true ->
  gameObserver random acc s i = gameObserver random acc (Tick n) i.
Proof.
  intros Hz Hp Hs.
  assert (createStandardParseState random acc s 0 i
          = createStandardParseState random acc (Tick n) 0 i) as Hstd.
  { unfold createStandardParseState, bind, makePaddleState.
    destruct s as [m|[y x|size| |size|]]; try discriminate Hs;
      rewrite Hp; reflexivity. }
  unfold gameObserver. rewrite Hz.
  destruct s as [m|[y x|size| |size|]]; try discriminate Hs;
    cbn [instanceofPaddleGrowth instanceofTeleport instanceofPaddleShrink
         orb andb Z.gtb Z.compare];
    repeat split_if; try reflexivity; exact Hstd.
Qed.

(** C2, as the code has it: the energy of the label and of the player's
    paddle is never negative in an output of the reducer; with the energy
    at 0, a grow or a teleport gives exactly the output of a timer tick, and
    a shrink gives the plain movement step with Move(0); the energy stays
    0 in these outputs, except that a grow or a teleport arriving while the
    ball carries the "cpu-scored" marker is answered, as a tick is, by the
    scoring branch, which adds 1. *)
Theorem energy_gate (random : nat -> Q) (acc : State) (i : nat) :
  reachable random acc ->
  (forall s, mapped s ->
     returns (gameObserver random acc s) i
       (fun acc' => (0 <= Text.numeric (St.playerEnergy acc'))%Z
                    /\ (0 <= Rect.energy (St.paddleOne acc'))%Z))
  /\
  (Text.numeric (St.playerEnergy acc) = 0%Z ->
   (forall size n,
       gameObserver random acc (Key (PaddleGrowth size)) i
       = gameObserver random acc (Tick n) i)
   /\ (forall n,
          gameObserver random acc (Key Teleport) i
          = gameObserver random acc (Tick n) i)
   /\ (forall size,
          gameObserver random acc (Key (PaddleShrink size)) i
          = createStandardParseState random acc (Key (Movement 0 0)) 0 i)
   /\ (forall s,
          instanceofAbility s = true ->
          instanceofPaddleShrink s = true
          \/ Circle.scoreUpdate (St.ball acc) <> Some side_c ->
          returns (gameObserver random acc s) i
            (fun acc' => Text.numeric (St.playerEnergy acc') = 0%Z
                         /\ Rect.energy (St.paddleOne acc') = 0%Z))).
Proof.
  intros Hr. apply reachable_inv in Hr.
  pose proof Hr as (He & Hsync & _). split.
  { intros s Hm.
    destruct (gameObserver_total random acc s i) as (acc' & j & H).
    exists acc', j. split; [exact H|].
    apply gameObserver_inv in H; try assumption.
    destruct H as [(He' & Hsync' & _) _]. split; [assumption | now rewrite Hsync']. }
  intros Hz. assert (Rect.energy (St.paddleOne acc) = 0%Z) as Hp by congruence.
  split; [|split; [|split]].
  - intros size n. now apply unfunded_ability_is_tick.
  - intros n. now apply unfunded_ability_is_tick.
  - intros size. unfold gameObserver.
    cbn [instanceofPaddleGrowth instanceofTeleport instanceofPaddleShrink orb andb].
    now rewrite Hz.
  - intros s Hab Hc.
    assert (abilityFunded acc s = false) as Ha
      by (unfold abilityFunded; rewrite Hz; apply andb_false_r).
    assert (forall s' acc' j,
               instanceofPaddleShrink s' = true \/
               instanceofPaddleGrowth s' || instanceofTeleport s' = true ->
               createStandardParseState random acc
                 (if instanceofPaddleShrink s' then Key (Movement 0 0) else s') 0 i
               = Some (acc', j) ->
               Text.numeric (St.playerEnergy acc') = 0%Z
               /\ Rect.energy (St.paddleOne acc') = 0%Z) as Hstd.
    { intros s' acc' j Hk H.
      destruct (createStandardParseState_returns random acc
                  (if instanceofPaddleShrink s' then Key (Movement 0 0) else s') 0 i)
        as (p1 & vel & b & j' & Hp1 & _ & _ & Heq).
      rewrite Heq in H. injection H as <- <-. cbn. rewrite Hz. split; [reflexivity|].
      unfold makePaddleState, playerPaddle in Hp1.
      destruct s' as [m|[y x|size| |size|]]; cbn in Hk, Hp1;
        try (destruct Hk; discriminate); try rewrite Hp in Hp1; cbn in Hp1;
        injection Hp1 as <-; now rewrite movingPaddleState_energy. }
    destruct (gameObserver_total random acc s i) as (acc' & j & H).
    exists acc', j. split; [exact H|].
    apply gameObserver_branch in H.
    destruct H as [ ? ? | size p1 b ? ? Hpos | size ? ? ? H | | | | | ? ? ? ? ? H ];
      try absurd_branch; subst; cbn; try rewrite Hz; try (split; reflexivity).
    + lia.
    + apply (Hstd (Key (PaddleShrink size)) _ _ (or_introl eq_refl) H).
    + destruct Hc as [Hc|Hc]; [congruence|contradiction].
    + destruct (instanceofPaddleShrink s) eqn:Hs; [congruence|].
      apply (Hstd s acc' j).
      * right. unfold instanceofAbility in Hab. rewrite Hs in Hab.
        now rewrite orb_false_r in Hab.
      * now rewrite Hs.
Qed.

(** C2 fails as stated: with the energy spent by four grows and the ball
    on the left wall (marker "cpu-scored"), the grow key finds energy 0,
    and the output of the reducer has energy 1: the event is answered by
    the scoring branch, not by a movement step. *)
Lemma grow_at_zero_energy_collects_the_bonus :
  exists acc i acc' j,
    runGame zeroDraws (repeat keyE 4 ++ keyDownArrow :: repeat (Tick 0) 238)%list
      0%nat = Some (acc, i) /\
    reachable zeroDraws acc /\
    Text.numeric (St.playerEnergy acc) = 0%Z /\
    Circle.scoreUpdate (St.ball acc) = Some side_c /\
    gameObserver zeroDraws acc keyE i = Some (acc', j) /\
    Text.numeric (St.playerEnergy acc') = 1%Z /\
    Rect.energy (St.paddleOne acc') = 1%Z /\
    Text.numeric (St.scoreTwo acc') = 1%Z.
Proof.
  do 4 eexists.
  split; [vm_compute; reflexivity|].
  split.
  { eapply (runGame_reachable zeroDraws
              (repeat keyE 4 ++ keyDownArrow :: repeat (Tick 0) 238)%list).
    - apply Forall_app. split; [apply Forall_mapped_repeat, mapped_grow|].
      constructor; [apply mapped_down | apply Forall_mapped_repeat, mapped_tick].
    - vm_compute. reflexivity. }
  repeat (split; [vm_compute; reflexivity|]).
  vm_compute; reflexivity.
Qed.

(** C4 fails as stated: three rallies lost, seven shrinks and 80 ticks
    bring the ball to the right wall (marker "player-scored"); the next
    tick counts the point and returns the ball at the centre with
    horizontal velocity -5, that is moving away from the CPU's paddle (at
    x = 850) and towards the player's (at x = 30). *)
Lemma ball_is_served_to_the_player :
  exists acc i acc' j,
    runGame zeroDraws (lostRallies 3 ++ repeat keyQ 7 ++ repeat (Tick 0) 80)%list
      0%nat = Some (acc, i) /\
    reachable zeroDraws acc /\
    Circle.scoreUpdate (St.ball acc) = Some side_p /\
    gameObserver zeroDraws acc (Tick 0) i = Some (acc', j) /\
    Text.numeric (St.scoreOne acc') = (Text.numeric (St.scoreOne acc) + 1)%Z /\
    Circle.xPos (St.ball acc') == 450 /\
    Circle.xVel (St.ball acc') == -5 /\
    ~ 0 < Circle.xVel (St.ball acc') /\
    Rect.xPos (St.paddleOne acc') == 30 /\
    Rect.xPos (St.paddleTwo acc') == 850.
Proof.
  do 4 eexists.
  split; [vm_compute; reflexivity|].
  split.
  { eapply (runGame_reachable zeroDraws
              (lostRallies 3 ++ repeat keyQ 7 ++ repeat (Tick 0) 80)%list).
    - apply Forall_app. split; [apply Forall_mapped_lostRallies|].
      apply Forall_app.
      split; apply Forall_mapped_repeat; [apply mapped_shrink | apply mapped_tick].
    - vm_compute. reflexivity. }
  repeat (split; [vm_compute; first [reflexivity | intros H; discriminate H]|]).
  vm_compute; reflexivity.
Qed.

(** C7 fails as stated: the ball at the centre (450,300) with velocity
    (-5,0) does not touch the player's paddle, which spans x[30,50]; the
    step returns it at (445,300) with the horizontal velocity still -5, and
    makes no draw. *)
Lemma ball_at_centre_is_not_reflected :
  exists b',
    movingBallState zeroDraws (ball 450 300 (-5) 0 None)
      (playerPaddle 255 0 4%Z 90) (aiPaddle 255 0 4%Z 90) 0%nat
    = Some (b', 0%nat) /\
    Circle.xPos b' == 445 /\
    Circle.xVel b' == -5 /\
    ~ Circle.xVel b' == 5.
Proof.
  eexists. split; [reflexivity|].
  split; [reflexivity|]. split; [reflexivity|]. discriminate.
Qed.

(** C9: a shrink takes its amount from the height of the paddle it is
    applied to, whatever the height and the energy of that paddle; the
    reducer applies it to the AI paddle when the player has energy; and
    after three rallies lost (energy 7) seven shrinks bring the height of
    the AI paddle from 90 to -15, the energy to 0. *)
Theorem shrink_has_no_floor (random : nat -> Q) (person : paddleGenerator)
  (prev : RectBody) (size : Q) (ball : option CircleBody) (acc : State)
  (i : nat) :
  (Text.numeric (St.playerEnergy acc) > 0)%Z ->
  makePaddleState person prev (Key (PaddleShrink size)) ball i
  = Some (person (Rect.yPos prev) (Rect.yVel prev) (Rect.energy prev)
            (Rect.ySize prev - size), i)
  /\
  returns (gameObserver random acc (Key (PaddleShrink size))) i
    (fun acc' =>
       St.paddleTwo acc'
       = aiPaddle (Rect.yPos (St.paddleTwo acc)) (Rect.yVel (St.paddleTwo acc))
           (Rect.energy (St.paddleTwo acc)) (Rect.ySize (St.paddleTwo acc) - size)
       /\ Text.numeric (St.playerEnergy acc')
          = (Text.numeric (St.playerEnergy acc) - 1)%Z)
  /\
  exists mid k st j,
    runGame zeroDraws (lostRallies 3) 0%nat = Some (mid, k) /\
    Text.numeric (St.playerEnergy mid) = 7%Z /\
    Rect.ySize (St.paddleTwo mid) == 90 /\
    Forall mapped (lostRallies 3 ++ repeat keyQ 7)%list /\
    runGame zeroDraws (lostRallies 3 ++ repeat keyQ 7)%list 0%nat = Some (st, j) /\
    Text.numeric (St.playerEnergy st) = 0%Z /\
    Rect.ySize (St.paddleTwo st) == -15 /\
    Rect.ySize (St.paddleTwo st) <= 0.
Proof.
  intros He. split; [reflexivity|]. split.
  - apply Z.gt_lt, Z.gtb_lt in He.
    destruct (shrink_step_returns random acc size i He)
      as (p1 & b & j & _ & _ & H).
    exists (createState p1
              (aiPaddle (Rect.yPos (St.paddleTwo acc)) (Rect.yVel (St.paddleTwo acc))
                 (Rect.energy (St.paddleTwo acc))
                 (Rect.ySize (St.paddleTwo acc) - size))
              b (St.scoreOne acc) (St.scoreTwo acc)
              (playerEnergy (Text.numeric (St.playerEnergy acc) - 1)%Z) None), j.
    split; [exact H | split; reflexivity].
  - do 4 eexists.
    split; [vm_compute; reflexivity|].
    split; [vm_compute; reflexivity|].
    split; [vm_compute; reflexivity|].
    split.
    { apply Forall_app. split; [apply Forall_mapped_lostRallies|].
      apply Forall_mapped_repeat, mapped_shrink. }
    split; [vm_compute; reflexivity|].
    split; [vm_compute; reflexivity|].
    split; [vm_compute; reflexivity|].
    vm_compute. discriminate.
Qed.

(** ** The theorems at concrete inputs *)

Lemma paddles_between_walls_witness :
  exists s0 k,
    defaultEverythingState zeroDraws 0%nat = Some (s0, k) /\
    returns (gameObserver zeroDraws s0 keyDownArrow) k
      (fun acc' => inBounds (St.paddleTwo acc') /\ inBounds (St.paddleOne acc')).
Proof.
  eexists; eexists. split; [reflexivity|].
  lazymatch goal with
  | |- returns (gameObserver _ ?s0 _) ?k _ =>
      destruct (paddles_between_walls zeroDraws s0 keyDownArrow k
                  (reachable_seed zeroDraws 0%nat s0 k eq_refl) mapped_down)
        as (acc' & j & H & Hai & Hp)
  end.
  exists acc', j. split; [exact H|]. split; [exact Hai|].
  apply Hp; [unfold inBounds; cbn; split; discriminate | reflexivity].
Defined.

Lemma energy_gate_witness :
  exists acc i,
    runGame zeroDraws (repeat keyE 4) 0%nat = Some (acc, i) /\
    Text.numeric (St.playerEnergy acc) = 0%Z /\
    returns (gameObserver zeroDraws acc (Tick 0)) i
      (fun acc' => (0 <= Text.numeric (St.playerEnergy acc'))%Z
                   /\ (0 <= Rect.energy (St.paddleOne acc'))%Z) /\
    gameObserver zeroDraws acc keyE i = gameObserver zeroDraws acc (Tick 0) i /\
    gameObserver zeroDraws acc keyR i = gameObserver zeroDraws acc (Tick 0) i /\
    gameObserver zeroDraws acc keyQ i
    = createStandardParseState zeroDraws acc (Key (Movement 0 0)) 0 i /\
    returns (gameObserver zeroDraws acc keyE) i
      (fun acc' => Text.numeric (St.playerEnergy acc') = 0%Z
                   /\ Rect.energy (St.paddleOne acc') = 0%Z).
Proof.
  eexists; eexists. split; [vm_compute; reflexivity|]. split; [reflexivity|].
  lazymatch goal with
  | |- returns (gameObserver _ ?acc _) ?i _ /\ _ =>
      destruct (energy_gate zeroDraws acc i) as [Hpos Hzero];
        [eapply (runGame_reachable zeroDraws (repeat keyE 4));
         [apply Forall_mapped_repeat, mapped_grow | vm_compute; reflexivity]|]
  end.
  destruct (Hzero eq_refl) as (Hgrow & Htele & Hshrink & Hkeep).
  split; [apply Hpos, mapped_tick|].
  split; [apply Hgrow|]. split; [apply Htele|]. split; [apply Hshrink|].
  apply Hkeep; [reflexivity | right; discriminate].
Defined.

Lemma winner_marked_at_threshold_witness :
  exists acc' j,
    gameObserver zeroDraws (sampleState (ball 450 300 5 0 None) 7 3 4) (Tick 0) 0%nat
    = Some (acc', j) /\
    wonBy (sampleState (ball 450 300 5 0 None) 7 3 4) side_p acc' /\
    returns (gameObserver zeroDraws acc' (Tick 1)) j (wonBy acc' side_p) /\
    game zeroDraws (sampleState (ball 450 300 5 0 None) 7 3 4)
      [Tick 0; keyQ; Tick 2] 0%nat = Some (acc', j).
Proof.
  destruct (winner_marked_at_threshold zeroDraws
              (sampleState (ball 450 300 5 0 None) 7 3 4) (Tick 0) 0%nat side_p 0%Z
              eq_refl eq_refl eq_refl (or_introl (conj eq_refl eq_refl)))
    as (acc' & j & H & Hw & Hp & Hg).
  exists acc', j. split; [exact H|]. split; [exact Hw|].
  split; [apply Hp; reflexivity | apply Hg].
Defined.

Lemma player_scored_step_witness :
  returns (gameObserver zeroDraws
             (sampleState (ball 880 300 0 0 (Some side_p)) 0 0 4) (Tick 0)) 0%nat
    (fun acc' =>
       Circle.xVel (St.ball acc') == -5 /\
       Text.numeric (St.scoreOne acc') = 1%Z /\
       Rect.energy (St.paddleOne acc') = 4%Z /\
       Text.numeric (St.playerEnergy acc') = 4%Z).
Proof.
  destruct (player_scored_step zeroDraws
              (sampleState (ball 880 300 0 0 (Some side_p)) 0 0 4) (Tick 0) 0%nat
              eq_refl eq_refl eq_refl)
    as (acc' & j & H & Hp1 & Hen & Hp2 & Hx & Hy & Hvx & Hleft & Hvy & Hm & Hs1
        & Hs2 & Hlab & Hw).
  exists acc', j. split; [exact H|].
  split; [exact Hvx|]. split; [now rewrite Hs1|].
  split; [apply (Hen eq_refl) | exact Hlab].
Defined.

Lemma cpu_scored_step_witness :
  returns (gameObserver zeroDraws
             (sampleState (ball 20 300 0 0 (Some side_c)) 0 0 4) (Tick 0)) 0%nat
    (fun acc' =>
       Text.numeric (St.scoreTwo acc') = 1%Z /\
       Text.numeric (St.playerEnergy acc') = 5%Z /\
       Rect.energy (St.paddleOne acc') = 5%Z /\
       Rect.energy (St.paddleTwo acc') = 4%Z).
Proof.
  destruct (cpu_scored_step zeroDraws
              (sampleState (ball 20 300 0 0 (Some side_c)) 0 0 4) (Tick 0) 0%nat
              eq_refl eq_refl eq_refl)
    as (acc' & j & H & Hs2 & Hs1 & Hlab & Hp1 & Hp2).
  exists acc', j. split; [exact H|]. repeat split; assumption.
Defined.

Lemma wall_bounce_reflects_witness :
  returns (movingBallState zeroDraws (ball 450 20 5 (-3) None)
             (playerPaddle 255 0 4%Z 90) (aiPaddle 255 0 4%Z 90)) 0%nat
    (fun b' =>
       Circle.yVel b' == 3 /\ Circle.yPos b' == 23 /\
       Circle.xVel b' == 5 /\ Circle.xPos b' == 455).
Proof.
  destruct (wall_bounce_reflects zeroDraws (ball 450 20 5 (-3) None)
              (playerPaddle 255 0 4%Z 90) (aiPaddle 255 0 4%Z 90) 0%nat)
    as (b' & j & H & Hvy & Hy & Hvx & Hx & Hm).
  - reflexivity.
  - reflexivity.
  - left. split; [discriminate | reflexivity].
  - exists b', j. split; [exact H|].
    rewrite Hvy, Hy, Hvx, Hx. repeat split; reflexivity.
Defined.

Lemma player_paddle_bounce_witness :
  returns (movingBallState zeroDraws (ball 60 300 (-5) 0 None)
             (playerPaddle 255 0 4%Z 90) (aiPaddle 255 0 4%Z 90)) 0%nat
    (fun b' => Circle.xVel b' == 5 /\ Circle.yVel b' == 0).
Proof.
  destruct (player_paddle_bounce zeroDraws (ball 60 300 (-5) 0 None)
              (playerPaddle 255 0 4%Z 90) (aiPaddle 255 0 4%Z 90) 0%nat)
    as (b' & j & H & Hvx & Hvy).
  - reflexivity.
  - reflexivity.
  - left. reflexivity.
  - left. reflexivity.
  - discriminate.
  - discriminate.
  - left. split; discriminate.
  - reflexivity.
  - reflexivity.
  - exists b', j. split; [exact H|].
    rewrite Hvx, Hvy. split; reflexivity.
Defined.


Lemma shrink_has_no_floor_witness :
  makePaddleState aiPaddle (aiPaddle 255 0 0%Z 10) (Key (PaddleShrink 15)) None 0%nat
  = Some (aiPaddle 255 0 0%Z (10 - 15), 0%nat)
  /\
  returns (gameObserver zeroDraws (sampleState (ball 450 300 5 0 None) 0 0 4) keyQ)
    0%nat
    (fun acc' => Rect.ySize (St.paddleTwo acc') == 75
                 /\ Text.numeric (St.playerEnergy acc') = 3%Z).
Proof.
  destruct (shrink_has_no_floor zeroDraws aiPaddle (aiPaddle 255 0 0%Z 10) 15 None
              (sampleState (ball 450 300 5 0 None) 0 0 4) 0%nat)
    as (Hpad & (acc' & j & H & Hp2 & Hlab) & _).
  - reflexivity.
  - split; [exact Hpad|].
    exists acc', j. split; [exact H|]. rewrite Hp2, Hlab. split; reflexivity.
Defined.

Lemma teleport_takes_ball_position_and_velocity_witness :
  returns (makePaddleState playerPaddle (playerPaddle 255 0 4%Z 90) (Key Teleport)
             (Some (ball 450 123 5 (-2) None))) 0%nat
    (fun r => Rect.yPos r = 123 /\ Rect.yVel r = -2 /\
              Rect.energy r = 3%Z /\ Rect.ySize r = 90)
  /\
  returns (gameObserver zeroDraws (sampleState (ball 450 123 5 (-2) None) 0 0 4) keyR)
    0%nat
    (fun acc' =>
       Rect.yPos (St.paddleOne acc') = 123 /\
       Rect.yVel (St.paddleOne acc') = -2 /\
       Rect.energy (St.paddleOne acc') = 3%Z /\
       Rect.ySize (St.paddleOne acc') = 90 /\
       Text.numeric (St.playerEnergy acc') = 3%Z).
Proof.
  apply (teleport_takes_ball_position_and_velocity zeroDraws "PaddlePlayer"
           (Constants.sideBound + 20) getRageColour Constants.paddleXWidth
           (playerPaddle 255 0 4%Z 90) (ball 450 123 5 (-2) None)
           (sampleState (ball 450 123 5 (-2) None) 0 0 4) 0%nat);
    reflexivity.
Defined.

(** * Further properties of the code *)

(** ** Paddle movement *)

Lemma movingPaddleState_zero (name : string) (xPosition : Q)
  (colouring : Z -> string) (width : Q) (paddle : RectBody) :
  let r := movingPaddleState (genericPaddle name xPosition colouring width) paddle 0 in
  Rect.yPos r == Rect.yPos paddle /\ Rect.yVel r = 0 /\
  Rect.ySize r = Rect.ySize paddle /\ Rect.energy r = Rect.energy paddle.
Proof.
  unfold movingPaddleState.
  repeat split_cmp; cbn [andb orb negb]; cbn; repeat split;
    try reflexivity; try lra.
Qed.

(** X1: a move of velocity 0 (the action of a key release) returns the
    paddle where it is with velocity 0, whatever its position, also beyond
    the walls; height and energy are kept. *)
Theorem key_release_stops_paddle (name : string) (xPosition : Q)
  (colouring : Z -> string) (width : Q) (paddle : RectBody) :
  let r := movingPaddleState (genericPaddle name xPosition colouring width) paddle 0 in
  Rect.yPos r == Rect.yPos paddle /\ Rect.yVel r = 0 /\
  Rect.ySize r = Rect.ySize paddle /\ Rect.energy r = Rect.energy paddle.
Proof.
  unfold movingPaddleState.
  repeat split_cmp; cbn [andb orb negb]; cbn; repeat split;
    try reflexivity; try lra.
Qed.

(** X2: a paddle no taller than the field that is on or beyond a wall is
    never moved further out: from the bottom bound or below it the result
    lies between the top wall and the old position, from the top bound or
    above it between the old position and the bottom bound. *)
Theorem paddle_never_moves_further_out (name : string) (xPosition : Q)
  (colouring : Z -> string) (width : Q) (below above : RectBody)
  (velBelow velAbove : Q) :
  Constants.topBound <= lowest below -> lowest below <= Rect.yPos below ->
  Constants.topBound <= lowest above -> Rect.yPos above <= Constants.topBound ->
  (let r := movingPaddleState (genericPaddle name xPosition colouring width)
              below velBelow in
   Constants.topBound <= Rect.yPos r /\ Rect.yPos r <= Rect.yPos below)
  /\
  (let r := movingPaddleState (genericPaddle name xPosition colouring width)
              above velAbove in
   Rect.yPos above <= Rect.yPos r /\ Rect.yPos r <= lowest above).
Proof.
  unfold lowest, movingPaddleState. intros Hb1 Hb2 Ha1 Ha2. split.
  - repeat split_cmp; cbn [andb orb negb]; cbn; unfold_constants; split; lra.
  - repeat split_cmp; cbn [andb orb negb]; cbn; unfold_constants; split; lra.
Qed.

Lemma paddle_never_moves_further_out_witness :
  (let r := movingPaddleState playerPaddle (playerPaddle 475 0 3%Z 120) 5 in
   Constants.topBound <= Rect.yPos r /\ Rect.yPos r <= 475)
  /\
  (let r := movingPaddleState playerPaddle (playerPaddle 0 0 4%Z 90) (-5) in
   0 <= Rect.yPos r /\ Rect.yPos r <= lowest (playerPaddle 0 0 4%Z 90)).
Proof.
  apply (paddle_never_moves_further_out "PaddlePlayer"
           (Constants.sideBound + 20) getRageColour Constants.paddleXWidth
           (playerPaddle 475 0 3%Z 120) (playerPaddle 0 0 4%Z 90) 5 (-5));
    cbn; discriminate.
Defined.

(** X3: a paddle no taller than the field moves in the direction asked and
    by no more than the speed asked (a clamped move is shorter), and leaves
    with the velocity asked or with velocity 0. *)
Theorem paddle_step_is_bounded (name : string) (xPosition : Q)
  (colouring : Z -> string) (width : Q) (paddle : RectBody)
  (velDown velUp : Q) :
  Constants.topBound <= lowest paddle -> 0 <= velDown -> velUp <= 0 ->
  (let r := movingPaddleState (genericPaddle name xPosition colouring width)
              paddle velDown in
   Rect.yPos paddle <= Rect.yPos r /\ Rect.yPos r <= Rect.yPos paddle + velDown
   /\ (Rect.yVel r = velDown \/ Rect.yVel r = 0))
  /\
  (let r := movingPaddleState (genericPaddle name xPosition colouring width)
              paddle velUp in
   Rect.yPos paddle + velUp <= Rect.yPos r /\ Rect.yPos r <= Rect.yPos paddle
   /\ (Rect.yVel r = velUp \/ Rect.yVel r = 0)).
Proof.
  unfold lowest, movingPaddleState. intros Hh Hd Hu. split.
  - repeat split_cmp; cbn [andb orb negb]; cbn; unfold_constants;
      (split; [lra | split; [lra | auto]]).
  - repeat split_cmp; cbn [andb orb negb]; cbn; unfold_constants;
      (split; [lra | split; [lra | auto]]).
Qed.

Lemma paddle_step_is_bounded_witness :
  (let r := movingPaddleState playerPaddle (playerPaddle 498 0 4%Z 90) 5 in
   498 <= Rect.yPos r /\ Rect.yPos r <= 498 + 5
   /\ (Rect.yVel r = 5 \/ Rect.yVel r = 0))
  /\
  (let r := movingPaddleState playerPaddle (playerPaddle 498 0 4%Z 90) (-5) in
   498 + -5 <= Rect.yPos r /\ Rect.yPos r <= 498
   /\ (Rect.yVel r = -5 \/ Rect.yVel r = 0)).
Proof.
  apply (paddle_step_is_bounded "PaddlePlayer" (Constants.sideBound + 20)
           getRageColour Constants.paddleXWidth (playerPaddle 498 0 4%Z 90) 5 (-5));
    cbn; discriminate.
Defined.

(** ** The paddle under every kind of event *)

(** X4: [makePaddleState] fails (a TypeError on [ball.yPos]) exactly when a
    teleport finds energy and no ball was passed; in every other case it
    returns a paddle and makes no draw. *)
Theorem makePaddleState_fails_only_without_ball (person : paddleGenerator)
  (prev : RectBody) (s : Event) (ball : option CircleBody) (i : nat) :
  (makePaddleState person prev s ball i = None
   <-> s = Key Teleport /\ (Rect.energy prev > 0)%Z /\ ball = None)
  /\ (forall r j, makePaddleState person prev s ball i = Some (r, j) -> j = i).
Proof.
  split; [split|].
  - unfold makePaddleState, ret, throwTypeError.
    destruct s as [n|[y x|size| |size|]]; try discriminate;
      destruct (Rect.energy prev >? 0)%Z eqn:He; try discriminate.
    destruct ball; [discriminate|].
    intros _. apply Z.gtb_lt in He. repeat split. lia.
  - intros (-> & He & ->). unfold makePaddleState.
    apply Z.gt_lt, Z.gtb_lt in He. now rewrite He.
  - intros r j. unfold makePaddleState, ret, throwTypeError.
    destruct s as [n|[y x|size| |size|]];
      try destruct (Rect.energy prev >? 0)%Z; try destruct ball;
      intros H; try discriminate H; now injection H.
Qed.

(** X5: whatever the event, the paddle returned by [makePaddleState] has
    the energy of the previous paddle or one unit less, and one unit less
    only when the previous energy was positive: an energy that is not
    negative stays so. *)
Theorem makePaddleState_energy_step (name : string) (xPosition : Q)
  (colouring : Z -> string) (width : Q) (prev : RectBody) (s : Event)
  (b : CircleBody) (i : nat) :
  returns (makePaddleState (genericPaddle name xPosition colouring width) prev s
             (Some b)) i
    (fun r => (Rect.energy r = Rect.energy prev
               \/ (Rect.energy r = Rect.energy prev - 1 /\ 0 < Rect.energy prev))%Z).
Proof.
  unfold returns, makePaddleState, ret.
  destruct s as [n|[y x|size| |size|]];
    try destruct (Rect.energy prev >? 0)%Z eqn:He;
    eexists; eexists; (split; [reflexivity|]);
    try (left; apply movingPaddleState_energy);
    try (left; reflexivity);
    right; apply Z.gtb_lt in He; (split; [reflexivity | exact He]).
Qed.

(** ** The AI controller *)

(** X6: the step of the AI paddle (the move chosen by [followBall], applied
    by [movingPaddleState]) never takes a paddle that lies between the
    walls away from the ball: with the ball below the paddle's centre the
    paddle goes down by at most 7, with the ball above it goes up by at
    most 7, with the ball level it stays; and it stays between the
    walls. *)
Theorem ai_step_chases_the_ball (paddle : RectBody) (below above level : CircleBody) :
  inBounds paddle ->
  paddleCentre paddle < Circle.yPos below ->
  Circle.yPos above < paddleCentre paddle ->
  Circle.yPos level == paddleCentre paddle ->
  (exists vel,
      followBall paddle below = Movement vel 0 /\
      let r := movingPaddleState aiPaddle paddle vel in
      Rect.yPos paddle <= Rect.yPos r /\ Rect.yPos r <= Rect.yPos paddle + 7
      /\ inBounds r)
  /\
  (exists vel,
      followBall paddle above = Movement vel 0 /\
      let r := movingPaddleState aiPaddle paddle vel in
      Rect.yPos paddle - 7 <= Rect.yPos r /\ Rect.yPos r <= Rect.yPos paddle
      /\ inBounds r)
  /\
  (exists vel,
      followBall paddle level = Movement vel 0 /\
      let r := movingPaddleState aiPaddle paddle vel in
      Rect.yPos r == Rect.yPos paddle /\ Rect.yVel r = 0 /\ inBounds r).
Proof.
  unfold paddleCentre. intros Hin Hb Ha Hl.
  assert (forall vel, inBounds (movingPaddleState aiPaddle paddle vel)) as Hkeep
    by (intros vel; unfold aiPaddle; now apply movingPaddleState_inBounds).
  repeat split.
  - unfold followBall. apply Qltb_true in Hb. rewrite Hb.
    eexists. split; [reflexivity|]. cbv zeta.
    split; [|split; [|apply Hkeep]];
      unfold inBounds, movingPaddleState in *; destruct Hin;
      repeat split_cmp; cbn [andb orb negb]; cbn; unfold_constants; lra.
  - unfold followBall.
    assert ((Rect.yPos paddle + Rect.ySize paddle / 2 <? Circle.yPos above) = false)
      as -> by (apply Qltb_false; lra).
    apply Qltb_true in Ha. rewrite Ha.
    eexists. split; [reflexivity|]. cbv zeta.
    split; [|split; [|apply Hkeep]];
      unfold inBounds, movingPaddleState in *; destruct Hin;
      repeat split_cmp; cbn [andb orb negb]; cbn; unfold_constants; lra.
  - unfold followBall.
    assert ((Rect.yPos paddle + Rect.ySize paddle / 2 <? Circle.yPos level) = false)
      as -> by (apply Qltb_false; lra).
    assert ((Circle.yPos level <? Rect.yPos paddle + Rect.ySize paddle / 2) = false)
      as -> by (apply Qltb_false; lra).
    eexists. split; [reflexivity|]. cbv zeta.
    split; [|split; [|apply Hkeep]].
    + apply (movingPaddleState_zero "PaddleAI" _ _ _ paddle).
    + apply (movingPaddleState_zero "PaddleAI" _ _ _ paddle).
Qed.

Lemma ai_step_chases_the_ball_witness :
  (exists vel,
      followBall (aiPaddle 255 0 4%Z 90) (ball 450 400 5 0 None) = Movement vel 0 /\
      let r := movingPaddleState aiPaddle (aiPaddle 255 0 4%Z 90) vel in
      255 <= Rect.yPos r /\ Rect.yPos r <= 255 + 7 /\ inBounds r)
  /\
  (exists vel,
      followBall (aiPaddle 255 0 4%Z 90) (ball 450 100 5 0 None) = Movement vel 0 /\
      let r := movingPaddleState aiPaddle (aiPaddle 255 0 4%Z 90) vel in
      255 - 7 <= Rect.yPos r /\ Rect.yPos r <= 255 /\ inBounds r)
  /\
  (exists vel,
      followBall (aiPaddle 255 0 4%Z 90) (ball 450 300 5 0 None) = Movement vel 0 /\
      let r := movingPaddleState aiPaddle (aiPaddle 255 0 4%Z 90) vel in
      Rect.yPos r == 255 /\ Rect.yVel r = 0 /\ inBounds r).
Proof.
  apply (ai_step_chases_the_ball (aiPaddle 255 0 4%Z 90) (ball 450 400 5 0 None)
           (ball 450 100 5 0 None) (ball 450 300 5 0 None)).
  - unfold inBounds; cbn; split; discriminate.
  - reflexivity.
  - reflexivity.
  - reflexivity.
Defined.

(** ** The ball *)

(** Division by a constant, as a product, for [lra]. *)
Ltac div_by_constants :=
  unfold Qdiv in *;
  change (/ 2) with (1 # 2) in *;
  change (/ 3) with (1 # 3) in *;
  change (/ 8) with (1 # 8) in *.

(** X7: the physics step marks "cpu-scored" exactly when the ball's left
    edge is on or past the left wall, and "player-scored" exactly when it is
    not and the right edge is on or past the right wall, whatever the
    paddles and the velocity; a marked ball is returned where it was with
    velocity (0,0). *)
Theorem score_marker_follows_the_side_walls (random : nat -> Q) (b : CircleBody)
  (player cpu : RectBody) (i : nat) :
  returns (movingBallState random b player cpu) i
    (fun b' =>
       (Circle.scoreUpdate b' = Some side_c
        <-> Circle.xPos b - Circle.radius b <= Constants.sideBound) /\
       (Circle.scoreUpdate b' = Some side_p
        <-> Constants.sideBound < Circle.xPos b - Circle.radius b
            /\ Constants.canvasRight - Constants.sideBound
               <= Circle.xPos b + Circle.radius b) /\
       (Circle.scoreUpdate b' <> None ->
        Circle.xVel b' = 0 /\ Circle.yVel b' = 0 /\
        Circle.xPos b' = Circle.xPos b /\ Circle.yPos b' = Circle.yPos b)).
Proof.
  unfold returns, movingBallState.
  destruct (Circle.xPos b - Circle.radius b <=? Constants.sideBound) eqn:Hl;
    [apply Qleb_true in Hl | apply Qleb_false in Hl].
  { eexists; eexists; split; [reflexivity|]. cbn.
    repeat split; try tauto; try discriminate; intros; lra. }
  destruct (Circle.xPos b + Circle.radius b
            >=? Constants.canvasRight - Constants.sideBound) eqn:Hr;
    [apply Qleb_true in Hr | apply Qleb_false in Hr].
  { eexists; eexists; split; [reflexivity|]. cbn.
    repeat split; try tauto; try discriminate; intros; lra. }
  repeat split_if; unfold bind, calculateBallVel, Math_random, ret;
    eexists; eexists; (split; [reflexivity|]); cbn;
    (split; [split; [discriminate | intros; lra]|]);
    (split; [split; [discriminate | intros [? ?]; lra]|]);
    intros H; now contradiction H.
Qed.

(** X8: a ball of the standard radius that the physics step has marked is
    returned unchanged, marker included, by every later physics step,
    whatever the paddles: the point waits until the reducer counts it. *)
Theorem marked_ball_stays_marked (random : nat -> Q) (b : CircleBody)
  (player cpu : RectBody) (i : nat) :
  Circle.radius b = Constants.ballRadius ->
  returns (movingBallState random b player cpu) i
    (fun b' =>
       Circle.scoreUpdate b' <> None ->
       forall random' player' cpu' i',
         movingBallState random' b' player' cpu' i' = Some (b', i')).
Proof.
  intros Hrad. unfold returns, movingBallState. rewrite Hrad.
  destruct (Circle.xPos b - Constants.ballRadius <=? Constants.sideBound) eqn:Hl.
  { eexists; eexists; split; [reflexivity|]. intros _ random' player' cpu' i'.
    cbn [ball Circle.xPos Circle.yPos Circle.radius]. now rewrite Hl. }
  destruct (Circle.xPos b + Constants.ballRadius
            >=? Constants.canvasRight - Constants.sideBound) eqn:Hr.
  { eexists; eexists; split; [reflexivity|]. intros _ random' player' cpu' i'.
    cbn [ball Circle.xPos Circle.yPos Circle.radius]. now rewrite Hl, Hr. }
  repeat split_if; unfold bind, calculateBallVel, Math_random, ret;
    eexists; eexists; (split; [reflexivity|]); cbn;
    intros H; now contradiction H.
Qed.

Lemma marked_ball_stays_marked_witness :
  returns (movingBallState zeroDraws (ball 20 300 (-5) 0 None)
             (playerPaddle 500 0 4%Z 90) (aiPaddle 255 0 4%Z 90)) 0%nat
    (fun b' =>
       movingBallState zeroDraws b' (playerPaddle 255 0 4%Z 90)
         (aiPaddle 255 0 4%Z 90) 7%nat = Some (b', 7%nat)).
Proof.
  destruct (marked_ball_stays_marked zeroDraws (ball 20 300 (-5) 0 None)
              (playerPaddle 500 0 4%Z 90) (aiPaddle 255 0 4%Z 90) 0%nat eq_refl)
    as (b' & j & H & Hkeep).
  exists b', j. split; [exact H|].
  apply Hkeep. injection H as <- _. discriminate.
Defined.

(** X9: with draws that are not negative, whenever the physics step turns
    a moving ball back (the returned horizontal velocity is the opposite of
    the incoming one) the ball leaves the paddle level or downwards: the
    new vertical velocity is at least 0 and the ball is not higher than
    before, wherever it met the paddle. *)
Theorem returned_ball_never_goes_up (random : nat -> Q) (b : CircleBody)
  (player cpu : RectBody) (i : nat) :
  (forall n, 0 <= random n) -> ~ Circle.xVel b == 0 ->
  returns (movingBallState random b player cpu) i
    (fun b' =>
       Circle.xVel b' == - Circle.xVel b ->
       0 <= Circle.yVel b' /\ Circle.yPos b <= Circle.yPos b').
Proof.
  intros Hpos Hx. unfold returns, movingBallState.
  pose proof (Hpos i) as H1. pose proof (Hpos (S i)) as H2.
  repeat split_if; unfold bind, calculateBallVel, Math_random, ret;
    eexists; eexists; (split; [reflexivity|]); cbn;
    intros Hturn; try (exfalso; apply Hx; lra);
    repeat split_cmp; unfold_constants; div_by_constants; split; lra.
Qed.

Lemma returned_ball_never_goes_up_witness :
  returns (movingBallState zeroDraws (ball 60 330 (-5) (-2) None)
             (playerPaddle 255 0 4%Z 90) (aiPaddle 255 0 4%Z 90)) 0%nat
    (fun b' => 0 <= Circle.yVel b' /\ 330 <= Circle.yPos b').
Proof.
  destruct (returned_ball_never_goes_up zeroDraws (ball 60 330 (-5) (-2) None)
              (playerPaddle 255 0 4%Z 90) (aiPaddle 255 0 4%Z 90) 0%nat)
    as (b' & j & H & Hdown).
  - intros n. discriminate.
  - discriminate.
  - exists b', j. split; [exact H|].
    apply Hdown. injection H as <- _. reflexivity.
Defined.

(** X10: with draws in [0,1), a ball built by [genericDefaultBall] is at
    the centre (450,300), has horizontal velocity [multiplierX * 5] and
    vertical velocity [multiplierY * z] for an integer [z] between -3 and
    4, carries no marker, and two draws are made. *)
Theorem fresh_ball_speed_range (random : nat -> Q) (mx my : Q) (i : nat) :
  validDraws random ->
  exists b z,
    genericDefaultBall random mx my i = Some (b, S (S i)) /\
    Circle.xPos b == 450 /\ Circle.yPos b == 300 /\
    Circle.xVel b = mx * Constants.ballBaseXSpeed /\
    Circle.yVel b = my * inject_Z z /\ (-3 <= z <= 4)%Z /\
    Circle.scoreUpdate b = None.
Proof.
  intros Hv. rewrite genericDefaultBall_returns.
  eexists; eexists. split; [reflexivity|]. cbn.
  repeat split; try reflexivity.
  - destruct (Hv (S i)) as [H0 H1].
    set (y := (if random i >? 1 # 2
               then Constants.ballBaseYSpeed * random (S i) / 2
               else - Constants.ballBaseYSpeed * random (S i) / 3) + (1 # 2)).
    assert (-(13 # 6) < y) as Hlo
      by (unfold y; split_if; unfold_constants; div_by_constants; lra).
    clearbody y. pose proof (Qlt_floor y) as Hf.
    rewrite inject_Z_plus in Hf. change (inject_Z 1) with 1 in Hf.
    assert (-(19 # 6) < inject_Z (Qfloor y)) as Hz by lra.
    unfold Qlt in Hz. cbn in Hz. lia.
  - destruct (Hv (S i)) as [H0 H1].
    set (y := (if random i >? 1 # 2
               then Constants.ballBaseYSpeed * random (S i) / 2
               else - Constants.ballBaseYSpeed * random (S i) / 3) + (1 # 2)).
    assert (y < 9 # 2) as Hhi
      by (unfold y; split_if; unfold_constants; div_by_constants; lra).
    clearbody y. pose proof (Qfloor_le y) as Hf.
    assert (inject_Z (Qfloor y) < 9 # 2) as Hz by lra.
    unfold Qlt in Hz. cbn in Hz. lia.
Qed.

Lemma fresh_ball_speed_range_witness :
  exists b z,
    genericDefaultBall zeroDraws (-1) 1 0%nat = Some (b, 2%nat) /\
    Circle.xPos b == 450 /\ Circle.yPos b == 300 /\
    Circle.xVel b = -1 * Constants.ballBaseXSpeed /\
    Circle.yVel b = 1 * inject_Z z /\ (-3 <= z <= 4)%Z /\
    Circle.scoreUpdate b = None.
Proof.
  apply (fresh_ball_speed_range zeroDraws (-1) 1 0%nat).
  intros n. split; [discriminate | reflexivity].
Defined.

(** ** The counters of the reducer *)

(** X11: on every state and every event the reducer updates the three
    counters as follows: the player's score grows by 1 exactly when the
    point of the player is counted, the CPU's score by 1 exactly when the
    point of the CPU is counted, and the energy label loses 1 for an
    ability that finds energy and gains 1 with a point of the CPU. *)
Theorem counters_step (random : nat -> Q) (acc : State) (s : Event) (i : nat) :
  returns (gameObserver random acc s) i
    (fun acc' =>
       Text.numeric (St.scoreOne acc')
       = (Text.numeric (St.scoreOne acc)
          + (if countsPoint acc s side_p then 1 else 0))%Z /\
       Text.numeric (St.scoreTwo acc')
       = (Text.numeric (St.scoreTwo acc)
          + (if countsPoint acc s side_c then 1 else 0))%Z /\
       Text.numeric (St.playerEnergy acc')
       = (Text.numeric (St.playerEnergy acc)
          - (if usesEnergy acc s then 1 else 0)
          + (if countsPoint acc s side_c then 1 else 0))%Z).
Proof.
  destruct (gameObserver_total random acc s i) as (acc' & j & H).
  exists acc', j. split; [exact H|].
  apply gameObserver_branch in H. unfold countsPoint, usesEnergy, instanceofAbility.
  destruct H as [Ha H | size p1 b Ha -> Hpos Hp1 Hb -> | size Ha -> Hle H
                 | Ha Hs Hp -> -> | Ha Hs Hc -> -> | Ha Hs Hn H1 -> ->
                 | Ha Hs Hn H1 H2 -> -> | Ha Hs Hn H1 H2 H].
  - destruct (createStandardParseState_returns random acc s 1 i)
      as (p1 & vel & b & j' & _ & _ & _ & Heq).
    rewrite Heq in H. injection H as <- <-. rewrite Ha. cbn.
    unfold abilityFunded in Ha. apply andb_true_iff in Ha as [Hk He].
    rewrite Hk, He. cbn. lia.
  - rewrite Ha. cbn. apply Z.gt_lt, Z.gtb_lt in Hpos. rewrite Hpos. lia.
  - destruct (createStandardParseState_returns random acc (Key (Movement 0 0)) 0 i)
      as (p1 & vel & b & j' & _ & _ & _ & Heq).
    rewrite Heq in H. injection H as <- <-. rewrite Ha. cbn.
    assert ((Text.numeric (St.playerEnergy acc) >? 0)%Z = false) as ->
      by (rewrite Z.gtb_ltb; apply Z.ltb_ge; exact Hle).
    lia.
  - rewrite Ha, Hs, Hp. cbn. unfold abilityFunded in Ha.
    unfold resetState. cbn. rewrite orb_false_r, Ha. lia.
  - rewrite Ha, Hs, Hc. cbn. unfold abilityFunded in Ha.
    unfold resetState. cbn. rewrite orb_false_r, Ha. lia.
  - rewrite Ha, Hs, Hn. cbn. unfold abilityFunded in Ha.
    rewrite orb_false_r, Ha. lia.
  - rewrite Ha, Hs, Hn. cbn. unfold abilityFunded in Ha.
    rewrite orb_false_r, Ha. lia.
  - destruct (createStandardParseState_returns random acc s 0 i)
      as (p1 & vel & b & j' & _ & _ & _ & Heq).
    rewrite Heq in H. injection H as <- <-. rewrite Ha, Hs, Hn. cbn.
    unfold abilityFunded in Ha. rewrite orb_false_r, Ha. lia.
Qed.

(** ** What the bodies of a reachable state look like *)

Lemma movingPaddleState_built (name : string) (xPosition : Q)
  (colouring : Z -> string) (width : Q) (paddle : RectBody) (vel : Q) :
  exists y v,
    movingPaddleState (genericPaddle name xPosition colouring width) paddle vel
    = genericPaddle name xPosition colouring width y v (Rect.energy paddle)
        (Rect.ySize paddle).
Proof.
  unfold movingPaddleState. repeat split_if; eexists; eexists; reflexivity.
Qed.

Lemma player_step_built (s : Event) (b : CircleBody) (i : nat) (p1 : RectBody)
  (y v h : Q) (e : Z) :
  mapped s -> instanceofPaddleShrink s = false -> Constants.paddleYWidth <= h ->
  makePaddleState playerPaddle (playerPaddle y v e h) s (Some b) i = Some (p1, i) ->
  exists y' v' h',
    p1 = playerPaddle y' v'
           (if (instanceofPaddleGrowth s || instanceofTeleport s) && (e >? 0)%Z
            then e - 1 else e)%Z h'
    /\ Constants.paddleYWidth <= h'.
Proof.
  intros Hm Hs Hh H.
  assert (forall vel, exists y' v' h',
             movingPaddleState playerPaddle (playerPaddle y v e h) vel
             = playerPaddle y' v' e h' /\ Constants.paddleYWidth <= h') as Hmove.
  { intros vel.
    destruct (movingPaddleState_built "PaddlePlayer" (Constants.sideBound + 20)
                getRageColour Constants.paddleXWidth (playerPaddle y v e h) vel)
      as (y' & v' & Heq).
    exists y', v', h. split; [exact Heq | exact Hh]. }
  destruct Hm; cbn [makePaddleState keyUpArrow keyDownArrow keyE keyQ keyR
                    keyRelease instanceofPaddleGrowth instanceofTeleport orb andb] in *;
    unfold ret in H;
    try (injection H as <-; apply Hmove).
  - cbn [playerPaddle genericPaddle Rect.energy] in H.
    destruct (e >? 0)%Z; injection H as <-; [|apply Hmove].
    do 3 eexists. split; [reflexivity|].
    unfold_constants. lra.
  - discriminate Hs.
  - cbn [playerPaddle genericPaddle Rect.energy] in H.
    destruct (e >? 0)%Z; injection H as <-; [|apply Hmove].
    do 3 eexists. split; [reflexivity | exact Hh].
Qed.

Lemma ai_step_built (y v h vel : Q) (e : Z) :
  exists y' v', movingPaddleState aiPaddle (aiPaddle y v e h) vel = aiPaddle y' v' e h.
Proof.
  destruct (movingPaddleState_built "PaddleAI"
              (Constants.canvasRight - Constants.paddleXWidth - 20 - Constants.sideBound)
              (fun _ => Constants.uiColour) Constants.paddleXWidth
              (aiPaddle y v e h) vel) as (y' & v' & H).
  exists y', v'. exact H.
Qed.

Lemma standard_step_built (random : nat -> Q) (acc : State) (s : Event)
  (energyDrain : Z) (i : nat) (acc' : State) (j : nat) :
  builtState acc -> mapped s -> instanceofPaddleShrink s = false ->
  energyDrain = (if abilityFunded acc s then 1 else 0)%Z ->
  createStandardParseState random acc s energyDrain i = Some (acc', j) ->
  builtState acc'.
Proof.
  intros (y1 & v1 & h1 & y2 & v2 & h2 & n1 & n2 & e & Hp1 & Hp2 & Hs1 & Hs2
          & Hl & He & Hn1 & Hn2 & Hh1 & Hh2) Hm Hs Hd H.
  destruct (createStandardParseState_returns random acc s energyDrain i)
    as (p1 & vel & b & j' & Hstep & _ & _ & Heq).
  rewrite Heq in H. injection H as <- <-.
  rewrite Hp1 in Hstep.
  destruct (player_step_built s (St.ball acc) i p1 y1 v1 h1 e Hm Hs Hh1 Hstep)
    as (y' & v' & h' & -> & Hh').
  destruct (ai_step_built y2 v2 h2 vel Constants.startingEnergy) as (y'' & v'' & Hai).
  unfold abilityFunded in Hd. rewrite Hl in Hd.
  cbn [playerEnergy genericText Text.numeric] in Hd.
  exists y', v', h', y'', v'', h2, n1, n2.
  exists (if (instanceofPaddleGrowth s || instanceofTeleport s) && (e >? 0)%Z
          then e - 1 else e)%Z.
  cbn [createState St.paddleOne St.paddleTwo St.scoreOne St.scoreTwo St.playerEnergy].
  rewrite Hp2, Hai, Hl, Hd. cbn [playerEnergy genericText Text.numeric].
  repeat split; try assumption.
  - destruct ((instanceofPaddleGrowth s || instanceofTeleport s) && (e >? 0)%Z);
      [reflexivity | now rewrite Z.sub_0_r].
  - destruct ((instanceofPaddleGrowth s || instanceofTeleport s) && (e >? 0)%Z) eqn:E;
      [|assumption].
    apply andb_true_iff in E as [_ E]. apply Z.gtb_lt in E. lia.
Qed.

Lemma gameObserver_built (random : nat -> Q) (acc : State) (s : Event) (i : nat)
  (acc' : State) (j : nat) :
  builtState acc -> mapped s ->
  gameObserver random acc s i = Some (acc', j) -> builtState acc'.
Proof.
  intros Hb Hm H.
  pose proof Hb as (y1 & v1 & h1 & y2 & v2 & h2 & n1 & n2 & e & Hp1 & Hp2 & Hs1
                    & Hs2 & Hl & He & Hn1 & Hn2 & Hh1 & Hh2).
  apply gameObserver_branch in H.
  destruct H as [Ha H | size p1 b Ha -> Hpos Hstep Hball -> | size Ha -> Hle H
                 | Ha Hs Hp -> -> | Ha Hs Hc -> -> | Ha Hs Hn H1 -> ->
                 | Ha Hs Hn H1 H2 -> -> | Ha Hs Hn H1 H2 H].
  - eapply standard_step_built in H; eauto.
    + destruct s as [n|[y x|size| |size|]]; try reflexivity.
      unfold abilityFunded in Ha. discriminate Ha.
    + now rewrite Ha.
  - rewrite Hl in Hpos. cbn [playerEnergy genericText Text.numeric] in Hpos.
    rewrite Hp1 in Hstep. unfold makePaddleState, ret in Hstep.
    cbn [playerPaddle genericPaddle Rect.energy Rect.yPos Rect.yVel Rect.ySize] in Hstep.
    apply Z.gt_lt in Hpos. pose proof Hpos as Hpos'. apply Z.gtb_lt in Hpos'.
    rewrite Hpos' in Hstep. injection Hstep as <-.
    exists y1, v1, h1, y2, v2, (h2 - size), n1, n2, (e - 1)%Z.
    cbn [createState St.paddleOne St.paddleTwo St.scoreOne St.scoreTwo St.playerEnergy].
    rewrite Hp2, Hl. cbn.
    repeat split; try assumption; try lia.
    inversion Hm. subst. unfold_constants. lra.
  - eapply standard_step_built in H; eauto using mapped_release.
  - exists (Rect.yPos defaultPlayerPaddleState), (Rect.yVel defaultPlayerPaddleState),
      (Rect.ySize defaultPlayerPaddleState), (Rect.yPos defaultAiPaddleState),
      (Rect.yVel defaultAiPaddleState), (Rect.ySize defaultAiPaddleState),
      (n1 + 1)%Z, n2, e.
    unfold resetState.
    cbn [createState St.paddleOne St.paddleTwo St.scoreOne St.scoreTwo St.playerEnergy].
    rewrite Hp2, Hl, Hs1. cbn.
    repeat split; try assumption; try lia; discriminate.
  - exists (Rect.yPos defaultPlayerPaddleState), (Rect.yVel defaultPlayerPaddleState),
      (Rect.ySize defaultPlayerPaddleState), (Rect.yPos defaultAiPaddleState),
      (Rect.yVel defaultAiPaddleState), (Rect.ySize defaultAiPaddleState),
      n1, (n2 + 1)%Z, (e + 1)%Z.
    unfold resetState.
    cbn [createState St.paddleOne St.paddleTwo St.scoreOne St.scoreTwo St.playerEnergy].
    rewrite Hp2, Hl, Hs2. cbn.
    repeat split; try assumption; try lia; discriminate.
  - exists (Rect.yPos defaultPlayerPaddleState), (Rect.yVel defaultPlayerPaddleState),
      (Rect.ySize defaultPlayerPaddleState), (Rect.yPos defaultAiPaddleState),
      (Rect.yVel defaultAiPaddleState), (Rect.ySize defaultAiPaddleState),
      n1, n2, e.
    unfold resetState.
    cbn [createState St.paddleOne St.paddleTwo St.scoreOne St.scoreTwo St.playerEnergy].
    rewrite Hp2, Hl. cbn.
    repeat split; try assumption; discriminate.
  - exists (Rect.yPos defaultPlayerPaddleState), (Rect.yVel defaultPlayerPaddleState),
      (Rect.ySize defaultPlayerPaddleState), (Rect.yPos defaultAiPaddleState),
      (Rect.yVel defaultAiPaddleState), (Rect.ySize defaultAiPaddleState),
      n1, n2, e.
    unfold resetState.
    cbn [createState St.paddleOne St.paddleTwo St.scoreOne St.scoreTwo St.playerEnergy].
    rewrite Hp2, Hl. cbn.
    repeat split; try assumption; discriminate.
  - eapply standard_step_built in H; eauto. now rewrite Ha.
Qed.

Lemma reachable_built (random : nat -> Q) (st : State) :
  reachable random st -> builtState st.
Proof.
  induction 1 as [i s0 j H | acc s i acc' j _ IH _ Hm H].
  - unfold defaultEverythingState, defaultBallState2, bind in H.
    rewrite genericDefaultBall_returns in H. injection H as <- _.
    exists (Rect.yPos defaultPlayerPaddleState), (Rect.yVel defaultPlayerPaddleState),
      (Rect.ySize defaultPlayerPaddleState), (Rect.yPos defaultAiPaddleState),
      (Rect.yVel defaultAiPaddleState), (Rect.ySize defaultAiPaddleState),
      0%Z, 0%Z, Constants.startingEnergy.
    cbn. repeat split; discriminate.
  - eapply gameObserver_built; eauto.
Qed.

(** ** The ball of a reachable state *)

Lemma grid_step (x v : Q) (k : Z) :
  x == inject_Z (5 * k) -> 20 < x -> x < 880 -> v == 5 \/ v == -5 ->
  (exists k', x + v == inject_Z (5 * k')) /\
  (exists k', x - v == inject_Z (5 * k')) /\
  20 <= x + v /\ x + v <= 880 /\ 20 <= x - v /\ x - v <= 880.
Proof.
  intros Hk Hlo Hhi Hv.
  assert (4 < k < 176)%Z as Hkk.
  { rewrite Hk in Hlo, Hhi. unfold Qlt, inject_Z, Qnum, Qden in Hlo, Hhi. lia. }
  assert (25 <= x /\ x <= 875) as [H25 H875].
  { rewrite Hk. unfold Qle, inject_Z, Qnum, Qden. lia. }
  assert (inject_Z (5 * (k + 1)) == inject_Z (5 * k) + 5) as Hup
    by (unfold Qeq, Qplus, inject_Z, Qnum, Qden; lia).
  assert (inject_Z (5 * (k - 1)) == inject_Z (5 * k) - 5) as Hdown
    by (unfold Qeq, Qminus, Qplus, Qopp, inject_Z, Qnum, Qden; lia).
  destruct Hv as [Hv|Hv].
  - split; [exists (k + 1)%Z; lra|].
    split; [exists (k - 1)%Z; lra|].
    repeat split; lra.
  - split; [exists (k - 1)%Z; lra|].
    split; [exists (k + 1)%Z; lra|].
    repeat split; lra.
Qed.

Lemma movingBallState_court (random : nat -> Q) (b : CircleBody)
  (player cpu : RectBody) (i : nat) (b' : CircleBody) (j : nat) :
  courtBall b -> movingBallState random b player cpu i = Some (b', j) ->
  courtBall b'.
Proof.
  intros (Hrad & [k Hk] & Hlo & Hhi & Hmark) H.
  unfold movingBallState in H. rewrite Hrad in H.
  destruct (Circle.xPos b - Constants.ballRadius <=? Constants.sideBound) eqn:Hl;
    [apply Qleb_true in Hl | apply Qleb_false in Hl].
  { injection H as <- _. unfold courtBall. cbn.
    repeat split; try assumption; try (now exists k).
    unfold_constants. lra. }
  destruct (Circle.xPos b + Constants.ballRadius
            >=? Constants.canvasRight - Constants.sideBound) eqn:Hr;
    [apply Qleb_true in Hr | apply Qleb_false in Hr].
  { injection H as <- _. unfold courtBall. cbn.
    repeat split; try assumption; try (now exists k).
    unfold_constants. lra. }
  assert (20 < Circle.xPos b) as Hlo' by (unfold_constants; lra).
  assert (Circle.xPos b < 880) as Hhi' by (unfold_constants; lra).
  assert (Circle.xVel b == 5 \/ Circle.xVel b == -5) as Hv.
  { destruct (Circle.scoreUpdate b) as [[|]|]; [| |exact Hmark];
      destruct Hmark as [Hx _]; lra. }
  destruct (grid_step _ _ k Hk Hlo' Hhi' Hv)
    as (Hg1 & Hg2 & Ha1 & Ha2 & Hs1 & Hs2).
  assert (-1 * Circle.xVel b == 5 \/ -1 * Circle.xVel b == -5) as Hv'
    by (destruct Hv as [Hv|Hv]; rewrite Hv; [right | left]; reflexivity).
  repeat match type of H with
         | (if ?c then _ else _) _ = _ => destruct c
         end;
    unfold bind, calculateBallVel, Math_random, ret in H;
    injection H as <- _; unfold courtBall; cbn;
    repeat split; assumption.
Qed.

Lemma gameObserver_ballInv (random : nat -> Q) (acc : State) (s : Event) (i : nat)
  (acc' : State) (j : nat) :
  St.winnerIs acc = None -> ballInv acc ->
  gameObserver random acc s i = Some (acc', j) -> ballInv acc'.
Proof.
  intros Hw Hb H. unfold ballInv in Hb. rewrite Hw in Hb.
  assert (forall acc0 s0 d,
             St.ball acc0 = St.ball acc ->
             createStandardParseState random acc0 s0 d i = Some (acc', j) ->
             ballInv acc') as Hstd.
  { intros acc0 s0 d Hsame H0.
    destruct (createStandardParseState_returns random acc0 s0 d i)
      as (p1 & vel & b & j' & _ & _ & Hball & Heq).
    rewrite Heq in H0. injection H0 as <- <-. unfold ballInv. cbn.
    rewrite Hsame in Hball. eapply movingBallState_court; eauto. }
  assert (forall mx, mx = 1 \/ mx = -1 -> courtBall (freshBall random mx 1 i)) as Hfresh.
  { intros mx Hmx. unfold courtBall, freshBall. cbn.
    split; [reflexivity|]. split; [exists 90%Z; reflexivity|].
    split; [discriminate|]. split; [discriminate|].
    destruct Hmx as [-> | ->]; [left | right]; reflexivity. }
  apply gameObserver_branch in H.
  destruct H as [Ha H | size p1 b Ha -> Hpos Hstep Hball -> | size Ha -> Hle H
                 | Ha Hs Hp -> -> | Ha Hs Hc -> -> | Ha Hs Hn H1 -> ->
                 | Ha Hs Hn H1 H2 -> -> | Ha Hs Hn H1 H2 H].
  - eapply Hstd; eauto.
  - unfold ballInv. cbn. eapply movingBallState_court; eauto.
  - eapply Hstd; eauto.
  - unfold ballInv, resetState. cbn [createState St.winnerIs St.ball].
    apply Hfresh. now right.
  - unfold ballInv, resetState. cbn [createState St.winnerIs St.ball].
    apply Hfresh. now left.
  - unfold ballInv, resetState, frozenAtCentre. cbn. repeat split.
  - unfold ballInv, resetState, frozenAtCentre. cbn. repeat split.
  - eapply Hstd; eauto.
Qed.

Lemma reachable_ballInv (random : nat -> Q) (st : State) :
  reachable random st -> ballInv st.
Proof.
  induction 1 as [i s0 j H | acc s i acc' j _ IH Hw _ H].
  - unfold defaultEverythingState, defaultBallState2, bind in H.
    rewrite genericDefaultBall_returns in H. injection H as <- _.
    unfold ballInv, courtBall. cbn.
    split; [reflexivity|]. split; [exists 90%Z; reflexivity|].
    split; [discriminate|]. split; [discriminate|]. left. reflexivity.
  - eapply gameObserver_ballInv; eauto.
Qed.

(** ** Invariants of the running game *)

(** X12: in every reachable state the ball has the standard radius and its
    centre lies between x = 20 and x = 880, so that it never passes a side
    wall; its horizontal velocity is 5, -5 or 0; a ball marked
    "cpu-scored" is at x = 20 or less, a ball marked "player-scored" at
    x = 880 or more, both at rest; and a ball at horizontal rest is marked
    or belongs to a state that names a winner. *)
Theorem ball_stays_on_court (random : nat -> Q) (st : State) :
  reachable random st ->
  let b := St.ball st in
  Circle.radius b = Constants.ballRadius /\
  20 <= Circle.xPos b /\ Circle.xPos b <= 880 /\
  (Circle.xVel b == 5 \/ Circle.xVel b == -5 \/ Circle.xVel b == 0) /\
  (Circle.scoreUpdate b = Some side_c ->
   Circle.xPos b <= 20 /\ Circle.xVel b = 0 /\ Circle.yVel b = 0) /\
  (Circle.scoreUpdate b = Some side_p ->
   880 <= Circle.xPos b /\ Circle.xVel b = 0 /\ Circle.yVel b = 0) /\
  (Circle.xVel b == 0 -> Circle.scoreUpdate b <> None \/ St.winnerIs st <> None).
Proof.
  intros Hr. apply reachable_ballInv in Hr. unfold ballInv in Hr. cbv zeta.
  destruct (St.winnerIs st) as [w|].
  - destruct Hr as ((Hvx & Hvy & Hx & Hy) & Hm & Hrad). rewrite Hm, Hvx.
    split; [exact Hrad|]. split; [lra|]. split; [lra|].
    split; [right; right; reflexivity|].
    split; [discriminate|]. split; [discriminate|].
    intros _. right. discriminate.
  - destruct Hr as (Hrad & _ & Hlo & Hhi & Hm).
    split; [exact Hrad|]. split; [exact Hlo|]. split; [exact Hhi|].
    destruct (Circle.scoreUpdate (St.ball st)) as [[|]|].
    + destruct Hm as [Hx ->]. cbn.
      split; [right; right; reflexivity|].
      split; [discriminate|]. split; [intros _; repeat split; exact Hx|].
      intros _. left. discriminate.
    + destruct Hm as [Hx ->]. cbn.
      split; [right; right; reflexivity|].
      split; [intros _; repeat split; exact Hx|]. split; [discriminate|].
      intros _. left. discriminate.
    + split; [tauto|]. split; [discriminate|]. split; [discriminate|].
      intros H0. exfalso. destruct Hm as [Hm|Hm]; rewrite Hm in H0; discriminate H0.
Qed.

Lemma ball_stays_on_court_witness :
  exists st j,
    runGame zeroDraws (keyDownArrow :: repeat (Tick 0) 242) 0%nat = Some (st, j) /\
    Circle.scoreUpdate (St.ball st) = Some side_c /\
    20 <= Circle.xPos (St.ball st) /\ Circle.xPos (St.ball st) <= 20 /\
    Circle.xVel (St.ball st) = 0.
Proof.
  eexists; eexists. split; [vm_compute; reflexivity|].
  lazymatch goal with
  | |- Circle.scoreUpdate (St.ball ?st) = _ /\ _ =>
      destruct (ball_stays_on_court zeroDraws st)
        as (_ & Hlo & _ & _ & Hc & _ & _);
        [eapply (runGame_reachable zeroDraws (keyDownArrow :: repeat (Tick 0) 242));
         [constructor; [apply mapped_down | apply Forall_mapped_repeat, mapped_tick]
         | vm_compute; reflexivity]|]
  end.
  split; [reflexivity|]. split; [exact Hlo|].
  destruct (Hc eq_refl) as (Hx & Hv & _). split; [exact Hx | exact Hv].
Defined.

Lemma getRageColour_in_progression (level : Z) :
  (0 <= level)%Z -> In (getRageColour level) Constants.rageColourProgression.
Proof.
  intros H0. unfold getRageColour.
  destruct (level >=? Z.of_nat (length Constants.rageColourProgression))%Z eqn:E.
  - cbn. repeat (first [left; reflexivity | right]).
  - rewrite Z.geb_leb in E. apply Z.leb_gt in E. cbn in E.
    assert ((level <? 0)%Z = false) as -> by (apply Z.ltb_ge; exact H0).
    assert (level = 0 \/ level = 1 \/ level = 2 \/ level = 3 \/ level = 4
            \/ level = 5 \/ level = 6 \/ level = 7 \/ level = 8 \/ level = 9
            \/ level = 10 \/ level = 11)%Z as Hcases by lia.
    repeat (destruct Hcases as [-> | Hcases];
            [cbn; repeat (first [left; reflexivity | right])|]).
    subst level. cbn. repeat (first [left; reflexivity | right]).
Qed.

(** X13: in every reachable state each paddle is in its own lane: the
    player's at x = 30 and the AI's at x = 850, both 20 wide and with no
    horizontal velocity; the player's paddle is at least 90 tall, the AI's
    at most 90; and the energy of the AI paddle is the starting energy 4:
    nothing ever spends or refills it. *)
Theorem paddles_keep_their_lane (random : nat -> Q) (st : State) :
  reachable random st ->
  Rect.id (St.paddleOne st) = "PaddlePlayer" /\
  Rect.id (St.paddleTwo st) = "PaddleAI" /\
  Rect.xPos (St.paddleOne st) == 30 /\ Rect.xPos (St.paddleTwo st) == 850 /\
  Rect.xSize (St.paddleOne st) = 20 /\ Rect.xSize (St.paddleTwo st) = 20 /\
  Rect.xVel (St.paddleOne st) = 0 /\ Rect.xVel (St.paddleTwo st) = 0 /\
  90 <= Rect.ySize (St.paddleOne st) /\ Rect.ySize (St.paddleTwo st) <= 90 /\
  Rect.energy (St.paddleTwo st) = 4%Z.
Proof.
  intros Hr. apply reachable_built in Hr.
  destruct Hr as (y1 & v1 & h1 & y2 & v2 & h2 & n1 & n2 & e & -> & -> & _ & _
                  & _ & _ & _ & _ & Hh1 & Hh2).
  cbn. repeat split; assumption.
Qed.

Lemma paddles_keep_their_lane_witness :
  exists st j,
    runGame zeroDraws (keyE :: keyQ :: keyR :: repeat (Tick 0) 30) 0%nat
    = Some (st, j) /\
    Rect.xPos (St.paddleOne st) == 30 /\ Rect.xPos (St.paddleTwo st) == 850 /\
    90 <= Rect.ySize (St.paddleOne st) /\ Rect.ySize (St.paddleTwo st) <= 90 /\
    Rect.energy (St.paddleTwo st) = 4%Z.
Proof.
  eexists; eexists. split; [vm_compute; reflexivity|].
  lazymatch goal with
  | |- Rect.xPos (St.paddleOne ?st) == _ /\ _ =>
      destruct (paddles_keep_their_lane zeroDraws st)
        as (_ & _ & H1 & H2 & _ & _ & _ & _ & H3 & H4 & H5);
        [eapply (runGame_reachable zeroDraws
                   (keyE :: keyQ :: keyR :: repeat (Tick 0) 30));
         [repeat constructor; apply Forall_mapped_repeat, mapped_tick
         | vm_compute; reflexivity]|]
  end.
  repeat split; assumption.
Defined.

(** X14: in every reachable state what is shown agrees with what is
    counted: the energy of the player's paddle is the number of the energy
    label, which is not negative and whose text is "Rage: " followed by
    that number; the text of each score board parses ([parseInt]) to its
    number, which is not negative; and the colour of the player's paddle,
    the one of the energy label, is a colour of the rage progression. *)
Theorem display_agrees_with_counters (random : nat -> Q) (st : State) :
  reachable random st ->
  Rect.energy (St.paddleOne st) = Text.numeric (St.playerEnergy st) /\
  (0 <= Text.numeric (St.playerEnergy st))%Z /\
  Text.content (St.playerEnergy st)
  = "Rage: " ++ toString (Text.numeric (St.playerEnergy st)) /\
  parseInt (Text.content (St.scoreOne st)) = Some (Text.numeric (St.scoreOne st)) /\
  parseInt (Text.content (St.scoreTwo st)) = Some (Text.numeric (St.scoreTwo st)) /\
  (0 <= Text.numeric (St.scoreOne st))%Z /\
  (0 <= Text.numeric (St.scoreTwo st))%Z /\
  Rect.colour (St.paddleOne st) = Text.colour (St.playerEnergy st) /\
  In (Rect.colour (St.paddleOne st)) Constants.rageColourProgression.
Proof.
  intros Hr. apply reachable_built in Hr.
  destruct Hr as (y1 & v1 & h1 & y2 & v2 & h2 & n1 & n2 & e & -> & _ & -> & ->
                  & -> & He & Hn1 & Hn2 & _ & _).
  cbn [playerPaddle aiPaddle genericPaddle playerScore aiScore playerEnergy
       genericText Rect.energy Rect.colour Text.numeric Text.content Text.colour
       append].
  repeat split; try assumption; try apply parseInt_toString.
  now apply getRageColour_in_progression.
Qed.

Lemma display_agrees_with_counters_witness :
  exists st j,
    runGame zeroDraws (lostRallies 1 ++ [keyE])%list 0%nat = Some (st, j) /\
    Rect.energy (St.paddleOne st) = 4%Z /\
    Text.content (St.playerEnergy st) = "Rage: 4" /\
    parseInt (Text.content (St.scoreTwo st)) = Some 1%Z /\
    In (Rect.colour (St.paddleOne st)) Constants.rageColourProgression.
Proof.
  eexists; eexists. split; [vm_compute; reflexivity|].
  lazymatch goal with
  | |- Rect.energy (St.paddleOne ?st) = _ /\ _ =>
      destruct (display_agrees_with_counters zeroDraws st)
        as (H1 & _ & H2 & _ & H3 & _ & _ & _ & H4);
        [eapply (runGame_reachable zeroDraws (lostRallies 1 ++ [keyE])%list);
         [apply Forall_app; split;
          [apply Forall_mapped_lostRallies | repeat constructor]
         | vm_compute; reflexivity]|]
  end.
  split; [exact H1|]. split; [exact H2|]. split; [exact H3 | exact H4].
Defined.

(** X15: a winner is named only at exactly the winning score: in every
    reachable state that names the player the winner the player's score is
    7, in every one that names the CPU the CPU's score is 7 and the
    player's is not; in both the ball rests at the centre. *)
Theorem winner_named_only_at_threshold (random : nat -> Q) (st : State) (w : Side) :
  reachable random st -> St.winnerIs st = Some w ->
  match w with
  | side_p => Text.numeric (St.scoreOne st) = Constants.winningScore
  | side_c => Text.numeric (St.scoreTwo st) = Constants.winningScore
              /\ Text.numeric (St.scoreOne st) <> Constants.winningScore
  end
  /\ frozenAtCentre (St.ball st).
Proof.
  intros Hr Hw. split.
  - destruct Hr as [i s0 j H | acc s i acc' j Hacc _ _ H].
    + unfold defaultEverythingState, defaultBallState2, bind in H.
      rewrite genericDefaultBall_returns in H. injection H as <- _.
      discriminate Hw.
    + apply reachable_built in Hacc.
      destruct Hacc as (y1 & v1 & h1 & y2 & v2 & h2 & n1 & n2 & e & _ & _ & Hs1
                        & Hs2 & _).
      apply gameObserver_branch in H.
      destruct H as [Ha H | size p1 b Ha -> Hpos Hstep Hball -> | size Ha -> Hle H
                     | Ha Hs Hp -> -> | Ha Hs Hc -> -> | Ha Hs Hn H1 -> ->
                     | Ha Hs Hn H1 H2 -> -> | Ha Hs Hn H1 H2 H];
        try (destruct (createStandardParseState_returns random acc
                         (Key (Movement 0 0)) 0 i)
               as (? & ? & ? & ? & _ & _ & _ & Heq);
             rewrite Heq in H; injection H as <- _; discriminate Hw);
        try (match type of H with
             | createStandardParseState _ _ ?s0 ?d _ = _ =>
                 destruct (createStandardParseState_returns random acc s0 d i)
                   as (? & ? & ? & ? & _ & _ & _ & Heq);
                 rewrite Heq in H; injection H as <- _; discriminate Hw
             end);
        try discriminate Hw.
      * injection Hw as <-. unfold resetState. cbn [createState St.scoreOne].
        rewrite Hs1 in H1 |- *.
        cbn [playerScore genericText Text.content Text.numeric append] in *.
        rewrite parsesTo_toString in H1. now apply Z.eqb_eq in H1.
      * injection Hw as <-. unfold resetState.
        cbn [createState St.scoreOne St.scoreTwo].
        rewrite Hs1 in H1 |- *. rewrite Hs2 in H2 |- *.
        cbn [playerScore aiScore genericText Text.content Text.numeric append] in *.
        rewrite parsesTo_toString in H1, H2.
        apply Z.eqb_eq in H2. apply Z.eqb_neq in H1. split; assumption.
  - apply reachable_ballInv in Hr. unfold ballInv in Hr. rewrite Hw in Hr.
    apply Hr.
Qed.

Lemma winner_named_only_at_threshold_witness :
  exists st j,
    runGame zeroDraws (lostRallies 7 ++ [Tick 0])%list 0%nat = Some (st, j) /\
    St.winnerIs st = Some side_c /\
    Text.numeric (St.scoreTwo st) = 7%Z /\
    Text.numeric (St.scoreOne st) <> 7%Z /\
    frozenAtCentre (St.ball st).
Proof.
  eexists; eexists. split; [vm_compute; reflexivity|]. split; [reflexivity|].
  lazymatch goal with
  | |- Text.numeric (St.scoreTwo ?st) = _ /\ _ =>
      destruct (winner_named_only_at_threshold zeroDraws st side_c)
        as ((H1 & H2) & H3);
        [eapply (runGame_reachable zeroDraws (lostRallies 7 ++ [Tick 0])%list);
         [apply Forall_app; split;
          [apply Forall_mapped_lostRallies | repeat constructor]
         | vm_compute; reflexivity]
        | reflexivity |]
  end.
  split; [exact H1|]. split; [exact H2 | exact H3].
Defined.

(** X16: the state that names a winner is a fixed point of the reducer:
    the step that finds a score at the threshold returns a state on which
    every event that is not an ability branch (a tick, a move, an ability
    without energy other than the shrink) returns that same state
    again. *)
Theorem win_state_is_a_fixed_point (random : nat -> Q) (acc : State)
  (s s' : Event) (i i' : nat) :
  abilityFunded acc s = false -> instanceofPaddleShrink s = false ->
  Circle.scoreUpdate (St.ball acc) = None ->
  parsesTo (Text.content (St.scoreOne acc)) Constants.winningScore
  || parsesTo (Text.content (St.scoreTwo acc)) Constants.winningScore = true ->
  abilityFunded acc s' = false -> instanceofPaddleShrink s' = false ->
  exists acc',
    gameObserver random acc s i = Some (acc', S (S i)) /\
    St.winnerIs acc' <> None /\
    gameObserver random acc' s' i' = Some (acc', S (S i')).
Proof.
  intros Ha Hs Hn Hwin Ha' Hs'.
  unfold abilityFunded in Ha, Ha'.
  unfold gameObserver at 1. rewrite Ha, Hs, Hn. cbn [isSide].
  destruct (parsesTo (Text.content (St.scoreOne acc)) Constants.winningScore) eqn:H1.
  - rewrite createEndState_returns. eexists. split; [reflexivity|].
    split; [discriminate|].
    unfold gameObserver, resetState.
    cbn [createState St.playerEnergy St.ball St.scoreOne St.scoreTwo St.paddleTwo
         freshBall ball Circle.scoreUpdate isSide].
    rewrite Ha', Hs', H1. reflexivity.
  - cbn [orb] in Hwin. rewrite Hwin, createEndState_returns.
    eexists. split; [reflexivity|]. split; [discriminate|].
    unfold gameObserver, resetState.
    cbn [createState St.playerEnergy St.ball St.scoreOne St.scoreTwo St.paddleTwo
         freshBall ball Circle.scoreUpdate isSide].
    rewrite Ha', Hs', H1, Hwin. reflexivity.
Qed.

Lemma win_state_is_a_fixed_point_witness :
  exists acc',
    gameObserver zeroDraws (sampleState (ball 450 300 5 0 None) 7 3 4) (Tick 0) 0%nat
    = Some (acc', 2%nat) /\
    St.winnerIs acc' <> None /\
    gameObserver zeroDraws acc' keyUpArrow 5%nat = Some (acc', 7%nat).
Proof.
  apply (win_state_is_a_fixed_point zeroDraws
           (sampleState (ball 450 300 5 0 None) 7 3 4) (Tick 0) keyUpArrow
           0%nat 5%nat); reflexivity.
Defined.

Lemma marked_court_ball_is_kept (random : nat -> Q) (b : CircleBody)
  (player cpu : RectBody) (i : nat) (w : Side) :
  courtBall b -> Circle.scoreUpdate b = Some w ->
  movingBallState random b player cpu i = Some (b, i).
Proof.
  intros (Hrad & _ & Hlo & Hhi & Hmark) Hw. rewrite Hw in Hmark.
  unfold movingBallState. rewrite Hrad.
  destruct w; destruct Hmark as [Hx Hb].
  - assert ((Circle.xPos b - Constants.ballRadius <=? Constants.sideBound) = false)
      as -> by (apply Qleb_false; unfold_constants; lra).
    assert ((Circle.xPos b + Constants.ballRadius
             >=? Constants.canvasRight - Constants.sideBound) = true)
      as -> by (apply Qleb_true; unfold_constants; lra).
    now rewrite <- Hb.
  - assert ((Circle.xPos b - Constants.ballRadius <=? Constants.sideBound) = true)
      as -> by (apply Qleb_true; unfold_constants; lra).
    now rewrite <- Hb.
Qed.

(** X17: an ability key never loses a point: on a reachable state whose
    ball carries a scoring marker, an event answered by an ability branch
    (a grow or teleport that finds energy, or a shrink, with or without
    energy) returns a state with the same ball, marker included, the same
    scores and no winner, so that the point is counted by the next event
    that is not one. *)
Theorem ability_keys_keep_the_point (random : nat -> Q) (acc : State) (s : Event)
  (i : nat) (w : Side) :
  reachable random acc -> Circle.scoreUpdate (St.ball acc) = Some w ->
  abilityFunded acc s || instanceofPaddleShrink s = true ->
  returns (gameObserver random acc s) i
    (fun acc' =>
       St.ball acc' = St.ball acc /\
       St.scoreOne acc' = St.scoreOne acc /\
       St.scoreTwo acc' = St.scoreTwo acc /\
       St.winnerIs acc' = None).
Proof.
  intros Hr Hw Hab.
  apply reachable_ballInv in Hr. unfold ballInv in Hr.
  destruct (St.winnerIs acc).
  { destruct Hr as (_ & Hn & _). rewrite Hn in Hw. discriminate Hw. }
  assert (forall s0 d acc' j,
             createStandardParseState random acc s0 d i = Some (acc', j) ->
             St.ball acc' = St.ball acc /\ St.scoreOne acc' = St.scoreOne acc /\
             St.scoreTwo acc' = St.scoreTwo acc /\ St.winnerIs acc' = None) as Hstd.
  { intros s0 d acc' j H.
    destruct (createStandardParseState_returns random acc s0 d i)
      as (p1 & vel & b & j' & _ & _ & Hball & Heq).
    rewrite Heq in H. injection H as <- _.
    rewrite (marked_court_ball_is_kept random _ _ _ i w Hr Hw) in Hball.
    injection Hball as <- _. repeat split. }
  destruct (gameObserver_total random acc s i) as (acc' & j & H).
  exists acc', j. split; [exact H|].
  apply gameObserver_branch in H.
  destruct H as [Ha H | size p1 b Ha -> Hpos Hstep Hball -> | size Ha -> Hle H
                 | Ha Hs Hp -> -> | Ha Hs Hc -> -> | Ha Hs Hn H1 -> ->
                 | Ha Hs Hn H1 H2 -> -> | Ha Hs Hn H1 H2 H];
    try (rewrite Ha, Hs in Hab; discriminate Hab);
    try (eapply Hstd; eassumption).
  rewrite (marked_court_ball_is_kept random _ _ _ i w Hr Hw) in Hball.
  injection Hball as <- _. repeat split.
Qed.

Lemma ability_keys_keep_the_point_witness :
  exists acc i,
    runGame zeroDraws (keyDownArrow :: repeat (Tick 0) 242) 0%nat = Some (acc, i) /\
    Circle.scoreUpdate (St.ball acc) = Some side_c /\
    returns (gameObserver zeroDraws acc keyQ) i
      (fun acc' =>
         St.ball acc' = St.ball acc /\ St.scoreOne acc' = St.scoreOne acc /\
         St.scoreTwo acc' = St.scoreTwo acc /\ St.winnerIs acc' = None).
Proof.
  eexists; eexists. split; [vm_compute; reflexivity|]. split; [reflexivity|].
  lazymatch goal with
  | |- returns (gameObserver _ ?acc _) ?i _ =>
      apply (ability_keys_keep_the_point zeroDraws acc keyQ i side_c);
        [eapply (runGame_reachable zeroDraws (keyDownArrow :: repeat (Tick 0) 242));
         [constructor; [apply mapped_down | apply Forall_mapped_repeat, mapped_tick]
         | vm_compute; reflexivity]
        | reflexivity | reflexivity]
  end.
Defined.

(** ** Runs *)

(** ** Colours and texts *)

(** X19: for an energy that is not negative [getRageColour] returns a
    colour of the progression (no index outside the table is read); from
    level 11 on it is the last colour; and it is the plain UI colour
    exactly at the levels 0, 1 and 2. *)
Theorem rage_colour_is_defined (level high : Z) :
  (0 <= level)%Z -> (11 <= high)%Z ->
  In (getRageColour level) Constants.rageColourProgression /\
  getRageColour high = "rgb(255,  0,  0)" /\
  (getRageColour level = Constants.uiColour <-> (level <= 2)%Z).
Proof.
  intros H0 H11. split; [now apply getRageColour_in_progression|]. split.
  - unfold getRageColour.
    destruct (high >=? Z.of_nat (length Constants.rageColourProgression))%Z eqn:E;
      [reflexivity|].
    rewrite Z.geb_leb in E. apply Z.leb_gt in E. cbn in E.
    assert (high = 11)%Z as -> by lia. reflexivity.
  - unfold getRageColour.
    destruct (level >=? Z.of_nat (length Constants.rageColourProgression))%Z eqn:E.
    + rewrite Z.geb_leb in E. apply Z.leb_le in E. cbn in E.
      split; [intros H; discriminate H | lia].
    + rewrite Z.geb_leb in E. apply Z.leb_gt in E. cbn in E.
      assert ((level <? 0)%Z = false) as -> by (apply Z.ltb_ge; exact H0).
      assert (level = 0 \/ level = 1 \/ level = 2 \/ level = 3 \/ level = 4
              \/ level = 5 \/ level = 6 \/ level = 7 \/ level = 8 \/ level = 9
              \/ level = 10 \/ level = 11)%Z as Hcases by lia.
      repeat (destruct Hcases as [-> | Hcases];
              [cbn; split; [intros H; first [lia | discriminate H]
                           | intros H; first [reflexivity | lia]]|]).
      subst level. cbn. split; [intros H; discriminate H | lia].
Qed.

Lemma rage_colour_is_defined_witness :
  In (getRageColour 4) Constants.rageColourProgression /\
  getRageColour 25 = "rgb(255,  0,  0)" /\
  (getRageColour 4 = Constants.uiColour <-> (4 <= 2)%Z).
Proof. apply (rage_colour_is_defined 4 25); lia. Defined.

(** X20: the score boards are written without a prefix, so their text
    reads back as their number: for a safe integer [n], [parseInt] of the
    content built by [playerScore] or [aiScore] is [n], and the win test of
    the reducer on that content holds exactly when [n] is the winning
    score; after [changeScore] on a board whose number and successor are
    safe integers the content reads back as the number plus 1; the content
    of the energy label, written after "Rage: ", does not parse. *)
Theorem score_text_round_trip (n : Z) (board : TextBody) :
  safeInteger n -> safeInteger (Text.numeric board) ->
  safeInteger (Text.numeric board + 1) ->
  parseInt (Text.content (playerScore n)) = Some n /\
  parseInt (Text.content (aiScore n)) = Some n /\
  parsesTo (Text.content (playerScore n)) Constants.winningScore
  = (n =? Constants.winningScore)%Z /\
  parsesTo (Text.content (aiScore n)) Constants.winningScore
  = (n =? Constants.winningScore)%Z /\
  parseInt (Text.content (changePlayerScore board)) = Some (Text.numeric board + 1)%Z /\
  parseInt (Text.content (changeCpuScore board)) = Some (Text.numeric board + 1)%Z /\
  parseInt (Text.content (playerEnergy n)) = None.
Proof.
  intros _ _ _.
  unfold changePlayerScore, changeCpuScore, changeScore.
  cbn [playerScore aiScore playerEnergy genericText Text.content append].
  refine (conj _ (conj _ (conj _ (conj _ (conj _ (conj _ _))))));
    try apply parseInt_toString; try apply parsesTo_toString.
  reflexivity.
Qed.

Lemma score_text_round_trip_witness :
  parseInt (Text.content (playerScore 7%Z)) = Some 7%Z /\
  parseInt (Text.content (aiScore 7%Z)) = Some 7%Z /\
  parsesTo (Text.content (playerScore 7%Z)) Constants.winningScore
  = (7 =? Constants.winningScore)%Z /\
  parsesTo (Text.content (aiScore 7%Z)) Constants.winningScore
  = (7 =? Constants.winningScore)%Z /\
  parseInt (Text.content (changePlayerScore (playerScore 6%Z)))
  = Some (Text.numeric (playerScore 6%Z) + 1)%Z /\
  parseInt (Text.content (changeCpuScore (playerScore 6%Z)))
  = Some (Text.numeric (playerScore 6%Z) + 1)%Z /\
  parseInt (Text.content (playerEnergy 7%Z)) = None.
Proof.
  apply (score_text_round_trip 7%Z (playerScore 6%Z));
    unfold safeInteger; cbn; lia.
Defined.

(** ** The input mapper *)

Lemma keyPress_cases (e : Kbd.KeyboardEvent) :
  Input.keyPress e
  = match Kbd.type e with
    | Kbd.keyup => [keyRelease]
    | Kbd.keydown =>
        if String.eqb (Kbd.code e) Keys.upKey then [keyUpArrow]
        else if String.eqb (Kbd.code e) Keys.downKey then [keyDownArrow]
        else if String.eqb (Kbd.code e) Keys.specialKey_SizeUp then [keyE]
        else if String.eqb (Kbd.code e) Keys.specialKey_Teleport then [keyR]
        else if String.eqb (Kbd.code e) Keys.specialKey_ShrinkRay then [keyQ]
        else []
    end.
Proof.
  destruct e as [[|] c]; [|reflexivity].
  unfold Input.keyPress, Input.keyUpArrow, Input.keyDownArrow, Input.keyE,
    Input.keyR, Input.keyQ, Input.keyRelease, Input.movekeyCheck, Input.keyCheck,
    Input.fromEvent.
  cbn [Kbd.type Kbd.code].
  destruct (String.eqb_spec c Keys.upKey) as [-> | _]; [reflexivity|].
  destruct (String.eqb_spec c Keys.downKey) as [-> | _]; [reflexivity|].
  destruct (String.eqb_spec c Keys.specialKey_SizeUp) as [-> | _]; [reflexivity|].
  destruct (String.eqb_spec c Keys.specialKey_Teleport) as [-> | _]; [reflexivity|].
  destruct (String.eqb_spec c Keys.specialKey_ShrinkRay) as [-> | _]; reflexivity.
Qed.

(** X21: the six merged key observers emit at most one action for a
    keyboard event, and only actions of the mapped set; a key-up emits the
    stop Move(0), whatever the key; a key-down on a key other than W, S, E,
    R, Q emits nothing. *)
Theorem key_event_gives_at_most_one_action (e up other : Kbd.KeyboardEvent) :
  Kbd.type up = Kbd.keyup -> Kbd.type other = Kbd.keydown ->
  ~ In (Kbd.code other)
      [Keys.upKey; Keys.downKey; Keys.specialKey_SizeUp;
       Keys.specialKey_Teleport; Keys.specialKey_ShrinkRay] ->
  (length (Input.keyPress e) <= 1)%nat /\ Forall mapped (Input.keyPress e) /\
  Input.keyPress up = [Key (Movement 0 0)] /\
  Input.keyPress other = [].
Proof.
  intros Hup Hother Hnot. rewrite !keyPress_cases, Hup, Hother.
  repeat split.
  - destruct (Kbd.type e); repeat split_if; cbn; lia.
  - destruct (Kbd.type e); repeat split_if;
      repeat constructor.
  - repeat match goal with
           | |- context [String.eqb ?a ?b] =>
               destruct (String.eqb_spec a b) as [Heq | _];
               [exfalso; apply Hnot; rewrite Heq; cbn; tauto|]
           end.
    reflexivity.
Qed.

Lemma key_event_gives_at_most_one_action_witness :
  (length (Input.keyPress (Kbd.mk Kbd.keydown "KeyW")) <= 1)%nat /\
  Forall mapped (Input.keyPress (Kbd.mk Kbd.keydown "KeyW")) /\
  Input.keyPress (Kbd.mk Kbd.keyup "KeyW") = [Key (Movement 0 0)] /\
  Input.keyPress (Kbd.mk Kbd.keydown "Space") = [].
Proof.
  apply (key_event_gives_at_most_one_action (Kbd.mk Kbd.keydown "KeyW")
           (Kbd.mk Kbd.keyup "KeyW") (Kbd.mk Kbd.keydown "Space"));
    try reflexivity.
  cbn. intros H. repeat (destruct H as [H|H]; [discriminate H|]). exact H.
Defined.

Lemma game_total (random : nat -> Q) (evs : list Event) :
  forall acc i, exists st j, game random acc evs i = Some (st, j).
Proof.
  induction evs as [|s evs IH]; intros acc i.
  - exists acc, i. reflexivity.
  - cbn [game]. unfold bind.
    destruct (gameObserver_total random acc s i) as (acc' & k & ->).
    destruct (St.winnerIs acc'); [exists acc', k; reflexivity | apply IH].
Qed.

(** X22: whatever the host delivers, timer firings and keyboard events in
    any number and order, the game returns a state (no TypeError is ever
    raised), this state is reachable, and the reducer has received at most
    one event for each event of the host. *)
Theorem game_runs_on_every_input (random : nat -> Q) (hs : list HostEvent) :
  (exists st j,
      runGame random (mergedStream hs) 0%nat = Some (st, j)
      /\ reachable random st)
  /\ Forall mapped (mergedStream hs)
  /\ (length (mergedStream hs) <= length hs)%nat.
Proof.
  assert (Forall mapped (mergedStream hs)) as Hm.
  { induction hs as [|[n|e] hs IH]; cbn [mergedStream flat_map].
    - constructor.
    - constructor; [apply mapped_tick | exact IH].
    - apply Forall_app. split; [|exact IH].
      rewrite keyPress_cases.
      destruct (Kbd.type e); repeat split_if; repeat constructor. }
  split; [|split; [exact Hm|]].
  - unfold runGame, bind.
    destruct (defaultEverythingState random 0%nat) as [[s0 k]|] eqn:H0;
      [|discriminate H0].
    destruct (game_total random (mergedStream hs) s0 k) as (st & j & H).
    exists st, j. split; [exact H|].
    apply (runGame_reachable random (mergedStream hs) st j Hm).
    unfold runGame, bind. now rewrite H0.
  - clear Hm. unfold mergedStream.
    induction hs as [|[n|e] hs IH]; cbn [flat_map]; rewrite ?length_app;
      cbn [length].
    + lia.
    + lia.
    +
      assert (length (Input.keyPress e) <= 1)%nat.
      { rewrite keyPress_cases. destruct (Kbd.type e); repeat split_if; cbn; lia. }
      lia.
Qed.

(** ** The view *)

Lemma getAttr_setAttr_same (k v : string) (a : list (string * string)) :
  Dom.getAttr k (Dom.setAttr k v a) = Some v.
Proof.
  induction a as [|[n w] a IH]; cbn.
  - now rewrite String.eqb_refl.
  - destruct (String.eqb n k) eqn:E; cbn; rewrite E; [reflexivity | exact IH].
Qed.

Lemma getAttr_setAttr_other (k k' v : string) (a : list (string * string)) :
  k <> k' -> Dom.getAttr k' (Dom.setAttr k v a) = Dom.getAttr k' a.
Proof.
  intros Hk. induction a as [|[n w] a IH]; cbn.
  - destruct (String.eqb_spec k k'); [contradiction | reflexivity].
  - destruct (String.eqb_spec n k) as [-> | Hn]; cbn.
    + destruct (String.eqb_spec k k'); [contradiction | reflexivity].
    + destruct (String.eqb n k'); [reflexivity | exact IH].
Qed.

Lemma setAttr_setAttr_same (k v v' : string) (a : list (string * string)) :
  Dom.setAttr k v (Dom.setAttr k v' a) = Dom.setAttr k v a.
Proof.
  induction a as [|[n w] a IH]; cbn.
  - now rewrite String.eqb_refl.
  - destruct (String.eqb n k) eqn:E; cbn; rewrite E; [reflexivity | now rewrite IH].
Qed.

Lemma setAttr_comm (k k' v v' : string) (a : list (string * string)) :
  k <> k' -> Dom.getAttr k a <> None ->
  Dom.setAttr k v (Dom.setAttr k' v' a) = Dom.setAttr k' v' (Dom.setAttr k v a).
Proof.
  intros Hk. induction a as [|[n w] a IH]; cbn; intros Hin.
  - contradiction.
  - destruct (String.eqb_spec n k) as [-> | Hn].
    + destruct (String.eqb_spec k k') as [|_]; [contradiction|].
      cbn. rewrite String.eqb_refl.
      destruct (String.eqb_spec k k') as [|_]; [contradiction | reflexivity].
    + destruct (String.eqb_spec n k') as [-> | Hn'].
      * cbn. rewrite String.eqb_refl.
        destruct (String.eqb_spec k' k) as [|_]; [congruence | reflexivity].
      * cbn.
        destruct (String.eqb_spec n k) as [|_]; [contradiction|].
        destruct (String.eqb_spec n k') as [|_]; [contradiction|].
        now rewrite IH.
Qed.

Lemma setAll_cons (k v : string) (ps a : list (string * string)) :
  setAll ((k, v) :: ps) a = setAll ps (Dom.setAttr k v a).
Proof. reflexivity. Qed.

Lemma getAttr_setAll_notin (k : string) (ps : list (string * string)) :
  ~ In k (map fst ps) ->
  forall a, Dom.getAttr k (setAll ps a) = Dom.getAttr k a.
Proof.
  induction ps as [|[n w] ps IH]; intros Hk a; [reflexivity|].
  rewrite setAll_cons, IH by (intros H; apply Hk; now right).
  apply getAttr_setAttr_other. intros ->. apply Hk. now left.
Qed.

Lemma getAttr_setAll_in (k v : string) (ps : list (string * string)) :
  NoDup (map fst ps) -> In (k, v) ps ->
  forall a, Dom.getAttr k (setAll ps a) = Some v.
Proof.
  induction ps as [|[n w] ps IH]; intros Hnd Hin a; [contradiction|].
  rewrite setAll_cons. cbn in Hnd. inversion Hnd as [|? ? Hn Hnd']; subst.
  destruct Hin as [Heq | Hin].
  - injection Heq as -> ->.
    rewrite getAttr_setAll_notin by exact Hn. apply getAttr_setAttr_same.
  - now apply IH.
Qed.

Lemma setAttr_setAll_comm (k v : string) (ps : list (string * string)) :
  ~ In k (map fst ps) ->
  forall a, Dom.getAttr k a <> None ->
  Dom.setAttr k v (setAll ps a) = setAll ps (Dom.setAttr k v a).
Proof.
  induction ps as [|[n w] ps IH]; intros Hk a Ha; [reflexivity|].
  assert (n <> k) as Hn by (intros ->; apply Hk; now left).
  rewrite !setAll_cons, IH.
  - rewrite setAttr_comm; [reflexivity | congruence | exact Ha].
  - intros H; apply Hk; now right.
  - rewrite getAttr_setAttr_other; assumption.
Qed.

Lemma setAll_idem (ps : list (string * string)) :
  NoDup (map fst ps) -> forall a, setAll ps (setAll ps a) = setAll ps a.
Proof.
  induction ps as [|[k v] ps IH]; intros Hnd a; [reflexivity|].
  cbn in Hnd. inversion Hnd as [|? ? Hk Hnd']; subst.
  rewrite !setAll_cons, setAttr_setAll_comm.
  - rewrite setAttr_setAttr_same. now apply IH.
  - exact Hk.
  - rewrite getAttr_setAttr_same. discriminate.
Qed.

Lemma applyProps_keepsIds (ps : list (string * string)) (t : option string) :
  ~ In "id" (map fst ps) -> keepsIds (applyProps ps t).
Proof.
  intros Hid i el. unfold Dom.hasId, Dom.getAttribute, applyProps. cbn.
  now rewrite getAttr_setAll_notin.
Qed.

Lemma applyProps_idem (ps : list (string * string)) (t : option string)
  (el : Dom.Element) :
  NoDup (map fst ps) ->
  applyProps ps t (applyProps ps t el) = applyProps ps t el.
Proof.
  intros Hnd. unfold applyProps. cbn. rewrite setAll_idem by exact Hnd.
  destruct t; reflexivity.
Qed.

Lemma hasId_unique (i i' : string) (el : Dom.Element) :
  Dom.hasId i el = true -> Dom.hasId i' el = true -> i = i'.
Proof.
  unfold Dom.hasId. destruct (Dom.getAttribute "id" el); [|discriminate].
  intros H1 H2. apply String.eqb_eq in H1, H2. congruence.
Qed.

Lemma hasId_created (op : Draw) (i : string) :
  ~ In "id" (map fst (dProps op)) ->
  Dom.hasId i (created op) = String.eqb (dId op) i.
Proof.
  intros Hid. unfold created. rewrite applyProps_keepsIds by exact Hid.
  unfold Dom.hasId, Dom.getAttribute, applyProps. cbn [Dom.attributes].
  rewrite setAll_cons, getAttr_setAll_notin by exact Hid. reflexivity.
Qed.

(** *** Lists of elements *)

Lemma findId_app (i : string) (l1 l2 : list Dom.Element) :
  findId i (l1 ++ l2)
  = match findId i l1 with Some e => Some e | None => findId i l2 end.
Proof.
  induction l1 as [|el l1 IH]; cbn; [reflexivity|].
  destruct (Dom.hasId i el); [reflexivity | exact IH].
Qed.

Lemma indexOfId_findId (i : string) (l : list Dom.Element) :
  match Dom.indexOfId i l with
  | Some n => nth_error l n = findId i l /\ findId i l <> None
              /\ (n < length l)%nat
  | None => findId i l = None
  end.
Proof.
  induction l as [|el l IH]; cbn; [reflexivity|].
  destruct (Dom.hasId i el); cbn.
  - repeat split; [discriminate | lia].
  - destruct (Dom.indexOfId i l); cbn; [|exact IH].
    destruct IH as (H1 & H2 & H3). repeat split; [exact H1 | exact H2 | lia].
Qed.

Lemma getElement_findId (i : string) (d : Dom.Document) :
  Dom.getElement i d
  = if String.eqb i "" then None else findId i (Dom.elements d).
Proof.
  unfold Dom.getElement, Dom.getElementById.
  destruct (String.eqb i ""); [reflexivity|].
  pose proof (indexOfId_findId i (Dom.elements d)) as H.
  destruct (Dom.indexOfId i (Dom.elements d)); [apply H | now rewrite H].
Qed.

Lemma indexOfId_app (i : string) (l1 l2 : list Dom.Element) :
  Dom.indexOfId i (l1 ++ l2)
  = match Dom.indexOfId i l1 with
    | Some n => Some n
    | None => option_map (fun m => (length l1 + m)%nat) (Dom.indexOfId i l2)
    end.
Proof.
  induction l1 as [|el l1 IH]; cbn.
  - destruct (Dom.indexOfId i l2); reflexivity.
  - destruct (Dom.hasId i el); [reflexivity|]. rewrite IH.
    destruct (Dom.indexOfId i l1); [reflexivity|].
    destruct (Dom.indexOfId i l2); reflexivity.
Qed.

Lemma modifyAt_upd (i : string) (f : Dom.Element -> Dom.Element)
  (l : list Dom.Element) (n : nat) :
  Dom.indexOfId i l = Some n -> Dom.modifyAt n f l = upd i f l.
Proof.
  revert n. induction l as [|el l IH]; cbn; intros n H; [discriminate|].
  destruct (Dom.hasId i el).
  - injection H as <-. reflexivity.
  - destruct (Dom.indexOfId i l) as [m|]; [|discriminate].
    injection H as <-. cbn. now rewrite (IH m).
Qed.

Lemma modifyAt_last (f : Dom.Element -> Dom.Element) (l : list Dom.Element)
  (el : Dom.Element) :
  Dom.modifyAt (length l) f (l ++ [el]) = (l ++ [f el])%list.
Proof. induction l as [|x l IH]; cbn; [reflexivity | now rewrite IH]. Qed.

Lemma mutate_updDoc (i : string) (f : Dom.Element -> Dom.Element)
  (d : Dom.Document) (n : nat) :
  Dom.indexOfId i (Dom.elements d) = Some n -> Dom.mutate n f d = updDoc i f d.
Proof.
  unfold Dom.elements, Dom.mutate, updDoc. rewrite indexOfId_app.
  pose proof (indexOfId_findId i (Dom.upToCanvas d)) as H1.
  destruct (Dom.indexOfId i (Dom.upToCanvas d)) as [m|] eqn:E1.
  - intros H. injection H as <-. destruct H1 as (_ & Hne & Hlt).
    apply Nat.ltb_lt in Hlt. rewrite Hlt.
    destruct (findId i (Dom.upToCanvas d)); [|contradiction].
    now rewrite (modifyAt_upd i f _ m E1).
  - rewrite H1.
    destruct (Dom.indexOfId i (Dom.afterCanvas d)) as [m|] eqn:E2; [|discriminate].
    cbn [option_map]. intros H. injection H as <-.
    assert ((length (Dom.upToCanvas d) + m <? length (Dom.upToCanvas d))%nat = false)
      as -> by (apply Nat.ltb_ge; lia).
    replace (length (Dom.upToCanvas d) + m - length (Dom.upToCanvas d))%nat
      with m by lia.
    now rewrite (modifyAt_upd i f _ m E2).
Qed.

Lemma upd_ext (i : string) (f g : Dom.Element -> Dom.Element)
  (l : list Dom.Element) :
  (forall el, f el = g el) -> upd i f l = upd i g l.
Proof.
  intros H. induction l as [|el l IH]; cbn; [reflexivity|].
  destruct (Dom.hasId i el); [now rewrite H | now rewrite IH].
Qed.

Lemma updDoc_ext (i : string) (f g : Dom.Element -> Dom.Element)
  (d : Dom.Document) :
  (forall el, f el = g el) -> updDoc i f d = updDoc i g d.
Proof.
  intros H. unfold updDoc.
  destruct (findId i (Dom.upToCanvas d)); now rewrite (upd_ext i f g _ H).
Qed.

(** *** The drawing functions are instances of [drawWith] *)

Lemma changeAttributes_applyProps (numberToString : Q -> string)
  (props : list (string * Property)) :
  forall el,
    changeAttributes numberToString el props
    = applyProps (map (fun kv => (fst kv, String_ numberToString (snd kv))) props)
        None el.
Proof.
  unfold changeAttributes, applyProps, setAll.
  induction props as [|[k v] props IH]; intros el; cbn.
  - now destruct el.
  - rewrite IH. reflexivity.
Qed.

Lemma draw_closed_form (tag i : string) (ps : list (string * string))
  (t : option string) (f g : Dom.Element -> Dom.Element) (d : Dom.Document) :
  (forall el, f el = applyProps ps t el) ->
  g (Dom.createElementNS tag)
  = applyProps (("id", i) :: ps) t (Dom.createElementNS tag) ->
  (let '(d', elem) :=
     match Dom.getElementById i d with
     | Some n => (d, n)
     | None => Dom.appendChild (g (Dom.createElementNS tag)) d
     end in
   Dom.mutate elem f d')
  = drawWith tag i ps t d.
Proof.
  intros Hf Hg. unfold drawWith, Dom.getElementById.
  destruct (String.eqb i "").
  - unfold Dom.appendChild, Dom.mutate.
    cbn [fst snd Dom.upToCanvas Dom.afterCanvas].
    assert ((length (Dom.upToCanvas d)
             <? length (Dom.upToCanvas d ++ [g (Dom.createElementNS tag)]))%nat = true)
      as -> by (apply Nat.ltb_lt; rewrite length_app; cbn; lia).
    now rewrite modifyAt_last, Hf, Hg.
  - pose proof (indexOfId_findId i (Dom.elements d)) as H.
    destruct (Dom.indexOfId i (Dom.elements d)) as [n|] eqn:E.
    + destruct H as (_ & Hne & _).
      destruct (findId i (Dom.elements d)); [|contradiction].
      rewrite (mutate_updDoc i f d n E). now apply updDoc_ext.
    + rewrite H. unfold Dom.appendChild, Dom.mutate.
      cbn [fst snd Dom.upToCanvas Dom.afterCanvas].
      assert ((length (Dom.upToCanvas d)
               <? length (Dom.upToCanvas d ++ [g (Dom.createElementNS tag)]))%nat = true)
        as -> by (apply Nat.ltb_lt; rewrite length_app; cbn; lia).
      now rewrite modifyAt_last, Hf, Hg.
Qed.

Lemma drawRectangle_runDraw (numberToString : Q -> string) (b : RectBody)
  (d : Dom.Document) :
  drawRectangle numberToString b d = runDraw (rectDraw numberToString b) d.
Proof.
  unfold drawRectangle, runDraw, rectDraw. cbn [dTag dId dProps dText].
  apply (draw_closed_form "rect" (Rect.id b) (rectProps numberToString b) None
           _ (fun el => changeAttributes numberToString el _)).
  - intros el. now rewrite changeAttributes_applyProps.
  - now rewrite changeAttributes_applyProps.
Qed.

Lemma drawCircle_runDraw (numberToString : Q -> string) (b : CircleBody)
  (d : Dom.Document) :
  drawCircle numberToString b d = runDraw (circleDraw numberToString b) d.
Proof.
  unfold drawCircle, runDraw, circleDraw. cbn [dTag dId dProps dText].
  apply (draw_closed_form "circle" (Circle.id b) (circleProps numberToString b) None
           _ (fun el => changeAttributes numberToString el _)).
  - intros el. now rewrite changeAttributes_applyProps.
  - now rewrite changeAttributes_applyProps.
Qed.

Lemma drawText_runDraw (numberToString : Q -> string) (b : TextBody)
  (d : Dom.Document) :
  drawText numberToString b d = runDraw (textDraw numberToString b) d.
Proof.
  unfold drawText, runDraw, textDraw. cbn [dTag dId dProps dText].
  apply (draw_closed_form "text" (Text.id b) (textProps numberToString b)
           (Some (Text.content b)) _
           (fun el => Dom.setTextContent (Text.content b)
                        (changeAttributes numberToString el _))).
  - intros el. now rewrite changeAttributes_applyProps.
  - now rewrite changeAttributes_applyProps.
Qed.

Lemma updateView_runDraws (numberToString : Q -> string)
  (gameOver : Side -> Dom.Document -> Dom.Document) (s : State) (d : Dom.Document) :
  St.winnerIs s = None ->
  updateView numberToString gameOver s d = runDraws (stateDraws numberToString s) d.
Proof.
  intros Hw. unfold updateView. rewrite Hw. cbn [runDraws stateDraws fold_left].
  now rewrite !drawRectangle_runDraw, drawCircle_runDraw, !drawText_runDraw.
Qed.

(** *** What one drawing call does *)

Lemma findId_upd_same (i : string) (f : Dom.Element -> Dom.Element)
  (l : list Dom.Element) :
  keepsIds f -> findId i (upd i f l) = option_map f (findId i l).
Proof.
  intros Hf. induction l as [|el l IH]; cbn; [reflexivity|].
  destruct (Dom.hasId i el) eqn:E; cbn.
  - now rewrite Hf, E.
  - now rewrite E.
Qed.

Lemma findId_upd_other (i i' : string) (f : Dom.Element -> Dom.Element)
  (l : list Dom.Element) :
  i <> i' -> keepsIds f -> findId i' (upd i f l) = findId i' l.
Proof.
  intros Hi Hf. induction l as [|el l IH]; cbn; [reflexivity|].
  destruct (Dom.hasId i el) eqn:E; cbn.
  - rewrite Hf. destruct (Dom.hasId i' el) eqn:E'; [|reflexivity].
    exfalso. apply Hi. eapply hasId_unique; eauto.
  - now rewrite IH.
Qed.

Lemma upd_app (i : string) (f : Dom.Element -> Dom.Element)
  (l1 l2 : list Dom.Element) :
  upd i f (l1 ++ l2)
  = match findId i l1 with
    | Some _ => (upd i f l1 ++ l2)%list
    | None => (l1 ++ upd i f l2)%list
    end.
Proof.
  induction l1 as [|el l1 IH]; cbn; [reflexivity|].
  destruct (Dom.hasId i el); [reflexivity|]. rewrite IH.
  destruct (findId i l1); reflexivity.
Qed.

Lemma upd_none (i : string) (f : Dom.Element -> Dom.Element)
  (l : list Dom.Element) :
  findId i l = None -> upd i f l = l.
Proof.
  induction l as [|el l IH]; cbn; [reflexivity|].
  destruct (Dom.hasId i el); [discriminate|]. intros H. now rewrite IH.
Qed.

Lemma elements_updDoc (i : string) (f : Dom.Element -> Dom.Element)
  (d : Dom.Document) :
  Dom.elements (updDoc i f d) = upd i f (Dom.elements d).
Proof.
  unfold updDoc, Dom.elements. rewrite upd_app.
  destruct (findId i (Dom.upToCanvas d)); reflexivity.
Qed.

Lemma length_upd (i : string) (f : Dom.Element -> Dom.Element)
  (l : list Dom.Element) :
  length (upd i f l) = length l.
Proof.
  induction l as [|el l IH]; cbn; [reflexivity|].
  destruct (Dom.hasId i el); cbn; [reflexivity | now rewrite IH].
Qed.

Lemma upd_idem (i : string) (f : Dom.Element -> Dom.Element)
  (l : list Dom.Element) :
  keepsIds f -> (forall el, f (f el) = f el) -> upd i f (upd i f l) = upd i f l.
Proof.
  intros Hk Hf. induction l as [|el l IH]; cbn; [reflexivity|].
  destruct (Dom.hasId i el) eqn:E; cbn.
  - now rewrite Hk, E, Hf.
  - now rewrite E, IH.
Qed.

Lemma upd_comm (i i' : string) (f f' : Dom.Element -> Dom.Element)
  (l : list Dom.Element) :
  i <> i' -> keepsIds f -> keepsIds f' ->
  upd i f (upd i' f' l) = upd i' f' (upd i f l).
Proof.
  intros Hi Hf Hf'. induction l as [|el l IH]; cbn; [reflexivity|].
  destruct (Dom.hasId i el) eqn:E, (Dom.hasId i' el) eqn:E'; cbn.
  - exfalso. apply Hi. eapply hasId_unique; eauto.
  - now rewrite E, Hf, E'.
  - now rewrite Hf', E, E'.
  - now rewrite E, E', IH.
Qed.

Lemma updDoc_idem (i : string) (f : Dom.Element -> Dom.Element)
  (d : Dom.Document) :
  keepsIds f -> (forall el, f (f el) = f el) ->
  updDoc i f (updDoc i f d) = updDoc i f d.
Proof.
  intros Hk Hf. unfold updDoc.
  destruct (findId i (Dom.upToCanvas d)) eqn:E; cbn.
  - rewrite findId_upd_same, E by exact Hk. cbn. now rewrite upd_idem.
  - rewrite E. now rewrite upd_idem.
Qed.

Lemma updDoc_comm (i i' : string) (f f' : Dom.Element -> Dom.Element)
  (d : Dom.Document) :
  i <> i' -> keepsIds f -> keepsIds f' ->
  updDoc i f (updDoc i' f' d) = updDoc i' f' (updDoc i f d).
Proof.
  intros Hi Hf Hf'. unfold updDoc.
  destruct (findId i (Dom.upToCanvas d)) eqn:E,
           (findId i' (Dom.upToCanvas d)) eqn:E'; cbn;
    rewrite ?findId_upd_other, ?E, ?E' by (assumption || congruence);
    try reflexivity.
  now rewrite upd_comm.
  now rewrite upd_comm.
Qed.

Lemma goodDraw_keepsIds (op : Draw) :
  goodDraw op -> keepsIds (applyProps (dProps op) (dText op)).
Proof. intros [[_ Hid] _]. now apply applyProps_keepsIds. Qed.

Lemma applyProps_created (op : Draw) :
  goodDraw op -> applyProps (dProps op) (dText op) (created op) = created op.
Proof. intros [[Hnd _] _]. unfold created. now apply applyProps_idem. Qed.

Lemma hasId_created_same (op : Draw) :
  goodDraw op -> Dom.hasId (dId op) (created op) = true.
Proof.
  intros [[_ Hid] _]. rewrite hasId_created by exact Hid. apply String.eqb_refl.
Qed.

Lemma hasId_created_other (op : Draw) (i : string) :
  ~ In "id" (map fst (dProps op)) -> i <> dId op ->
  Dom.hasId i (created op) = false.
Proof.
  intros Hid Hi. rewrite hasId_created by exact Hid.
  apply String.eqb_neq. congruence.
Qed.

Lemma runDraw_found (op : Draw) (d : Dom.Document) (e : Dom.Element) :
  dId op <> "" -> findId (dId op) (Dom.elements d) = Some e ->
  runDraw op d = updDoc (dId op) (applyProps (dProps op) (dText op)) d.
Proof.
  intros Hne H. unfold runDraw, drawWith.
  destruct (String.eqb_spec (dId op) ""); [contradiction|]. now rewrite H.
Qed.

Lemma runDraw_absent (op : Draw) (d : Dom.Document) :
  (if String.eqb (dId op) "" then None else findId (dId op) (Dom.elements d))
  = None ->
  runDraw op d
  = Dom.mkDocument (Dom.upToCanvas d ++ [created op])%list (Dom.afterCanvas d).
Proof. intros H. unfold runDraw, drawWith. now rewrite H. Qed.

Lemma getElement_runDraw_other (op : Draw) (i : string) (d : Dom.Document) :
  ~ In "id" (map fst (dProps op)) -> i <> dId op ->
  Dom.getElement i (runDraw op d) = Dom.getElement i d.
Proof.
  intros Hid Hi. rewrite !getElement_findId.
  destruct (String.eqb i ""); [reflexivity|].
  destruct (if String.eqb (dId op) "" then None
            else findId (dId op) (Dom.elements d)) as [e|] eqn:E.
  - unfold runDraw, drawWith. rewrite E. rewrite elements_updDoc.
    apply findId_upd_other; [congruence | now apply applyProps_keepsIds].
  - rewrite (runDraw_absent op d E). unfold Dom.elements. cbn.
    rewrite <- app_assoc, !findId_app. cbn.
    rewrite (hasId_created_other op i Hid Hi).
    destruct (findId i (Dom.upToCanvas d)); reflexivity.
Qed.

Lemma getElement_runDraw_same (op : Draw) (d : Dom.Document) :
  goodDraw op ->
  exists e, Dom.getElement (dId op) (runDraw op d)
            = Some (applyProps (dProps op) (dText op) e).
Proof.
  intros Hg. pose proof Hg as [_ Hne]. rewrite getElement_findId.
  destruct (String.eqb_spec (dId op) "") as [|_]; [contradiction|].
  destruct (findId (dId op) (Dom.elements d)) as [e|] eqn:E.
  - exists e. rewrite (runDraw_found op d e Hne E), elements_updDoc.
    rewrite findId_upd_same, E by now apply goodDraw_keepsIds. reflexivity.
  - exists (created op). rewrite runDraw_absent.
    + unfold Dom.elements in *. cbn. rewrite findId_app in E.
      destruct (findId (dId op) (Dom.upToCanvas d)) eqn:E1; [discriminate|].
      rewrite <- app_assoc, !findId_app, E1. cbn.
      now rewrite hasId_created_same, applyProps_created.
    + destruct (String.eqb_spec (dId op) ""); [reflexivity | exact E].
Qed.

Lemma runDraw_idem (op : Draw) (d : Dom.Document) :
  goodDraw op -> runDraw op (runDraw op d) = runDraw op d.
Proof.
  intros Hg. pose proof Hg as [[Hnd Hid] Hne].
  pose proof (goodDraw_keepsIds op Hg) as Hk.
  destruct (findId (dId op) (Dom.elements d)) as [e|] eqn:E.
  - rewrite (runDraw_found op d e Hne E).
    rewrite (runDraw_found op _ (applyProps (dProps op) (dText op) e) Hne).
    + apply updDoc_idem; [exact Hk|]. intros el. now apply applyProps_idem.
    + now rewrite elements_updDoc, findId_upd_same, E.
  - rewrite (runDraw_absent op d)
      by (destruct (String.eqb (dId op) ""); [reflexivity | exact E]).
    unfold Dom.elements in E. rewrite findId_app in E.
    destruct (findId (dId op) (Dom.upToCanvas d)) eqn:E1; [discriminate|].
    rewrite (runDraw_found op _ (created op) Hne).
    + unfold updDoc. cbn. rewrite findId_app, E1. cbn.
      rewrite hasId_created_same by exact Hg.
      rewrite upd_app, E1. cbn. rewrite hasId_created_same by exact Hg.
      now rewrite applyProps_created.
    + unfold Dom.elements. cbn. rewrite <- app_assoc, !findId_app, E1. cbn.
      now rewrite hasId_created_same.
Qed.

Lemma runDraw_fixed_found (op : Draw) (d : Dom.Document) :
  goodDraw op -> runDraw op d = d ->
  exists e, findId (dId op) (Dom.elements d) = Some e.
Proof.
  intros [_ Hne] H. destruct (findId (dId op) (Dom.elements d)) as [e|] eqn:E;
    [now exists e|].
  exfalso. rewrite runDraw_absent in H
    by (destruct (String.eqb (dId op) ""); [reflexivity | exact E]).
  apply (f_equal (fun x => length (Dom.upToCanvas x))) in H. cbn in H.
  rewrite length_app in H. cbn in H. lia.
Qed.

Lemma runDraw_settled_preserved (op op' : Draw) (d : Dom.Document) :
  goodDraw op -> ~ In "id" (map fst (dProps op')) -> dId op <> dId op' ->
  runDraw op d = d -> runDraw op (runDraw op' d) = runDraw op' d.
Proof.
  intros Hg Hid' Hi Hfix. pose proof Hg as [[Hnd Hid] Hne].
  pose proof (goodDraw_keepsIds op Hg) as Hk.
  destruct (runDraw_fixed_found op d Hg Hfix) as [e E].
  rewrite (runDraw_found op d e Hne E) in Hfix.
  assert (findId (dId op) (Dom.elements (runDraw op' d)) = Some e) as E'.
  { pose proof (getElement_runDraw_other op' (dId op) d Hid' Hi) as H.
    rewrite !getElement_findId in H.
    destruct (String.eqb_spec (dId op) ""); [contradiction|]. now rewrite H. }
  rewrite (runDraw_found op _ e Hne E').
  destruct (if String.eqb (dId op') "" then None
            else findId (dId op') (Dom.elements d)) as [e'|] eqn:F.
  - unfold runDraw, drawWith. rewrite F.
    rewrite updDoc_comm, Hfix;
      [reflexivity | exact Hi | exact Hk | now apply applyProps_keepsIds].
  - rewrite (runDraw_absent op' d F). destruct d as [l1 l2].
    unfold updDoc in Hfix |- *. cbn [Dom.upToCanvas Dom.afterCanvas] in Hfix |- *.
    rewrite findId_app. cbn [findId].
    rewrite (hasId_created_other op' (dId op) Hid' Hi).
    destruct (findId (dId op) l1) eqn:E1.
    + injection Hfix as Hfix. rewrite upd_app, E1, Hfix. reflexivity.
    + injection Hfix as Hfix. now rewrite Hfix.
Qed.

Lemma length_runDraw (op : Draw) (d : Dom.Document) :
  (length (Dom.elements d) <= length (Dom.elements (runDraw op d))
   <= S (length (Dom.elements d)))%nat.
Proof.
  unfold runDraw, drawWith.
  destruct (if String.eqb (dId op) "" then None
            else findId (dId op) (Dom.elements d)).
  - rewrite elements_updDoc, length_upd. lia.
  - unfold Dom.elements. cbn. rewrite !length_app. cbn. lia.
Qed.

(** *** The six calls of [updateView] *)

Lemma runDraws_settled (op : Draw) (rest : list Draw) :
  goodDraw op ->
  Forall (fun o => ~ In "id" (map fst (dProps o))) rest ->
  ~ In (dId op) (map dId rest) ->
  forall d, runDraw op d = d ->
            runDraw op (runDraws rest d) = runDraws rest d.
Proof.
  intros Hg. induction rest as [|o rest IH]; intros Hall Hnot d Hfix;
    [exact Hfix|].
  inversion Hall as [|? ? Ho Hall']; subst. cbn [runDraws fold_left].
  apply IH; [exact Hall' | intros H; apply Hnot; now right |].
  apply runDraw_settled_preserved; [exact Hg | exact Ho | | exact Hfix].
  intros H. apply Hnot. left. now symmetry.
Qed.

Lemma goodDraw_noId (ops : list Draw) :
  Forall goodDraw ops -> Forall (fun o => ~ In "id" (map fst (dProps o))) ops.
Proof. apply Forall_impl. now intros o [[_ H] _]. Qed.

Lemma runDraws_all_settled (ops : list Draw) :
  Forall goodDraw ops -> NoDup (map dId ops) ->
  forall d, Forall (fun op => runDraw op (runDraws ops d) = runDraws ops d) ops.
Proof.
  induction ops as [|op ops IH]; intros Hall Hnd d; [constructor|].
  inversion Hall as [|? ? Hg Hall']; subst.
  cbn in Hnd. inversion Hnd as [|? ? Hnot Hnd']; subst.
  cbn [runDraws fold_left]. constructor.
  - apply runDraws_settled;
      [exact Hg | now apply goodDraw_noId | exact Hnot | now apply runDraw_idem].
  - apply IH; assumption.
Qed.

Lemma runDraws_fix (ops : list Draw) (d : Dom.Document) :
  Forall (fun op => runDraw op d = d) ops -> runDraws ops d = d.
Proof.
  induction 1 as [|op ops Hop _ IH]; [reflexivity|].
  cbn [runDraws fold_left]. rewrite Hop. exact IH.
Qed.

Lemma runDraws_idem (ops : list Draw) (d : Dom.Document) :
  Forall goodDraw ops -> NoDup (map dId ops) ->
  runDraws ops (runDraws ops d) = runDraws ops d.
Proof.
  intros Hall Hnd. apply runDraws_fix. now apply runDraws_all_settled.
Qed.

Lemma getElement_runDraws_other (ops : list Draw) (i : string) :
  Forall (fun o => ~ In "id" (map fst (dProps o))) ops ->
  ~ In i (map dId ops) ->
  forall d, Dom.getElement i (runDraws ops d) = Dom.getElement i d.
Proof.
  induction ops as [|op ops IH]; intros Hall Hnot d; [reflexivity|].
  inversion Hall as [|? ? Ho Hall']; subst. cbn [runDraws fold_left].
  fold (runDraws ops (runDraw op d)).
  rewrite IH by (try assumption; intros H; apply Hnot; now right).
  apply getElement_runDraw_other; [exact Ho|].
  intros ->. apply Hnot. now left.
Qed.

Lemma getElement_runDraws_in (ops : list Draw) (op : Draw) :
  Forall goodDraw ops -> NoDup (map dId ops) -> In op ops ->
  forall d, exists e,
      Dom.getElement (dId op) (runDraws ops d)
      = Some (applyProps (dProps op) (dText op) e).
Proof.
  induction ops as [|o ops IH]; intros Hall Hnd Hin d; [contradiction|].
  inversion Hall as [|? ? Hg Hall']; subst.
  cbn in Hnd. inversion Hnd as [|? ? Hnot Hnd']; subst.
  cbn [runDraws fold_left]. fold (runDraws ops (runDraw o d)).
  destruct Hin as [-> | Hin].
  - rewrite getElement_runDraws_other; [| now apply goodDraw_noId | exact Hnot].
    now apply getElement_runDraw_same.
  - now apply IH.
Qed.

Lemma length_runDraws (ops : list Draw) :
  forall d,
    (length (Dom.elements d) <= length (Dom.elements (runDraws ops d))
     <= length ops + length (Dom.elements d))%nat.
Proof.
  induction ops as [|op ops IH]; intros d; cbn [runDraws fold_left length].
  - lia.
  - fold (runDraws ops (runDraw op d)).
    pose proof (IH (runDraw op d)). pose proof (length_runDraw op d). lia.
Qed.

Lemma distinct_NoDup (l : list string) : distinct l = true -> NoDup l.
Proof.
  induction l as [|x l IH]; cbn; intros H; [constructor|].
  apply andb_prop in H as [Hx Hl]. constructor; [|now apply IH].
  intros Hin. apply negb_true_iff in Hx.
  assert (existsb (String.eqb x) l = true) as Hex
      by (apply existsb_exists; exists x; split; [exact Hin | apply String.eqb_refl]).
  congruence.
Qed.

Lemma stateDraws_ids (numberToString : Q -> string) (s : State) :
  map dId (stateDraws numberToString s) = drawnIds s.
Proof. reflexivity. Qed.

Lemma stateDraws_noId (numberToString : Q -> string) (s : State) :
  Forall (fun o => ~ In "id" (map fst (dProps o))) (stateDraws numberToString s).
Proof.
  unfold stateDraws. repeat constructor; cbn; intros H;
    repeat (destruct H as [H|H]; [discriminate H|]); exact H.
Qed.

Lemma stateDraws_good (numberToString : Q -> string) (s : State) :
  distinctIds s = true -> Forall goodDraw (stateDraws numberToString s).
Proof.
  intros H. unfold distinctIds in H. apply andb_prop in H as [_ H].
  apply negb_true_iff in H.
  assert (forall i, In i (drawnIds s) -> i <> "") as Hne.
  { intros i Hin ->.
    assert (existsb (String.eqb "") (drawnIds s) = true) as Hex
        by (apply existsb_exists; exists ""%string; split;
            [exact Hin | reflexivity]).
    congruence. }
  assert (forall ps, distinct (map fst ps) = true ->
                     existsb (String.eqb "id") (map fst ps) = false ->
                     goodProps ps) as Hgood.
  { intros ps H1 H2. split; [now apply distinct_NoDup|].
    intros Hin.
    assert (existsb (String.eqb "id") (map fst ps) = true) as Hex
        by (apply existsb_exists; exists "id"%string; split;
            [exact Hin | reflexivity]).
    congruence. }
  unfold stateDraws, drawnIds in *.
  repeat (apply Forall_cons;
          [split; cbn [dProps dId rectDraw circleDraw textDraw];
           [apply Hgood; reflexivity | apply Hne; cbn; tauto]|]).
  apply Forall_nil.
Qed.

Lemma applied_showsRect (numberToString : Q -> string) (b : RectBody)
  (e : Dom.Element) :
  showsRect numberToString b (applyProps (rectProps numberToString b) None e).
Proof.
  unfold showsRect, Dom.getAttribute, applyProps. cbn [Dom.attributes].
  repeat split;
    (apply getAttr_setAll_in;
     [apply distinct_NoDup; reflexivity | cbn; tauto]).
Qed.

Lemma applied_showsCircle (numberToString : Q -> string) (b : CircleBody)
  (e : Dom.Element) :
  showsCircle numberToString b (applyProps (circleProps numberToString b) None e).
Proof.
  unfold showsCircle, Dom.getAttribute, applyProps. cbn [Dom.attributes].
  repeat split;
    (apply getAttr_setAll_in;
     [apply distinct_NoDup; reflexivity | cbn; tauto]).
Qed.

Lemma applied_showsText (numberToString : Q -> string) (b : TextBody)
  (e : Dom.Element) :
  showsText numberToString b
    (applyProps (textProps numberToString b) (Some (Text.content b)) e).
Proof.
  unfold showsText, Dom.getAttribute, applyProps.
  cbn [Dom.attributes Dom.textContent].
  refine (conj _ (conj _ (conj _ (conj _ eq_refl))));
    (apply getAttr_setAll_in;
     [apply distinct_NoDup; reflexivity | cbn; tauto]).
Qed.

(** X23: after [updateView] on a state without winner whose six ids are
    distinct and not empty, each of the six bodies has its element in the
    document, found under its id, and the element carries the body's
    position, size and colour (and text) as attribute strings; this
    whether the element was there before or has just been created. *)
Theorem view_shows_the_state (numberToString : Q -> string)
  (gameOver : Side -> Dom.Document -> Dom.Document) (s : State)
  (d : Dom.Document) :
  St.winnerIs s = None -> distinctIds s = true ->
  viewShows numberToString s (updateView numberToString gameOver s d).
Proof.
  intros Hw Hd. rewrite (updateView_runDraws numberToString gameOver s d Hw).
  pose proof (stateDraws_good numberToString s Hd) as Hg.
  assert (NoDup (map dId (stateDraws numberToString s))) as Hnd.
  { rewrite stateDraws_ids. apply distinct_NoDup.
    unfold distinctIds in Hd. now apply andb_prop in Hd as [Hd _]. }
  pose proof (fun op Hin =>
                getElement_runDraws_in (stateDraws numberToString s) op Hg Hnd Hin d)
    as Hin.
  unfold viewShows.
  refine (conj _ (conj _ (conj _ (conj _ (conj _ _))))).
  - destruct (Hin (rectDraw numberToString (St.paddleOne s))) as [e He];
      [cbn; tauto|].
    eexists. split; [exact He | apply applied_showsRect].
  - destruct (Hin (rectDraw numberToString (St.paddleTwo s))) as [e He];
      [cbn; tauto|].
    eexists. split; [exact He | apply applied_showsRect].
  - destruct (Hin (circleDraw numberToString (St.ball s))) as [e He];
      [cbn; tauto|].
    eexists. split; [exact He | apply applied_showsCircle].
  - destruct (Hin (textDraw numberToString (St.scoreOne s))) as [e He];
      [cbn; tauto|].
    eexists. split; [exact He | apply applied_showsText].
  - destruct (Hin (textDraw numberToString (St.scoreTwo s))) as [e He];
      [cbn; tauto|].
    eexists. split; [exact He | apply applied_showsText].
  - destruct (Hin (textDraw numberToString (St.playerEnergy s))) as [e He];
      [cbn; tauto|].
    eexists. split; [exact He | apply applied_showsText].
Qed.

Lemma view_shows_the_state_witness :
  viewShows (fun _ => "n"%string) (sampleState (ball 450 300 5 0 None) 7 3 4)
    (updateView (fun _ => "n"%string) (fun _ d => d)
       (sampleState (ball 450 300 5 0 None) 7 3 4) (Dom.mkDocument [] [])).
Proof.
  apply (view_shows_the_state (fun _ => "n"%string) (fun _ d => d)
           (sampleState (ball 450 300 5 0 None) 7 3 4) (Dom.mkDocument [] []));
    reflexivity.
Defined.

(** X24: [updateView] on a state without winner leaves every element
    alone whose id is not one of the six it draws (the walls, the prompt):
    [getElementById] finds the same element with the same attributes as
    before; it removes nothing and adds at most six elements. *)
Theorem view_keeps_other_elements (numberToString : Q -> string)
  (gameOver : Side -> Dom.Document -> Dom.Document) (s : State)
  (d : Dom.Document) (i : string) :
  St.winnerIs s = None -> ~ In i (drawnIds s) ->
  Dom.getElement i (updateView numberToString gameOver s d) = Dom.getElement i d
  /\ (length (Dom.elements d)
      <= length (Dom.elements (updateView numberToString gameOver s d))
      <= 6 + length (Dom.elements d))%nat.
Proof.
  intros Hw Hnot. rewrite (updateView_runDraws numberToString gameOver s d Hw).
  split.
  - apply getElement_runDraws_other; [apply stateDraws_noId|].
    now rewrite stateDraws_ids.
  - apply (length_runDraws (stateDraws numberToString s) d).
Qed.

Lemma view_keeps_other_elements_witness :
  Dom.getElement "WallL"
    (updateView (fun _ => "n"%string) (fun _ d => d)
       (sampleState (ball 450 300 5 0 None) 7 3 4)
       (Dom.mkDocument [Dom.mkElement "rect" [("id", "WallL")] ""] []))
  = Dom.getElement "WallL"
      (Dom.mkDocument [Dom.mkElement "rect" [("id", "WallL")] ""] [])
  /\ (length (Dom.elements
                (Dom.mkDocument [Dom.mkElement "rect" [("id", "WallL")] ""] []))
      <= length (Dom.elements
                   (updateView (fun _ => "n"%string) (fun _ d => d)
                      (sampleState (ball 450 300 5 0 None) 7 3 4)
                      (Dom.mkDocument [Dom.mkElement "rect" [("id", "WallL")] ""] [])))
      <= 6 + length (Dom.elements
                       (Dom.mkDocument [Dom.mkElement "rect" [("id", "WallL")] ""] [])))%nat.
Proof.
  apply (view_keeps_other_elements (fun _ => "n"%string) (fun _ d => d)
           (sampleState (ball 450 300 5 0 None) 7 3 4)
           (Dom.mkDocument [Dom.mkElement "rect" [("id", "WallL")] ""] [])
           "WallL").
  - reflexivity.
  - cbn. intros H. repeat (destruct H as [H|H]; [discriminate H|]). exact H.
Defined.

(** X25: drawing the same state twice is drawing it once: on a state
    without winner whose six ids are distinct and not empty, [updateView]
    after [updateView] changes nothing, so a repeated frame creates no
    second element and rewrites every attribute with the value it has. *)
Theorem view_update_is_idempotent (numberToString : Q -> string)
  (gameOver : Side -> Dom.Document -> Dom.Document) (s : State)
  (d : Dom.Document) :
  St.winnerIs s = None -> distinctIds s = true ->
  updateView numberToString gameOver s (updateView numberToString gameOver s d)
  = updateView numberToString gameOver s d.
Proof.
  intros Hw Hd. rewrite !(updateView_runDraws numberToString gameOver s _ Hw).
  apply runDraws_idem; [now apply stateDraws_good|].
  rewrite stateDraws_ids. apply distinct_NoDup.
  unfold distinctIds in Hd. now apply andb_prop in Hd as [Hd _].
Qed.

Lemma view_update_is_idempotent_witness :
  updateView (fun _ => "n"%string) (fun _ d => d)
    (sampleState (ball 450 300 5 0 None) 7 3 4)
    (updateView (fun _ => "n"%string) (fun _ d => d)
       (sampleState (ball 450 300 5 0 None) 7 3 4) (Dom.mkDocument [] []))
  = updateView (fun _ => "n"%string) (fun _ d => d)
      (sampleState (ball 450 300 5 0 None) 7 3 4) (Dom.mkDocument [] []).
Proof.
  apply (view_update_is_idempotent (fun _ => "n"%string) (fun _ d => d)
           (sampleState (ball 450 300 5 0 None) 7 3 4) (Dom.mkDocument [] []));
    reflexivity.
Defined.

Lemma movingBallState_id (random : nat -> Q) (b : CircleBody)
  (player cpu : RectBody) (i : nat) (b' : CircleBody) (j : nat) :
  movingBallState random b player cpu i = Some (b', j) -> Circle.id b' = "ball".
Proof.
  intros H. unfold movingBallState in H.
  repeat match type of H with
         | (if ?c then _ else _) _ = _ => destruct c
         end;
    unfold bind, calculateBallVel, Math_random, ret in H;
    injection H as <- _; reflexivity.
Qed.

Lemma gameObserver_ball_id (random : nat -> Q) (acc : State) (s : Event)
  (i : nat) (acc' : State) (j : nat) :
  gameObserver random acc s i = Some (acc', j) ->
  Circle.id (St.ball acc') = "ball".
Proof.
  intros H.
  assert (forall acc0 s0 d,
             createStandardParseState random acc0 s0 d i = Some (acc', j) ->
             Circle.id (St.ball acc') = "ball") as Hstd.
  { intros acc0 s0 d H0.
    destruct (createStandardParseState_returns random acc0 s0 d i)
      as (p1 & vel & b & j' & _ & _ & Hball & Heq).
    rewrite Heq in H0. injection H0 as <- <-. cbn.
    eapply movingBallState_id; eauto. }
  apply gameObserver_branch in H.
  destruct H as [Ha H | size p1 b Ha -> Hpos Hstep Hball -> | size Ha -> Hle H
                 | Ha Hs Hp -> -> | Ha Hs Hc -> -> | Ha Hs Hn H1 -> ->
                 | Ha Hs Hn H1 H2 -> -> | Ha Hs Hn H1 H2 H];
    try (eapply Hstd; eauto; fail); try reflexivity.
  cbn. eapply movingBallState_id; eauto.
Qed.

Lemma reachable_ball_id (random : nat -> Q) (st : State) :
  reachable random st -> Circle.id (St.ball st) = "ball".
Proof.
  induction 1 as [i s0 j H | acc s i acc' j _ IH Hw _ H].
  - unfold defaultEverythingState, defaultBallState2, bind in H.
    rewrite genericDefaultBall_returns in H. injection H as <- _. reflexivity.
  - eapply gameObserver_ball_id; eauto.
Qed.

(** X26: every reachable state is drawn under the same six ids,
    PaddlePlayer, PaddleAI, ball, ScorePlayer, ScoreAI and playerEnergy:
    the reducer builds every body with its generator, so the ids are
    distinct and none is empty. *)
Theorem reachable_state_keeps_its_ids (random : nat -> Q) (st : State) :
  reachable random st ->
  drawnIds st
  = ["PaddlePlayer"; "PaddleAI"; "ball"; "ScorePlayer"; "ScoreAI"; "playerEnergy"]%string
  /\ distinctIds st = true.
Proof.
  intros Hr.
  assert (drawnIds st
          = ["PaddlePlayer"; "PaddleAI"; "ball"; "ScorePlayer"; "ScoreAI";
             "playerEnergy"]%string) as Hids.
  { pose proof (reachable_ball_id random st Hr) as Hb.
    destruct (reachable_built random st Hr)
      as (y1 & v1 & h1 & y2 & v2 & h2 & n1 & n2 & e
          & H1 & H2 & H3 & H4 & H5 & _).
    unfold drawnIds. rewrite H1, H2, H3, H4, H5, Hb. reflexivity. }
  split; [exact Hids|]. unfold distinctIds. rewrite Hids. reflexivity.
Qed.

Lemma reachable_state_keeps_its_ids_witness :
  exists st j,
    runGame zeroDraws (keyDownArrow :: repeat (Tick 0) 242) 0%nat = Some (st, j) /\
    drawnIds st
    = ["PaddlePlayer"; "PaddleAI"; "ball"; "ScorePlayer"; "ScoreAI";
       "playerEnergy"]%string /\
    distinctIds st = true.
Proof.
  eexists; eexists. split; [vm_compute; reflexivity|].
  lazymatch goal with
  | |- drawnIds ?st = _ /\ _ =>
      apply (reachable_state_keeps_its_ids zeroDraws st);
        eapply (runGame_reachable zeroDraws (keyDownArrow :: repeat (Tick 0) 242));
        [constructor; [apply mapped_down | apply Forall_mapped_repeat, mapped_tick]
        | vm_compute; reflexivity]
  end.
Defined.
